(** * Research orchestration engine: a shallow embedding

    The development follows the Python sources module by module:

    - [PyStr]        : the few [str] operations the code relies on
                       ([lower], [in], truthiness);
    - [Hashlib]      : [hashlib.md5], which names the cache entries;
    - [SourceCacheM] : [utils/source_cache.py] (class [SourceCache]);
    - [ProcessUrl]   : the cache traffic of [ResearchSystem._process_url];
    - [Scheduler]    : [ResearchSystem._create_execution_batches] of [main.py];
    - [ApiManager]   : [utils/api_manager.py] (class [GeminiAPIManager]);
    - [StepLoop]     : the quality-convergence loop of
                       [ResearchSystem._execute_step];
    - [SanityCheck]  : [ResearchSystem._perform_sanity_check];
    - [Checkpoint]   : [utils/checkpoint_manager.py] together with
                       [ResearchSystem._save_checkpoint/_load_checkpoint].

    Conventions.  Python [str] values are modelled by [string] and are taken
    to hold ASCII text, so that [len], [str.lower] and the UTF-8 encoding act
    character by character.  External capabilities (text generation, search,
    page fetching) are oracles collected in a record, over which every
    theorem quantifies.  File-system operations are modelled as succeeding. *)

From Equations Require Import Equations.
From Stdlib Require Import Floats ZArith Permutation.
From stdpp Require Import gmap strings list fin_maps.

Set Warnings "-inexact-float,-register-all".
Local Open Scope string_scope.
Local Open Scope list_scope.

(** ** Python strings *)

Module PyStr.

(** [c.lower()] on an ASCII character: [A]..[Z] move to [a]..[z]. *)
Definition lower_ascii (c : Ascii.ascii) : Ascii.ascii :=
  let n := Ascii.nat_of_ascii c in
  if (65 <=? n)%nat && (n <=? 90)%nat then Ascii.ascii_of_nat (n + 32) else c.

(** [s.lower()] *)
Fixpoint lower (s : string) : string :=
  match s with
  | EmptyString => EmptyString
  | String c rest => String (lower_ascii c) (lower rest)
  end.

(** [needle in hay]: some suffix of [hay] starts with [needle]. *)
Fixpoint contains (needle hay : string) : bool :=
  String.prefix needle hay
  || match hay with
     | EmptyString => false
     | String _ rest => contains needle rest
     end.

(** Truthiness of a [str]: only the empty string is falsy. *)
Definition truthy (s : string) : bool :=
  match s with EmptyString => false | String _ _ => true end.

(** Truthiness of an optional [str] ([None] is falsy). *)
Definition truthy_opt (o : option string) : bool :=
  match o with None => false | Some s => truthy s end.

(** The mathematical reading of [in]: an occurrence somewhere in [hay]. *)
Definition occurs (needle hay : string) : Prop :=
  exists pre post, hay = pre +:+ needle +:+ post.

End PyStr.

(** ** hashlib.md5 (RFC 1321), the digest behind the cache keys *)

Module Hashlib.

Local Open Scope Z_scope.

Definition mask32 : Z := 0xffffffff.
Definition add32 (a b : Z) : Z := Z.land (a + b) mask32.
Definition not32 (a : Z) : Z := Z.lxor a mask32.
Definition rotl32 (x c : Z) : Z :=
  Z.lor (Z.land (Z.shiftl x c) mask32) (Z.shiftr x (32 - c)).

Definition shift_amounts : list Z :=
  [ 7; 12; 17; 22; 7; 12; 17; 22; 7; 12; 17; 22; 7; 12; 17; 22;
    5; 9; 14; 20; 5; 9; 14; 20; 5; 9; 14; 20; 5; 9; 14; 20;
    4; 11; 16; 23; 4; 11; 16; 23; 4; 11; 16; 23; 4; 11; 16; 23;
    6; 10; 15; 21; 6; 10; 15; 21; 6; 10; 15; 21; 6; 10; 15; 21 ].

Definition sine_table : list Z :=
  [
    0xd76aa478; 0xe8c7b756; 0x242070db; 0xc1bdceee;
    0xf57c0faf; 0x4787c62a; 0xa8304613; 0xfd469501;
    0x698098d8; 0x8b44f7af; 0xffff5bb1; 0x895cd7be;
    0x6b901122; 0xfd987193; 0xa679438e; 0x49b40821;
    0xf61e2562; 0xc040b340; 0x265e5a51; 0xe9b6c7aa;
    0xd62f105d; 0x02441453; 0xd8a1e681; 0xe7d3fbc8;
    0x21e1cde6; 0xc33707d6; 0xf4d50d87; 0x455a14ed;
    0xa9e3e905; 0xfcefa3f8; 0x676f02d9; 0x8d2a4c8a;
    0xfffa3942; 0x8771f681; 0x6d9d6122; 0xfde5380c;
    0xa4beea44; 0x4bdecfa9; 0xf6bb4b60; 0xbebfbc70;
    0x289b7ec6; 0xeaa127fa; 0xd4ef3085; 0x04881d05;
    0xd9d4d039; 0xe6db99e5; 0x1fa27cf8; 0xc4ac5665;
    0xf4292244; 0x432aff97; 0xab9423a7; 0xfc93a039;
    0x655b59c3; 0x8f0ccc92; 0xffeff47d; 0x85845dd1;
    0x6fa87e4f; 0xfe2ce6e0; 0xa3014314; 0x4e0811a1;
    0xf7537e82; 0xbd3af235; 0x2ad7d2bb; 0xeb86d391 ].

(** [url.encode('utf-8')] on ASCII text: one byte per character. *)
Definition encode (s : string) : list Z :=
  map (fun c => Z.of_nat (Ascii.nat_of_ascii c)) (String.list_ascii_of_string s).

Definition le_bytes (count : nat) (x : Z) : list Z :=
  map (fun i => Z.land (Z.shiftr x (8 * Z.of_nat i)) 0xff) (seq 0 count).

Fixpoint le_word (bytes : list Z) : Z :=
  match bytes with
  | [] => 0
  | b :: rest => b + 256 * le_word rest
  end.

(** Message padding: a [0x80] byte, zeros up to 56 modulo 64, then the
    bit length on eight little-endian bytes. *)
Definition pad (msg : list Z) : list Z :=
  let len := Z.of_nat (length msg) in
  let zeros := Z.to_nat ((55 - len) mod 64) in
  msg ++ [0x80] ++ repeat 0 zeros ++ le_bytes 8 ((8 * len) mod 2 ^ 64).

Fixpoint chunks (fuel : nat) (size : nat) (l : list Z) : list (list Z) :=
  match fuel, l with
  | O, _ | _, [] => []
  | S fuel', _ => take size l :: chunks fuel' size (drop size l)
  end.

Definition md5_round (M : list Z) (st : Z * Z * Z * Z) (i : nat)
  : Z * Z * Z * Z :=
  let '(A, B, C, D) := st in
  let iz := Z.of_nat i in
  let '(F, g) :=
    if iz <? 16 then (Z.lor (Z.land B C) (Z.land (not32 B) D), iz)
    else if iz <? 32 then
      (Z.lor (Z.land D B) (Z.land (not32 D) C), (5 * iz + 1) mod 16)
    else if iz <? 48 then (Z.lxor B (Z.lxor C D), (3 * iz + 5) mod 16)
    else (Z.lxor C (Z.lor B (not32 D)), (7 * iz) mod 16) in
  let F' := add32 (add32 (add32 F A) (nth i sine_table 0))
                  (nth (Z.to_nat g) M 0) in
  (D, add32 B (rotl32 F' (nth i shift_amounts 0)), B, C).

Definition md5_block (st : Z * Z * Z * Z) (block : list Z) : Z * Z * Z * Z :=
  let M := map le_word (chunks 16 4 block) in
  let '(a0, b0, c0, d0) := st in
  let '(A, B, C, D) := fold_left (md5_round M) (seq 0 64) st in
  (add32 a0 A, add32 b0 B, add32 c0 C, add32 d0 D).

Definition md5 (msg : list Z) : list Z :=
  let padded := pad msg in
  let '(a, b, c, d) :=
    fold_left md5_block (chunks (length padded) 64 padded)
              (0x67452301, 0xefcdab89, 0x98badcfe, 0x10325476) in
  le_bytes 4 a ++ le_bytes 4 b ++ le_bytes 4 c ++ le_bytes 4 d.

Definition hex_digit (n : Z) : Ascii.ascii :=
  nth (Z.to_nat n) (String.list_ascii_of_string "0123456789abcdef") Ascii.zero.

Definition hexdigest (bytes : list Z) : string :=
  String.string_of_list_ascii
    (concat (map (fun b => [hex_digit (b / 16); hex_digit (b mod 16)]) bytes)).

End Hashlib.

(** ** utils/source_cache.py *)

Module SourceCacheM.

Import PyStr.

Local Open Scope Z_scope.

(** The [timestamp] field of an index record as [datetime.fromisoformat]
    reads it: a point in time, counted in microseconds, or a string it
    rejects (the index is reloaded from [cache_index.json]). *)
Inductive Timestamp : Type :=
| IsoTime (microseconds : Z)
| Unparsable (raw : string).

(** One record of [cache_index]. *)
Record IndexEntry : Type := {
  url : string;
  timestamp : Timestamp;
  size_bytes : nat
}.

(** The [SourceCache] object together with the directory it owns:
    [index_file] is [cache_index.json] ([None] while it does not exist) and
    [cache_files] maps a cache key to the content of [<key>.txt]. *)
Record SourceCache : Type := {
  cache_ttl : Z;
  cache_index : gmap string IndexEntry;
  hits : nat;
  misses : nat;
  index_file : option (gmap string IndexEntry);
  cache_files : gmap string string
}.

(** [timedelta(hours=h)] in microseconds. *)
Definition timedelta_hours (h : Z) : Z := h * 3600 * 1000000.

(** [_load_cache_index] *)
Definition _load_cache_index (on_disk : option (gmap string IndexEntry))
  : gmap string IndexEntry :=
  match on_disk with
  | Some index => index
  | None => ∅
  end.

(** [SourceCache.__init__(cache_ttl_hours)] over the directory content
    found on disk. *)
Definition SourceCache_init (cache_ttl_hours : Z)
    (on_disk : option (gmap string IndexEntry))
    (files : gmap string string) : SourceCache :=
  {| cache_ttl := timedelta_hours cache_ttl_hours;
     cache_index := _load_cache_index on_disk;
     hits := 0; misses := 0;
     index_file := on_disk;
     cache_files := files |}.

Definition default_cache_ttl_hours : Z := 24.

(** [hashlib.md5(url.encode('utf-8')).hexdigest()] *)
Definition _get_cache_key (url : string) : string :=
  Hashlib.hexdigest (Hashlib.md5 (Hashlib.encode url)).

(** [_is_expired]: [datetime.now() - cached_time > self.cache_ttl], and
    [True] when the stored string does not parse. *)
Definition _is_expired (self : SourceCache) (now : Z) (ts : Timestamp) : bool :=
  match ts with
  | IsoTime cached_time => now - cached_time >? cache_ttl self
  | Unparsable _ => true
  end.

Definition count_miss (self : SourceCache) : SourceCache :=
  {| cache_ttl := cache_ttl self; cache_index := cache_index self;
     hits := hits self; misses := S (misses self);
     index_file := index_file self; cache_files := cache_files self |}.

Definition count_hit (self : SourceCache) : SourceCache :=
  {| cache_ttl := cache_ttl self; cache_index := cache_index self;
     hits := S (hits self); misses := misses self;
     index_file := index_file self; cache_files := cache_files self |}.

(** [remove]: drop the index record (saving the index when it changed) and
    delete the content file when it exists. *)
Definition remove (url : string) (self : SourceCache) : SourceCache :=
  let cache_key := _get_cache_key url in
  let index' := delete cache_key (cache_index self) in
  {| cache_ttl := cache_ttl self;
     cache_index := index';
     hits := hits self; misses := misses self;
     index_file :=
       match cache_index self !! cache_key with
       | Some _ => Some index'
       | None => index_file self
       end;
     cache_files := delete cache_key (cache_files self) |}.

Definition carriage_return : Ascii.ascii := Ascii.ascii_of_nat 13.
Definition line_feed : Ascii.ascii := Ascii.ascii_of_nat 10.

(** [f.read()] on a file opened with [open(.., 'r', encoding='utf-8')]:
    text mode with universal newlines, which hands back every CR LF and
    every other CR as LF.  (The file holds the text as [put] wrote it,
    which is the case where [os.linesep] is LF.) *)
Fixpoint universal_newlines (s : string) : string :=
  match s with
  | EmptyString => EmptyString
  | String c rest =>
      if Ascii.eqb c carriage_return then
        match rest with
        | String c' rest' =>
            if Ascii.eqb c' line_feed
            then String line_feed (universal_newlines rest')
            else String line_feed (universal_newlines rest)
        | EmptyString => String line_feed EmptyString
        end
      else String c (universal_newlines rest)
  end.

(** [get], with the clock reading [now] passed in. *)
Definition get (now : Z) (url : string) (self : SourceCache)
  : option string * SourceCache :=
  let cache_key := _get_cache_key url in
  match cache_index self !! cache_key with
  | None => (None, count_miss self)
  | Some entry =>
      if _is_expired self now (timestamp entry) then
        (None, remove url (count_miss self))
      else
        match cache_files self !! cache_key with
        | Some content => (Some (universal_newlines content), count_hit self)
        | None => (None, count_miss self)
        end
  end.

(** [put], with the clock reading [now] passed in. *)
Definition put (now : Z) (url content : string) (self : SourceCache)
  : SourceCache :=
  if negb (truthy content) then self
  else
    let cache_key := _get_cache_key url in
    let index' :=
      <[cache_key := {| url := url; timestamp := IsoTime now;
                        size_bytes := String.length content |}]>
        (cache_index self) in
    {| cache_ttl := cache_ttl self;
       cache_index := index';
       hits := hits self; misses := misses self;
       index_file := Some index';
       cache_files := <[cache_key := content]> (cache_files self) |}.

Definition cache_worthy_domains : list string :=
  [ "github.com"; "docs."; "documentation.";
    ".edu"; ".gov"; ".org";
    "arxiv.org"; "wikipedia.org";
    "stackoverflow.com"; "python.org";
    "ai.google.dev"; "cloud.google.com";
    "openai.com"; "anthropic.com";
    "huggingface.co"; "paperswithcode.com" ].

(** [any(domain in url.lower() for domain in cache_worthy_domains)] *)
Definition should_cache (url : string) : bool :=
  existsb (fun domain => contains domain (lower url)) cache_worthy_domains.

End SourceCacheM.

(** ** main.py : the cache traffic of [_process_url] *)

Module ProcessUrl.

Import PyStr SourceCacheM.



End ProcessUrl.

(** ** main.py : the dependency-aware batch scheduler *)

Module Scheduler.

Import PyStr.

(** A plan step (a [dict] of the plan; [action] and [reasoning] are read
    with [.get(.., '')], so a missing key is the empty string). *)
Record Step : Type := {
  step_number : Z;
  action : string;
  search_queries : list string;
  reasoning : string
}.

Definition dependency_keywords : list string :=
  [ "based on"; "using"; "compare"; "synthesize"; "combine";
    "previous"; "earlier"; "above"; "from step"; "after" ].

(** [f"{step.get('action', '')} {step.get('reasoning', '')}".lower()] *)
Definition step_text (step : Step) : string :=
  lower (action step +:+ " " +:+ reasoning step).

(** The flag [has_dependency] computed in the body of the [for] loop;
    [n_steps] is [len(steps)]. *)
Definition has_dependency (n_steps : nat) (step : Step) : bool :=
  existsb (fun keyword => contains keyword (step_text step)) dependency_keywords
  || (step_number step =? Z.of_nat n_steps)%Z.

Definition nonempty {A} (l : list A) : bool :=
  match l with [] => false | _ :: _ => true end.

(** One turn of the [for] loop over [remaining_steps]; the accumulator is
    the pair [(current_batch, next_remaining)]. *)
Definition place (n_steps : nat) (acc : list Step * list Step) (step : Step)
  : list Step * list Step :=
  let '(current_batch, next_remaining) := acc in
  if has_dependency n_steps step && nonempty current_batch
  then (current_batch, next_remaining ++ [step])
  else (current_batch ++ [step], next_remaining).

(** The whole [for] loop of one round. *)
Definition round (n_steps : nat) (remaining_steps : list Step)
  : list Step * list Step :=
  fold_left (place n_steps) remaining_steps ([], []).

Definition inspect {A} (a : A) : {b : A | a = b} := exist _ a eq_refl.

(** The [while remaining_steps:] loop; [batches] is the list built so far.
    A round always removes at least the steps it put in [current_batch],
    which is the measure of the recursion. *)
Equations? while_remaining (n_steps : nat) (remaining_steps : list Step)
    (batches : list (list Step)) : list (list Step)
    by wf (length remaining_steps) lt :=
  while_remaining n_steps [] batches := batches;
  while_remaining n_steps (s :: rest) batches
    with inspect (round n_steps (s :: rest)) := {
    | exist _ ([], _) _ =>
        (* no progress: the remaining steps become single-step batches *)
        batches ++ map (fun step => [step]) (s :: rest)
    | exist _ (c :: cs, next_remaining) e =>
        while_remaining n_steps next_remaining (batches ++ [c :: cs]) }.
Proof.
  (* a round only moves steps: the two lists it returns hold them all *)
  assert (H : forall l acc,
             (length (fold_left (place n_steps) l acc).1
              + length (fold_left (place n_steps) l acc).2
              = length acc.1 + length acc.2 + length l)%nat).
  { induction l as [|x l IH]; intros [cur nxt]; simpl; [lia|].
    rewrite IH. unfold place.
    destruct (has_dependency n_steps x && nonempty cur); simpl;
      rewrite length_app; simpl; lia. }
  specialize (H (s :: rest) ([], [])).
  fold (round n_steps (s :: rest)) in H. rewrite e in H.
  simpl in *. lia.
Qed.

Definition _create_execution_batches (steps : list Step) : list (list Step) :=
  while_remaining (length steps) steps [].

End Scheduler.

(** ** utils/api_manager.py : the credential pool *)

Module ApiManager.

(** One entry of [api_keys]: [{"key": .., "exhausted": ..}]. *)
Record KeyInfo : Type := {
  key : string;
  exhausted : bool
}.

Record GeminiAPIManager : Type := {
  api_keys : list KeyInfo;
  current_index : nat
}.

Inductive Error : Type :=
| ValueError          (* "No Gemini API keys configured!" *)
| IndexError          (* a list index out of range *)
| AllKeysExhausted.   (* "All Gemini API keys exhausted! ..." *)

(** How a method call ends; the object keeps the mutations made before an
    exception was raised. *)
Inductive Outcome : Type :=
| Returned (self : GeminiAPIManager)
| Raised (e : Error) (self : GeminiAPIManager).

(** [GeminiAPIManager.__init__] over the configured [GEMINI_API_KEYS]. *)
Definition GeminiAPIManager_init (GEMINI_API_KEYS : list string) : Outcome :=
  let self :=
    {| api_keys := map (fun k => {| key := k; exhausted := false |}) GEMINI_API_KEYS;
       current_index := 0 |} in
  match api_keys self with
  | [] => Raised ValueError self
  | _ :: _ => Returned self
  end.

(** The [while True:] loop of [mark_current_exhausted].  Each turn moves
    [current_index] one place round the pool; [fuel] bounds the number of
    turns and [None] means that the bound was reached. *)
Fixpoint rotate (fuel : nat) (keys : list KeyInfo)
    (initial_index current_index : nat) : option Outcome :=
  match fuel with
  | O => None
  | S fuel' =>
      let current_index := (current_index + 1) mod length keys in
      let self := {| api_keys := keys; current_index := current_index |} in
      match keys !! current_index with
      | None => Some (Raised IndexError self)
      | Some info =>
          if (current_index =? initial_index)%nat then
            (* cycled through all keys *)
            if exhausted info then Some (Raised AllKeysExhausted self)
            else Some (Returned self)
          else if negb (exhausted info) then Some (Returned self)
          else rotate fuel' keys initial_index current_index
      end
  end.

(** [mark_current_exhausted]: flag the current key, then rotate.  A pool
    of [n] keys is back at [initial_index] after [n] turns, so [n] turns of
    fuel are enough. *)
Definition mark_current_exhausted (self : GeminiAPIManager) : option Outcome :=
  match api_keys self !! current_index self with
  | None => Some (Raised IndexError self)
  | Some info =>
      let keys :=
        <[current_index self := {| key := key info; exhausted := true |}]>
          (api_keys self) in
      let initial_index := current_index self in
      rotate (length keys) keys initial_index (current_index self)
  end.

(** [n] rate-limit signals in a row, each answered by
    [mark_current_exhausted]; an exception ends the run. *)
Fixpoint rate_limit_signals (n : nat) (self : GeminiAPIManager)
  : option Outcome :=
  match n with
  | O => Some (Returned self)
  | S n' =>
      match mark_current_exhausted self with
      | Some (Returned self') => rate_limit_signals n' self'
      | other => other
      end
  end.

End ApiManager.

(** ** main.py : the quality-convergence loop of [_execute_step] *)

Module StepLoop.

Import Scheduler.

(** An extracted fact: [{"fact": .., "source": ..}]. *)
Record Fact : Type := {
  fact : string;
  source : string
}.

(** What [_execute_step] reads from an evaluation [dict]:
    [.get('overall_score', 0.0)], the truth value of
    [.get('threshold_met', False)] and [.get('missing_aspects')] (an
    absent list reads as the empty one). *)
Record Evaluation : Type := {
  overall_score : float;
  threshold_met : bool;
  missing_aspects : list string
}.

(** The external capabilities the loop calls.  [run_queries k qs] gives
    the facts and sources that the queries [qs] of iteration [k] add to
    the shared accumulators (the work of [_execute_query] and
    [_process_url]); the first argument of [identify_knowledge_gaps] is
    the iteration that asks, so that the oracle may answer two identical
    requests differently. *)
Record World : Type := {
  run_queries : nat -> list string -> list Fact * list string;
  evaluate_research_quality :
    string -> list Fact -> list string -> nat -> Evaluation;
  identify_knowledge_gaps :
    nat -> string -> list Fact -> list string -> list string -> list string
}.

Definition max_queries_per_step : nat := 5.
Definition max_iterations_per_step : nat := 3.
Definition quality_threshold : float := 0.7%float.

(** Lines the loop prints. *)
Inductive Message : Type :=
| IterationBanner (iteration : nat)     (* "Iteration k/3" *)
| NoMissingAspects                      (* "No missing aspects identified" *)
| NoRefinedQueries                      (* "Could not generate refined queries" *)
| NoFactsCollected (iteration : nat)    (* "No facts collected in iteration k" *)
| ThresholdMet                          (* "Quality threshold met!" *)
| DiminishingReturns.                   (* "Diminishing returns" *)

(** The local variables of [_execute_step] and the state it shares:
    [last_evaluation] is [None] while the name is unbound;
    [quality_scores] is [self.metrics.metrics['quality_scores'][step_number]];
    [output] is what has been printed. *)
Record State : Type := {
  iteration : nat;
  quality_met : bool;
  last_evaluation : option Evaluation;
  all_collected_facts : list Fact;
  all_queries_tried : list string;
  step_sources : list string;
  quality_scores : list float;
  output : list Message
}.

Definition begin_iteration (st : State) : State :=
  {| iteration := S (iteration st);
     quality_met := quality_met st;
     last_evaluation := last_evaluation st;
     all_collected_facts := all_collected_facts st;
     all_queries_tried := all_queries_tried st;
     step_sources := step_sources st;
     quality_scores := quality_scores st;
     output := output st ++ [IterationBanner (S (iteration st))] |}.

Definition print (m : Message) (st : State) : State :=
  {| iteration := iteration st;
     quality_met := quality_met st;
     last_evaluation := last_evaluation st;
     all_collected_facts := all_collected_facts st;
     all_queries_tried := all_queries_tried st;
     step_sources := step_sources st;
     quality_scores := quality_scores st;
     output := output st ++ [m] |}.

(** The queries are submitted ([all_queries_tried.append]) and run; their
    facts and sources reach the accumulators. *)
Definition execute_queries (w : World) (queries : list string) (st : State)
  : State :=
  let '(facts, sources) := run_queries w (iteration st) queries in
  {| iteration := iteration st;
     quality_met := quality_met st;
     last_evaluation := last_evaluation st;
     all_collected_facts := all_collected_facts st ++ facts;
     all_queries_tried := all_queries_tried st ++ queries;
     step_sources := step_sources st ++ sources;
     quality_scores := quality_scores st;
     output := output st |}.

(** Modelled from the spec: [MetricsTracker.record_iteration] of
    [utils/metrics_tracker.py], which is not among the sources.  The
    iterations metric keeps, per step, the score of every iteration in the
    order they ran; [_execute_step] reads the previous one back as
    [quality_scores[step_number][-2]]. *)
Definition record_iteration (score : float) (scores : list float) : list float :=
  scores ++ [score].

(** [last_evaluation = ..] followed by [self.metrics.record_iteration]. *)
Definition evaluated (ev : Evaluation) (score : float) (st : State) : State :=
  {| iteration := iteration st;
     quality_met := quality_met st;
     last_evaluation := Some ev;
     all_collected_facts := all_collected_facts st;
     all_queries_tried := all_queries_tried st;
     step_sources := step_sources st;
     quality_scores := record_iteration score (quality_scores st);
     output := output st |}.

Definition set_quality_met (st : State) : State :=
  {| iteration := iteration st;
     quality_met := true;
     last_evaluation := last_evaluation st;
     all_collected_facts := all_collected_facts st;
     all_queries_tried := all_queries_tried st;
     step_sources := step_sources st;
     quality_scores := quality_scores st;
     output := output st |}.

(** The evaluation substituted when the step has no fact at all. *)
Definition no_data_evaluation : Evaluation :=
  {| overall_score := 0%float;
     threshold_met := false;
     missing_aspects := ["No data collected"] |}.

(** [scores[-2]] ([None] stands for [IndexError]). *)
Definition second_to_last (scores : list float) : option float :=
  if (length scores <? 2)%nat then None
  else scores !! (length scores - 2)%nat.

(** How one pass through the loop body ends: at the end of the body or at
    a [continue] ([Next]), at a [break], or with an exception. *)
Inductive Flow : Type :=
| Next (st : State)
| Break (st : State)
| Crash (st : State).

Definition is_nil {A} (l : list A) : bool :=
  match l with [] => true | _ :: _ => false end.

(** The second half of the body: run the queries, then evaluate. *)
Definition search_and_evaluate (w : World) (step : Step) (step_facts_start : nat)
    (current_queries : list string) (st : State) : Flow :=
  let capped := take max_queries_per_step current_queries in
  if is_nil capped then Crash st   (* ThreadPoolExecutor(max_workers=0) *)
  else
    let st := execute_queries w capped st in
    let step_facts := drop step_facts_start (all_collected_facts st) in
    if is_nil step_facts then
      Next (evaluated no_data_evaluation 0%float
              (print (NoFactsCollected (iteration st)) st))
    else
      let ev := evaluate_research_quality w (action step) step_facts
                  (step_sources st) (iteration st) in
      let quality_score := overall_score ev in
      let st := evaluated ev quality_score st in
      if threshold_met ev then Break (set_quality_met (print ThresholdMet st))
      else if (1 <? iteration st)%nat then
        match second_to_last (quality_scores st) with
        | None => Crash st
        | Some previous_score =>
            let improvement := PrimFloat.sub quality_score previous_score in
            if PrimFloat.ltb improvement 0.05%float
            then Break (print DiminishingReturns st)
            else Next st
        end
      else Next st.

(** The body of the [while] loop. *)
Definition loop_body (w : World) (step : Step) (step_facts_start : nat)
    (st : State) : Flow :=
  let st := begin_iteration st in
  if (iteration st =? 1)%nat then
    search_and_evaluate w step step_facts_start (search_queries step) st
  else
    let step_facts := drop step_facts_start (all_collected_facts st) in
    match last_evaluation st with
    | None => Crash st   (* the name is unbound *)
    | Some last =>
        if is_nil (missing_aspects last) then Break (print NoMissingAspects st)
        else
          let refined_queries :=
            identify_knowledge_gaps w (iteration st) (action step) step_facts
              (missing_aspects last) (all_queries_tried st) in
          if is_nil refined_queries then Break (print NoRefinedQueries st)
          else search_and_evaluate w step step_facts_start refined_queries st
    end.

(** How [_execute_step] leaves the loop. *)
Inductive Exit : Type :=
| Finished (st : State)
| Failed (st : State).

Definition final_state (e : Exit) : State :=
  match e with Finished st | Failed st => st end.

(** [while iteration < self.max_iterations_per_step and not quality_met];
    [None] means that [fuel] passes through the body were not enough. *)
Fixpoint while_loop (fuel : nat) (w : World) (step : Step)
    (step_facts_start : nat) (st : State) : option Exit :=
  if (iteration st <? max_iterations_per_step)%nat && negb (quality_met st) then
    match fuel with
    | O => None
    | S fuel' =>
        match loop_body w step step_facts_start st with
        | Next st' => while_loop fuel' w step step_facts_start st'
        | Break st' => Some (Finished st')
        | Crash st' => Some (Failed st')
        end
    end
  else Some (Finished st).

(** The state in which [_execute_step] enters its loop; [facts] is the
    shared fact list at that moment. *)
Definition initial_state (facts : list Fact) : State :=
  {| iteration := 0;
     quality_met := false;
     last_evaluation := None;
     all_collected_facts := facts;
     all_queries_tried := [];
     step_sources := [];
     quality_scores := [];
     output := [] |}.

(** The loop of [_execute_step] for [step]. *)
Definition _execute_step (w : World) (step : Step) (facts : list Fact)
  : option Exit :=
  while_loop max_iterations_per_step w step (length facts) (initial_state facts).

End StepLoop.

(** ** main.py : the global sufficiency check *)

Module SanityCheck.

Import PyStr.

Abbreviation Fact := StepLoop.Fact.

(** The verdict of [check_global_sufficiency] as the caller reads it: the
    truth value of [result.get('pass')] and [result.get('rescue_query')]
    ([None] for a JSON [null] or a missing key). *)
Record Verdict : Type := {
  pass : bool;
  rescue_query : option string;
  reason : string
}.

(** A search result; each key may be absent. *)
Record SearchResult : Type := {
  title : option string;
  link : option string;
  url : option string
}.

(** [result.get('link') or result.get('url')] *)
Definition result_url (result : SearchResult) : option string :=
  if truthy_opt (link result) then link result else url result.

(** The external capabilities; the [nat] argument of the fetcher and of
    the extractor is the position of the result being processed. *)
Record World : Type := {
  check_global_sufficiency : string -> list Fact -> Verdict;
  search : string -> nat -> list SearchResult;
  scrape_with_timeout : nat -> string -> Z -> option string;
  extract_key_info : nat -> string -> string -> string -> list Fact
}.

(** Calls made to the outside. *)
Inductive Call : Type :=
| Judge
| Search (query : string) (num_results : nat)
| Fetch (url : string) (timeout : Z)
| Extract (url : string).

Record State : Type := {
  all_collected_facts : list Fact;
  rescue_queries : nat;       (* metrics.record_rescue_query() *)
  calls : list Call
}.

Inductive Exit : Type :=
| Finished (st : State)
| Failed (st : State).

Definition final_state (e : Exit) : State :=
  match e with Finished st | Failed st => st end.

Definition call (c : Call) (st : State) : State :=
  {| all_collected_facts := all_collected_facts st;
     rescue_queries := rescue_queries st;
     calls := calls st ++ [c] |}.

Definition extend (facts : list Fact) (st : State) : State :=
  {| all_collected_facts := all_collected_facts st ++ facts;
     rescue_queries := rescue_queries st;
     calls := calls st |}.

Definition record_rescue_query (st : State) : State :=
  {| all_collected_facts := all_collected_facts st;
     rescue_queries := S (rescue_queries st);
     calls := calls st |}.

(** The body of [for result in search_results[:2]] for one result. *)
Definition rescue_one (w : World) (user_prompt : string) (idx : nat)
    (u : string) (st : State) : State :=
  let st := call (Fetch u 7) st in
  match scrape_with_timeout w idx u 7 with
  | Some scraped_content =>
      if truthy scraped_content then
        let facts := extract_key_info w idx user_prompt scraped_content u in
        extend facts (call (Extract u) st)
      else st
  | None => st
  end.

(** The [for] loop; a result without any URL makes the fetcher raise
    ([None.lower()]), which ends the check. *)
Fixpoint rescue_fetches (w : World) (user_prompt : string) (idx : nat)
    (results : list SearchResult) (st : State) : Exit :=
  match results with
  | [] => Finished st
  | result :: rest =>
      match result_url result with
      | None => Failed st
      | Some u =>
          rescue_fetches w user_prompt (S idx) rest
            (rescue_one w user_prompt idx u st)
      end
  end.

Definition _perform_sanity_check (w : World) (user_prompt : string)
    (st : State) : Exit :=
  let result :=
    check_global_sufficiency w user_prompt (all_collected_facts st) in
  let st := call Judge st in
  if pass result then Finished st
  else
    if truthy_opt (rescue_query result) then
      match rescue_query result with
      | Some query =>
          let st := call (Search query 3) (record_rescue_query st) in
          let search_results := search w query 3 in
          rescue_fetches w user_prompt 0 (take 2 search_results) st
      | None => Finished st
      end
    else Finished st.

End SanityCheck.

(** ** utils/checkpoint_manager.py and the checkpoint methods of main.py *)

Module Checkpoint.

(** Python values that [json.dump] writes and [json.load] reads back; a
    [dict] keeps its keys in insertion order.  The checkpoint file is
    modelled by the document it holds: [json.load] returns the value that
    [json.dump] was given. *)
Inductive json : Type :=
| JNull
| JBool (b : bool)
| JInt (n : Z)
| JStr (s : string)
| JList (items : list json)
| JDict (entries : list (string * json)).

(** [d[key] = value] on the entries of a [dict]. *)
Fixpoint dict_set (key : string) (value : json) (entries : list (string * json))
  : list (string * json) :=
  match entries with
  | [] => [(key, value)]
  | (k, v) :: rest =>
      if String.eqb k key then (k, value) :: rest
      else (k, v) :: dict_set key value rest
  end.

(** [d.get(key)] *)
Fixpoint dict_get (key : string) (entries : list (string * json)) : option json :=
  match entries with
  | [] => None
  | (k, v) :: rest => if String.eqb k key then Some v else dict_get key rest
  end.

(** [{**state, "timestamp": .., "checkpoint_version": "1.0"}] *)
Definition with_stamp (timestamp : string) (state : list (string * json))
  : list (string * json) :=
  dict_set "checkpoint_version" (JStr "1.0")
    (dict_set "timestamp" (JStr timestamp) state).

(** [CheckpointManager.save]: the new content of the checkpoint file. *)
Definition save (timestamp : string) (state : list (string * json))
  : option json :=
  Some (JDict (with_stamp timestamp state)).

(** [CheckpointManager.load] on the content of the checkpoint file
    ([None] when the file does not exist). *)
Definition load (checkpoint_file : option json) : option json :=
  checkpoint_file.

(** [CheckpointManager.clear] *)
Definition clear (checkpoint_file : option json) : option json := None.

(** The two accumulators of [ResearchSystem].  A fact is the [dict]
    produced by the extractor; a scraped URL is a [str], or [None] when a
    search result carried no link. *)
Record ResearchSystem : Type := {
  all_collected_facts : list json;
  scraped_urls : gset (option string)
}.

Definition url_to_json (u : option string) : json :=
  match u with
  | Some s => JStr s
  | None => JNull
  end.

(** The hashable values a URL set is rebuilt from; other values are
    outside the model. *)
Definition json_to_url (v : json) : option (option string) :=
  match v with
  | JStr s => Some (Some s)
  | JNull => Some None
  | _ => None
  end.

(** [list(range(1, current_step + 1))] *)
Definition completed_steps (current_step : Z) : list json :=
  map (fun i => JInt (Z.of_nat i)) (seq 1 (Z.to_nat current_step)).

(** The [state] dictionary built by [_save_checkpoint];
    [list(self.scraped_urls)] enumerates the set in some order. *)
Definition checkpoint_state (self : ResearchSystem) (user_prompt : string)
    (research_plan : json) (current_step : Z) : list (string * json) :=
  [ ("user_prompt", JStr user_prompt);
    ("research_plan", research_plan);
    ("current_step", JInt current_step);
    ("completed_steps", JList (completed_steps current_step));
    ("all_collected_facts", JList (all_collected_facts self));
    ("scraped_urls", JList (map url_to_json (elements (scraped_urls self)))) ].

(** [_save_checkpoint]: the content of the checkpoint file afterwards. *)
Definition _save_checkpoint (self : ResearchSystem) (timestamp : string)
    (user_prompt : string) (research_plan : json) (current_step : Z)
  : option json :=
  save timestamp (checkpoint_state self user_prompt research_plan current_step).

(** [checkpoint_data.get(key, [])] read as a list. *)
Definition get_list (key : string) (entries : list (string * json))
  : option (list json) :=
  match dict_get key entries with
  | None => Some []
  | Some (JList items) => Some items
  | Some _ => None
  end.

(** [_load_checkpoint]: the system after the call.  An absent file or an
    empty dictionary leaves it as it is; the outer [None] stands for a
    document that [save] never writes. *)
Definition _load_checkpoint (self : ResearchSystem)
    (checkpoint_file : option json) : option ResearchSystem :=
  match load checkpoint_file with
  | None => Some self
  | Some (JDict []) => Some self
  | Some (JDict entries) =>
      facts ← get_list "all_collected_facts" entries;
      urls ← get_list "scraped_urls" entries;
      urls ← mapM json_to_url urls;
      Some {| all_collected_facts := facts; scraped_urls := list_to_set urls |}
  | Some _ => None
  end.

(** [ResearchSystem.__init__]: both accumulators start empty. *)
Definition new_system : ResearchSystem :=
  {| all_collected_facts := []; scraped_urls := ∅ |}.

End Checkpoint.

(** ** utils/source_cache.py : maintenance operations *)

Module SourceCacheMaintenance.

Import SourceCacheM.

(** How [clear_expired] and [clear_all] end: normally, or with the
    [KeyError] of [self.cache_index[cache_key]] once an earlier removal has
    taken the record away. *)
Inductive Cleared : Type :=
| Done (self : SourceCache)
| KeyError (cache_key : string) (self : SourceCache).

(** The loop [for cache_key in keys: url = self.cache_index[cache_key]['url'];
    self.remove(url)]. *)
Fixpoint remove_each (keys : list string) (self : SourceCache) : Cleared :=
  match keys with
  | [] => Done self
  | cache_key :: rest =>
      match cache_index self !! cache_key with
      | None => KeyError cache_key self
      | Some entry => remove_each rest (remove (url entry) self)
      end
  end.

(** The first loop of [clear_expired]: the keys of the records that
    [_is_expired] rejects, in the order the index is enumerated ([now] is
    the clock reading, taken as constant during the scan). *)
Definition expired_keys (now : Z) (self : SourceCache) : list string :=
  map fst (List.filter (fun item => _is_expired self now (timestamp item.2))
                       (map_to_list (cache_index self))).

(** [clear_expired] *)
Definition clear_expired (now : Z) (self : SourceCache) : Cleared :=
  remove_each (expired_keys now self) self.

(** [clear_all]: [for cache_key in list(self.cache_index.keys())]. *)
Definition clear_all (self : SourceCache) : Cleared :=
  remove_each (map fst (map_to_list (cache_index self))) self.

End SourceCacheMaintenance.

(** ** utils/api_manager.py : the calls that use the pool *)

Module GeminiCalls.

Import PyStr ApiManager.

(** [get_current_key] ([None] stands for [IndexError]). *)
Definition get_current_key (self : GeminiAPIManager) : option string :=
  key <$> api_keys self !! current_index self.

(** [reset_keys] *)
Definition reset_keys (self : GeminiAPIManager) : GeminiAPIManager :=
  {| api_keys :=
       map (fun key_info => {| key := key key_info; exhausted := false |})
           (api_keys self);
     current_index := 0 |}.

(** ["429" in error_str or "quota" in error_str.lower()] *)
Definition is_rate_limit (error_str : string) : bool :=
  contains "429" error_str || contains "quota" (lower error_str).

(** How [generate_content] ends. *)
Inductive Generated : Type :=
| Response (text : string)        (* [return response] *)
| Propagated (error_str : string) (* [raise e]: not a rate limit *)
| RotationFailed (e : Error)      (* [raise rotation_error] *)
| RetriesExceeded.                (* "Failed to generate content after .. retries" *)

(** The outcome together with the pool as the call leaves it and the keys
    the model was called with, in order. *)
Record Report : Type := {
  outcome : Generated;
  pool : GeminiAPIManager;
  keys_used : list string
}.

(** The [while retries < max_retries] loop; [remaining] is
    [max_retries - retries].  [model_call n k] is the [n]-th call to the
    model, made with key [k]: the response text, or [str(e)] of the
    exception raised. *)
Fixpoint generate_loop (model_call : nat -> string -> string + string)
    (remaining : nat) (self : GeminiAPIManager) (used : list string)
  : option Report :=
  match remaining with
  | O => Some {| outcome := RetriesExceeded; pool := self; keys_used := used |}
  | S remaining' =>
      match get_current_key self with
      | None =>
          Some {| outcome := Propagated "list index out of range";
                  pool := self; keys_used := used |}
      | Some k =>
          match model_call (length used) k with
          | inl text =>
              Some {| outcome := Response text; pool := self;
                      keys_used := used ++ [k] |}
          | inr error_str =>
              if is_rate_limit error_str then
                match mark_current_exhausted self with
                | Some (Returned self') =>
                    generate_loop model_call remaining' self' (used ++ [k])
                | Some (Raised e self') =>
                    Some {| outcome := RotationFailed e; pool := self';
                            keys_used := used ++ [k] |}
                | None => None
                end
              else
                Some {| outcome := Propagated error_str; pool := self;
                        keys_used := used ++ [k] |}
          end
      end
  end.

(** [generate_content(.., max_retries)] *)
Definition generate_content (model_call : nat -> string -> string + string)
    (max_retries : nat) (self : GeminiAPIManager) : option Report :=
  generate_loop model_call max_retries self [].

Definition default_max_retries : nat := 3.

End GeminiCalls.

(** ** modules/search.py : the search engine and its fallback *)

Module SearchEngineM.

Abbreviation SearchResult := SanityCheck.SearchResult.

(** One entry of [google_keys]. *)
Record GoogleKey : Type := {
  api_key : string;
  cx_id : string;
  exhausted : bool
}.

(** [tavily_client] tells whether the Tavily client was configured. *)
Record SearchEngine : Type := {
  google_keys : list GoogleKey;
  current_google_key_index : nat;
  tavily_client : bool;
  using_tavily : bool
}.

(** The two providers.  [_search_google query api_key cx_id num_results]
    is [None] on a quota or request error; [tavily_search] is [None] when
    the client raises. *)
Record Providers : Type := {
  _search_google : string -> string -> string -> nat -> option (list SearchResult);
  tavily_search : string -> nat -> option (list SearchResult)
}.

(** [SearchEngine.__init__] over the configured keys. *)
Definition SearchEngine_init (GOOGLE_SEARCH_KEY_0 CX_ID_0 GOOGLE_SEARCH_KEY_1
    CX_ID_1 TAVILY_SEARCH_KEY : string) : SearchEngine :=
  {| google_keys :=
       [ {| api_key := GOOGLE_SEARCH_KEY_0; cx_id := CX_ID_0; exhausted := false |};
         {| api_key := GOOGLE_SEARCH_KEY_1; cx_id := CX_ID_1; exhausted := false |} ];
     current_google_key_index := 0;
     tavily_client := PyStr.truthy TAVILY_SEARCH_KEY;
     using_tavily := false |}.

(** [_switch_google_key] *)
Definition _switch_google_key (self : SearchEngine) : SearchEngine :=
  {| google_keys := google_keys self;
     current_google_key_index :=
       (current_google_key_index self + 1) mod length (google_keys self);
     tavily_client := tavily_client self;
     using_tavily := using_tavily self |}.

(** [current_key["exhausted"] = True] *)
Definition mark_exhausted (self : SearchEngine) (current_key : GoogleKey)
  : SearchEngine :=
  {| google_keys :=
       <[current_google_key_index self :=
           {| api_key := api_key current_key; cx_id := cx_id current_key;
              exhausted := true |}]> (google_keys self);
     current_google_key_index := current_google_key_index self;
     tavily_client := tavily_client self;
     using_tavily := using_tavily self |}.

Definition set_using_tavily (self : SearchEngine) : SearchEngine :=
  {| google_keys := google_keys self;
     current_google_key_index := current_google_key_index self;
     tavily_client := tavily_client self;
     using_tavily := true |}.

(** [_search_tavily]: an unconfigured client and a failing one both give
    the empty list. *)
Definition _search_tavily (w : Providers) (self : SearchEngine)
    (query : string) (num_results : nat) : list SearchResult :=
  if tavily_client self then default [] (tavily_search w query num_results)
  else [].

(** A provider is entered: Google with the key at [key_index], or
    [_search_tavily]. *)
Inductive ProviderCall : Type :=
| Google (key_index : nat)
| Tavily.

(** What a call of [search] leaves: the list returned ([None] stands for an
    [IndexError]), the engine, and the providers entered, in order. *)
Record Report : Type := {
  results : option (list SearchResult);
  engine : SearchEngine;
  provider_calls : list ProviderCall
}.

(** The loop [for attempt in range(len(self.google_keys))]; [inr] is the
    loop running to its end without a [return]. *)
Fixpoint google_attempts (w : Providers) (attempts : nat) (query : string)
    (num_results : nat) (self : SearchEngine) (log : list ProviderCall)
  : Report + SearchEngine * list ProviderCall :=
  match attempts with
  | O => inr (self, log)
  | S attempts' =>
      match google_keys self !! current_google_key_index self with
      | None => inl {| results := None; engine := self; provider_calls := log |}
      | Some current_key =>
          if exhausted current_key then
            google_attempts w attempts' query num_results
              (_switch_google_key self) log
          else
            let log := log ++ [Google (current_google_key_index self)] in
            match _search_google w query (api_key current_key)
                    (cx_id current_key) num_results with
            | Some found =>
                inl {| results := Some found; engine := self;
                       provider_calls := log |}
            | None =>
                google_attempts w attempts' query num_results
                  (_switch_google_key (mark_exhausted self current_key)) log
            end
      end
  end.

(** [search] *)
Definition search (w : Providers) (query : string) (num_results : nat)
    (self : SearchEngine) : Report :=
  if using_tavily self then
    {| results := Some (_search_tavily w self query num_results);
       engine := self; provider_calls := [Tavily] |}
  else
    match google_attempts w (length (google_keys self)) query num_results
            self [] with
    | inl report => report
    | inr (self, log) =>
        let self := set_using_tavily self in
        {| results := Some (_search_tavily w self query num_results);
           engine := self; provider_calls := log ++ [Tavily] |}
    end.

(** [reset_google_keys] *)
Definition reset_google_keys (self : SearchEngine) : SearchEngine :=
  {| google_keys :=
       map (fun k => {| api_key := api_key k; cx_id := cx_id k; exhausted := false |})
           (google_keys self);
     current_google_key_index := 0;
     tavily_client := tavily_client self;
     using_tavily := false |}.

End SearchEngineM.

(** ** main.py : the URL bookkeeping of [_execute_query] *)

Module ExecuteQuery.

(** What a result [dict] holds under ['title']: nothing (the key is
    absent), [None], or a string.  [_search_google] builds its results
    with [item.get("title")], which is [None] for an item without a
    title. *)
Inductive Title : Type :=
| Missing
| Null
| Text (s : string).

(** A search result as [_execute_query] reads it; [link] and [url] are
    read with [.get], where an absent key and [None] are the same. *)
Record SearchResult : Type := {
  title : Title;
  link : option string;
  url : option string
}.

(** [result.get('link') or result.get('url')] *)
Definition result_url (result : SearchResult) : option string :=
  if PyStr.truthy_opt (link result) then link result else url result.

(** [result.get('title', 'Unknown')]; [None] is Python's [None]. *)
Definition result_title (result : SearchResult) : option string :=
  match title result with
  | Missing => Some "Unknown"
  | Null => None
  | Text s => Some s
  end.

(** What the loop over the search results leaves: the URLs handed to
    [_process_url], in order, the number of results skipped, and
    [self.scraped_urls]. *)
Record Selection : Type := {
  submitted : list (option string);
  skipped : nat;
  scraped_urls : gset (option string)
}.

(** How the loop ends: at the end of the results, or with the [TypeError]
    of [title[:50]] on a [None] title.  The URLs submitted before are
    processed in both cases (the executor waits for them on exit). *)
Inductive Outcome : Type :=
| Returned (sel : Selection)
| TypeError (sel : Selection).

Definition selection (o : Outcome) : Selection :=
  match o with Returned sel | TypeError sel => sel end.

(** [for idx, result in enumerate(search_results[:3], 1)]: under
    [urls_lock], a URL already in [scraped_urls] is skipped, which prints
    [title[:50]] before the skip is recorded; a new one is added to the
    set and submitted. *)
Fixpoint select_urls (results : list SearchResult) (sel : Selection)
  : Outcome :=
  match results with
  | [] => Returned sel
  | result :: rest =>
      let u := result_url result in
      if decide (u ∈ scraped_urls sel) then
        match result_title result with
        | None => TypeError sel
        | Some _ =>
            select_urls rest
              {| submitted := submitted sel; skipped := S (skipped sel);
                 scraped_urls := scraped_urls sel |}
        end
      else
        select_urls rest
          {| submitted := submitted sel ++ [u]; skipped := skipped sel;
             scraped_urls := {[ u ]} ∪ scraped_urls sel |}
  end.

(** The URL bookkeeping of [_execute_query] for the results of its search
    (an empty result list returns at once). *)
Definition _execute_query (search_results : list SearchResult)
    (scraped : gset (option string)) : Outcome :=
  select_urls (take 3 search_results)
    {| submitted := []; skipped := 0; scraped_urls := scraped |}.

End ExecuteQuery.

(** ** modules/quality_evaluator.py : the fallbacks of the two capabilities *)

Module QualityEvaluator.

Import StepLoop.

(** The evaluation returned when the model call or the parsing of its
    answer raises. *)
Definition default_evaluation : Evaluation :=
  {| overall_score := 0.5%float;
     threshold_met := false;
     missing_aspects := ["Evaluation failed - assuming incomplete"] |}.

(** [evaluate_research_quality] around the model call [ask] ([None] when it
    raises). *)
Definition evaluate_research_quality
    (ask : string -> list Fact -> list string -> nat -> option Evaluation)
    (step_objective : string) (extracted_facts : list Fact)
    (sources : list string) (iteration : nat) : Evaluation :=
  match ask step_objective extracted_facts sources iteration with
  | Some evaluation => evaluation
  | None => default_evaluation
  end.

(** [identify_knowledge_gaps] around the model call [ask]: when it raises,
    one query is made up from the objective. *)
Definition identify_knowledge_gaps
    (ask : nat -> string -> list Fact -> list string -> list string
           -> option (list string))
    (iteration : nat) (step_objective : string) (extracted_facts : list Fact)
    (missing_aspects previous_queries : list string) : list string :=
  match ask iteration step_objective extracted_facts missing_aspects
            previous_queries with
  | Some refined_queries => refined_queries
  | None => [step_objective +:+ " detailed implementation guide"]
  end.

End QualityEvaluator.

(** ** [modules/sanity_checker.py] *)

Set Warnings "-abstract-large-number".

Module SanityChecker.

Import PyStr.

Abbreviation Fact := StepLoop.Fact.
Abbreviation Verdict := SanityCheck.Verdict.

Definition newline : string := String (Ascii.ascii_of_nat 10) EmptyString.

(** [s[:n]] *)
Fixpoint slice_to (n : nat) (s : string) : string :=
  match n, s with
  | S n', String c rest => String c (slice_to n' rest)
  | _, _ => EmptyString
  end.

(** [f"- {item['fact']} (Source: {item['source']})\n"] *)
Definition fact_line (item : Fact) : string :=
  "- " +:+ StepLoop.fact item +:+ " (Source: " +:+ StepLoop.source item
  +:+ ")" +:+ newline.

(** The [for] loop that builds [facts_text]. *)
Definition facts_text (all_collected_facts : list Fact) : string :=
  fold_left (fun text item => text +:+ fact_line item) all_collected_facts "".

(** The verdict returned when the model call or the parsing of its answer
    raises. *)
Definition error_verdict : Verdict :=
  {| SanityCheck.pass := true;
     SanityCheck.rescue_query := None;
     SanityCheck.reason := "Error in sanity check" |}.

(** [ask goal facts] stands for the model call and [json.loads] on the
    prompt built from the user goal and [facts_text[:20000]]; [None] is an
    exception raised by either. *)
Definition check_global_sufficiency (ask : string -> string -> option Verdict)
    (original_prompt : string) (all_collected_facts : list Fact) : Verdict :=
  match ask original_prompt (slice_to 20000 (facts_text all_collected_facts)) with
  | Some result => result
  | None => error_verdict
  end.

End SanityChecker.

(** ** [modules/synthesizer.py]: citation numbers *)

Module Synthesizer.

Abbreviation Fact := StepLoop.Fact.

(** The [dict] [url_to_citation]; a Python [dict] keeps its keys in the
    order they were first inserted. *)
Definition Citations : Type := list (string * nat).

(** [url_to_citation[url]]; [None] stands for [KeyError], and for
    [url not in url_to_citation]. *)
Fixpoint lookup (url : string) (url_to_citation : Citations) : option nat :=
  match url_to_citation with
  | [] => None
  | (u, n) :: rest => if decide (u = url) then Some n else lookup url rest
  end.

(** One turn of the deduplication loop, on the pair
    [(url_to_citation, citation_counter)]. *)
Definition number_source (acc : Citations * nat) (item : Fact)
  : Citations * nat :=
  let '(url_to_citation, citation_counter) := acc in
  let source_url := StepLoop.source item in
  match lookup source_url url_to_citation with
  | None => (url_to_citation ++ [(source_url, citation_counter)],
             S citation_counter)
  | Some _ => acc
  end.

Definition deduplicate (all_verified_facts : list Fact) : Citations :=
  (fold_left number_source all_verified_facts ([], 1)).1.

(** The citation number written next to each fact of [evidence_text]. *)
Definition citation_nums (all_verified_facts : list Fact) : option (list nat) :=
  mapM (fun item => lookup (StepLoop.source item) (deduplicate all_verified_facts))
       all_verified_facts.

(** [sorted(.., key=lambda x: x[1])]: a stable sort by citation number. *)
Fixpoint insert_by_number (x : string * nat) (l : Citations) : Citations :=
  match l with
  | [] => [x]
  | y :: rest =>
      if (x.2 <=? y.2)%nat then x :: l else y :: insert_by_number x rest
  end.

Definition sorted_by_number (l : Citations) : Citations :=
  foldr insert_by_number [] l.

(** The entries of the references section, in the order they are
    written. *)
Definition references (all_verified_facts : list Fact) : Citations :=
  sorted_by_number (deduplicate all_verified_facts).

End Synthesizer.

(** ** [utils/gpt_manager.py] *)

Module GptManager.

Import PyStr.

(** [self.client] is always the client built for
    [tokens[current_token_index]], so the index stands for it. *)
Record GPTManager : Type := {
  tokens : list string;
  current_token_index : nat
}.

(** [__init__]; [None] stands for the [IndexError] of [self.tokens[0]] on
    an empty list. *)
Definition GPTManager_init (github_tokens : list string) : option GPTManager :=
  match github_tokens with
  | [] => None
  | _ :: _ => Some {| tokens := github_tokens; current_token_index := 0 |}
  end.

(** [_rotate_token]; [generate_content] calls it only when a further token
    is left to try, so the list is not empty. *)
Definition _rotate_token (self : GPTManager) : GPTManager :=
  {| tokens := tokens self;
     current_token_index :=
       (current_token_index self + 1) mod length (tokens self) |}.

Inductive Model : Type := Gpt5 | Gpt4o.

(** What [chat.completions.create] gives: the content of the response, or
    [str(e)] of the exception raised. *)
Inductive Reply : Type :=
| Content (text : string)
| Error (error_str : string).

(** A request: the token it was made with and the model asked for. *)
Definition Request : Type := nat * Model.

(** ["gpt-5" in str(e).lower() or "not found" in str(e).lower()] *)
Definition gpt5_unavailable (error_str : string) : bool :=
  contains "gpt-5" (lower error_str) || contains "not found" (lower error_str).

(** ["rate limit" in error_str.lower() or "too many requests" in ..] *)
Definition is_rate_limit (error_str : string) : bool :=
  contains "rate limit" (lower error_str)
  || contains "too many requests" (lower error_str).

(** The body of the outer [try]: GPT-5 first, GPT-4o when the error says
    that GPT-5 is not available.  [create k i m] is the [k]-th request,
    made with token [i] for model [m]. *)
Definition attempt (create : nat -> nat -> Model -> Reply) (self : GPTManager)
    (log : list Request) : Reply * list Request :=
  let i := current_token_index self in
  match create (length log) i Gpt5 with
  | Content text => (Content text, log ++ [(i, Gpt5)])
  | Error error_str =>
      if gpt5_unavailable error_str then
        (create (S (length log)) i Gpt4o, log ++ [(i, Gpt5); (i, Gpt4o)])
      else (Error error_str, log ++ [(i, Gpt5)])
  end.

(** How [generate_content] ends. *)
Inductive Generated : Type :=
| Returned (content : string)
| AllRateLimited                  (* "All GitHub tokens rate limited. .." *)
| AllFailed (error_str : string)  (* "GPT API failed on all n tokens: .." *)
| NothingLeft.                    (* "Failed to generate content after trying all .." *)

Record Report : Type := {
  outcome : Generated;
  manager : GPTManager;
  requests : list Request
}.

(** The two nested [while] loops, one test of a loop condition per unit of
    [fuel]; [None] means that the fuel did not suffice. *)
Fixpoint generate_loop (fuel : nat) (create : nat -> nat -> Model -> Reply)
    (max_retries : nat) (self : GPTManager) (tokens_tried retries : nat)
    (log : list Request) : option Report :=
  match fuel with
  | O => None
  | S fuel' =>
      let max_tokens_to_try := length (tokens self) in
      if (tokens_tried <? max_tokens_to_try)%nat then
        if (retries <? max_retries)%nat then
          match attempt create self log with
          | (Content text, log) =>
              Some {| outcome := Returned text; manager := self;
                      requests := log |}
          | (Error error_str, log) =>
              let retries := S retries in
              if is_rate_limit error_str then
                if (max_retries <=? retries)%nat then
                  let tokens_tried := S tokens_tried in
                  if (tokens_tried <? max_tokens_to_try)%nat then
                    (* [break]: the outer loop sets [retries = 0] *)
                    generate_loop fuel' create max_retries
                      (_rotate_token self) tokens_tried 0 log
                  else
                    Some {| outcome := AllRateLimited; manager := self;
                            requests := log |}
                else
                  (* [retries -= 1; continue] *)
                  generate_loop fuel' create max_retries self tokens_tried
                    (retries - 1) log
              else if (max_retries <=? retries)%nat then
                let tokens_tried := S tokens_tried in
                if (tokens_tried <? max_tokens_to_try)%nat then
                  generate_loop fuel' create max_retries
                    (_rotate_token self) tokens_tried 0 log
                else
                  Some {| outcome := AllFailed error_str; manager := self;
                          requests := log |}
              else
                generate_loop fuel' create max_retries self tokens_tried
                  retries log
          end
        else
          (* the inner loop is over without a [break]: the outer loop
             begins again *)
          generate_loop fuel' create max_retries self tokens_tried 0 log
      else
        Some {| outcome := NothingLeft; manager := self; requests := log |}
  end.

(** [generate_content(.., max_retries)] *)
Definition generate_content (fuel : nat) (create : nat -> nat -> Model -> Reply)
    (max_retries : nat) (self : GPTManager) : option Report :=
  generate_loop fuel create max_retries self 0 0 [].

Definition default_max_retries : nat := 1.

End GptManager.

(** ** [modules/extractor.py] *)

Module Extractor.

Abbreviation Fact := StepLoop.Fact.

(** [ask query source_url text] stands for the model call on the prompt
    built from the query, the URL and [raw_text[:30000]], followed by
    [json.loads] and [data.get("key_findings", [])]; [None] is an
    exception raised on the way. *)
Definition extract_key_info
    (ask : string -> string -> string -> option (list string))
    (query raw_text source_url : string) : list Fact :=
  match ask query source_url (SanityChecker.slice_to 30000 raw_text) with
  | Some findings =>
      map (fun fact => {| StepLoop.fact := fact; StepLoop.source := source_url |})
          findings
  | None => []
  end.

End Extractor.

(** ** [modules/scraper.py]: the download of a PDF *)

Module Scraper.

(** [max_size = 50 * 1024 * 1024] *)
Definition max_size : Z := 50 * 1024 * 1024.

(** The loop [for chunk in response.iter_content(..)] on the state
    [(pdf_content, total_size)]: an empty chunk is passed over, the chunk
    that takes the total beyond [max_size] ends the loop unwritten. *)
Fixpoint read_chunks (chunks : list (list Byte.byte))
    (pdf_content : list Byte.byte) (total_size : Z) : list Byte.byte :=
  match chunks with
  | [] => pdf_content
  | chunk :: rest =>
      match chunk with
      | [] => read_chunks rest pdf_content total_size
      | _ :: _ =>
          let total_size := (total_size + Z.of_nat (length chunk))%Z in
          if (max_size <? total_size)%Z then pdf_content
          else read_chunks rest (pdf_content ++ chunk) total_size
      end
  end.

(** What [pdf_content] holds when the parsers are started. *)
Definition downloaded (chunks : list (list Byte.byte)) : list Byte.byte :=
  read_chunks chunks [] 0.

End Scraper.

(** ** Facts about Python strings *)

Module PyStrFacts.

Import PyStr.

Lemma append_cons (c : Ascii.ascii) (s t : string) :
  String c s +:+ t = String c (s +:+ t).
Proof. reflexivity. Qed.

Lemma append_nil (t : string) : "" +:+ t = t.
Proof. reflexivity. Qed.

Lemma prefix_occurs (p s : string) :
  String.prefix p s = true <-> exists post, s = p +:+ post.
Proof.
  revert s; induction p as [|a p IH]; intros s; simpl.
  - split; [intros _; exists s; reflexivity | destruct s; reflexivity].
  - destruct s as [|b s]; simpl.
    + split; [discriminate | intros [post H]; discriminate].
    + destruct (Ascii.ascii_dec a b) as [->|Hne].
      * rewrite IH. split; intros [post H]; exists post;
          rewrite ?append_cons in *; congruence.
      * split; [discriminate | intros [post H]].
        rewrite append_cons in H. congruence.
Qed.

Lemma contains_occurs (needle hay : string) :
  contains needle hay = true <-> occurs needle hay.
Proof.
  unfold occurs. induction hay as [|c hay IH]; cbn [contains].
  - rewrite orb_false_r, prefix_occurs. split.
    + intros [post H]. exists "", post. exact H.
    + intros (pre & post & H). destruct pre as [|d pre].
      * exists post. exact H.
      * rewrite append_cons in H. discriminate.
  - rewrite orb_true_iff, prefix_occurs, IH. split.
    + intros [[post H] | (pre & post & H)].
      * exists "", post. exact H.
      * exists (String c pre), post. rewrite append_cons. congruence.
    + intros (pre & post & H). destruct pre as [|d pre].
      * left. exists post. exact H.
      * right. exists pre, post. rewrite append_cons in H. congruence.
Qed.

Lemma lower_app (s t : string) : lower (s +:+ t) = lower s +:+ lower t.
Proof.
  induction s as [|c s IH]; [reflexivity|].
  rewrite append_cons. simpl. rewrite append_cons. congruence.
Qed.

Lemma lower_idempotent (s : string) : lower (lower s) = lower s.
Proof.
  induction s as [|c s IH]; simpl; [reflexivity|].
  rewrite IH. f_equal.
  destruct c as [[] [] [] [] [] [] [] []]; reflexivity.
Qed.

End PyStrFacts.

(** ** The digest, checked against [hashlib] on sample inputs *)

Module HashlibFacts.

Import Hashlib.

Definition digest_of (s : string) : string := hexdigest (md5 (encode s)).

Example md5_empty : digest_of "" = "d41d8cd98f00b204e9800998ecf8427e".
Proof. vm_compute. reflexivity. Qed.

Example md5_abc : digest_of "abc" = "900150983cd24fb0d6963f7d28e17f72".
Proof. vm_compute. reflexivity. Qed.

(** 56 bytes: the padding spills into a second block. *)
Example md5_two_blocks :
  digest_of "aaaaaaaaaaaaaaaaaaaaaaaaaaaaaaaaaaaaaaaaaaaaaaaaaaaaaaaa"
  = "3b0c8ac703f828b04c6c197006d17218".
Proof. vm_compute. reflexivity. Qed.

Example md5_url :
  digest_of ("https://docs.python.org/3/library/hashlib.html"
             +:+ "#hashlib.md5-and-more-text-to-cross-one-block")
  = "5f85f14a7d2e283cd714b7d536942276".
Proof. vm_compute. reflexivity. Qed.

End HashlibFacts.

(** ** The batch scheduler *)

Module SchedulerFacts.

Import PyStr Scheduler.

Section Rounds.

Variable n_steps : nat.

Let dep := has_dependency n_steps.
Let indep := fun step => negb (has_dependency n_steps step).

(** Once [current_batch] holds a step, the rest of the round is a
    partition by [has_dependency]. *)
Lemma fold_place_started (l cur nxt : list Step) (c : Step) :
  fold_left (place n_steps) l (c :: cur, nxt)
  = (c :: cur ++ List.filter indep l, nxt ++ List.filter dep l).
Proof.
  revert cur nxt; induction l as [|x l IH]; intros cur nxt; simpl.
  - now rewrite !app_nil_r.
  - unfold indep, dep in *. destruct (has_dependency n_steps x); simpl.
    + rewrite IH. now rewrite <- app_assoc.
    + rewrite (IH (cur ++ [x]) nxt). now rewrite <- app_assoc.
Qed.

(** The first remaining step always enters [current_batch]. *)
Lemma round_cons (x : Step) (rest : list Step) :
  round n_steps (x :: rest)
  = (x :: List.filter indep rest, List.filter dep rest).
Proof.
  unfold round. simpl. rewrite andb_false_r. simpl.
  now rewrite fold_place_started.
Qed.

(** Unfolding of the [while] loop: the no-progress branch is never
    taken on a non-empty list. *)
Lemma while_remaining_cons (x : Step) (rest : list Step)
    (batches : list (list Step)) :
  while_remaining n_steps (x :: rest) batches
  = while_remaining n_steps (List.filter dep rest)
      (batches ++ [x :: List.filter indep rest]).
Proof.
  simp while_remaining.
  generalize (inspect (round n_steps (x :: rest))).
  intros [[cur nxt] e]. pose proof e as e'. rewrite round_cons in e'.
  injection e' as Hcur Hnxt. subst cur nxt. now simp while_remaining.
Qed.

Lemma filter_length_le (f : Step -> bool) (l : list Step) :
  (length (List.filter f l) <= length l)%nat.
Proof. induction l as [|x l IH]; simpl; [lia|destruct (f x); simpl; lia]. Qed.

Lemma filter_partition_perm (l : list Step) :
  Permutation (List.filter indep l ++ List.filter dep l) l.
Proof.
  induction l as [|x l IH]; simpl; [constructor|].
  unfold indep, dep in *. destruct (has_dependency n_steps x); simpl.
  - rewrite <- Permutation_middle. now constructor.
  - now constructor.
Qed.

(** Every batch is non-empty and the batches hold the steps given. *)
Lemma while_remaining_partition (bound : nat) :
  forall (l : list Step) (batches : list (list Step)),
    (length l <= bound)%nat ->
    Forall (fun b => b <> []) batches ->
    Forall (fun b => b <> []) (while_remaining n_steps l batches)
    /\ Permutation (concat (while_remaining n_steps l batches))
                   (concat batches ++ l).
Proof.
  induction bound as [|bound IH]; intros l batches Hlen Hne.
  - destruct l; [|simpl in Hlen; lia]. simp while_remaining.
    rewrite app_nil_r. auto.
  - destruct l as [|x rest]; [simp while_remaining; rewrite app_nil_r; auto|].
    rewrite while_remaining_cons.
    destruct (IH (List.filter dep rest) (batches ++ [x :: List.filter indep rest]))
      as [Hne' Hperm].
    + pose proof (filter_length_le dep rest). simpl in Hlen. lia.
    + apply Forall_app. split; [exact Hne|]. repeat constructor. discriminate.
    + split; [exact Hne'|]. rewrite Hperm.
      rewrite concat_app. simpl. rewrite app_nil_r, <- !app_assoc.
      apply Permutation_app_head. simpl. constructor.
      apply filter_partition_perm.
Qed.

(** A dependent step that closes the list ends up alone, in the last
    batch. *)
Lemma while_remaining_last (bound : nat) :
  forall (l pre : list Step) (s : Step) (batches : list (list Step)),
    (length l <= bound)%nat ->
    l = pre ++ [s] ->
    has_dependency n_steps s = true ->
    exists earlier, while_remaining n_steps l batches = earlier ++ [[s]].
Proof.
  induction bound as [|bound IH]; intros l pre s batches Hlen Hl Hdep.
  - subst l. rewrite length_app in Hlen. simpl in Hlen. lia.
  - destruct pre as [|x pre]; subst l; simpl; rewrite while_remaining_cons.
    + simpl. simp while_remaining. now exists batches.
    + rewrite List.filter_app. simpl. fold dep. unfold dep at 2.
      rewrite Hdep.
      apply (IH _ (List.filter dep pre) s); [|reflexivity|exact Hdep].
      pose proof (filter_length_le dep pre) as Hf.
      simpl in Hlen. rewrite length_app in *. simpl in *. lia.
Qed.

End Rounds.

(** The steps of the plan carry the numbers 1, 2, ..., n in this order. *)
Definition numbered_in_order (steps : list Step) : Prop :=
  map step_number steps = map Z.of_nat (seq 1 (length steps)).

Lemma numbered_last (pre : list Step) (s : Step) :
  numbered_in_order (pre ++ [s]) ->
  step_number s = Z.of_nat (length (pre ++ [s])).
Proof.
  unfold numbered_in_order. rewrite length_app. simpl.
  rewrite Nat.add_1_r, seq_S, !map_app. simpl.
  intros H. apply app_inj_tail in H. destruct H as [_ H].
  rewrite H. reflexivity.
Qed.

(** C1: in a plan whose steps are numbered 1..n in order, the scheduler
    emits the last step alone, as the final batch, whatever its action and
    reasoning texts say. *)
Theorem last_step_alone_in_final_batch (steps : list Step) :
  steps <> [] ->
  numbered_in_order steps ->
  exists earlier last_step,
    last steps = Some last_step
    /\ step_number last_step = Z.of_nat (length steps)
    /\ _create_execution_batches steps = earlier ++ [[last_step]].
Proof.
  intros Hne Hnum.
  destruct (exists_last Hne) as (pre & s & ->).
  pose proof (numbered_last pre s Hnum) as Hs.
  destruct (while_remaining_last (length (pre ++ [s])) (length (pre ++ [s]))
              (pre ++ [s]) pre s [] (le_n _) eq_refl) as [earlier He].
  { unfold has_dependency. rewrite Hs, Z.eqb_refl. apply orb_true_r. }
  exists earlier, s. rewrite last_snoc. auto.
Qed.

Definition plain_step (n : Z) : Step :=
  {| step_number := n; action := "Find recent papers";
     search_queries := ["recent papers"]; reasoning := "Need sources" |}.

Lemma last_step_alone_witness :
  exists earlier last_step,
    last [plain_step 1; plain_step 2; plain_step 3] = Some last_step
    /\ step_number last_step = 3%Z
    /\ _create_execution_batches [plain_step 1; plain_step 2; plain_step 3]
       = earlier ++ [[last_step]].
Proof.
  apply (last_step_alone_in_final_batch
           [plain_step 1; plain_step 2; plain_step 3]).
  - discriminate.
  - reflexivity.
Defined.

(** C2: on a non-empty step list every batch is non-empty, and the batches
    put together are the input steps, each one exactly as often as it was
    given (nothing dropped, nothing repeated). *)
Theorem batches_nonempty_and_partition (steps : list Step) :
  steps <> [] ->
  Forall (fun batch => batch <> []) (_create_execution_batches steps)
  /\ Permutation (concat (_create_execution_batches steps)) steps
  /\ _create_execution_batches steps <> [].
Proof.
  intros Hne. unfold _create_execution_batches.
  destruct (while_remaining_partition (length steps) (length steps) steps []
              (le_n _) ltac:(constructor)) as [Hb Hp].
  split; [exact Hb|]. split; [exact Hp|].
  intros Hnil. rewrite Hnil in Hp. simpl in Hp.
  apply Permutation_nil in Hp. congruence.
Qed.

Lemma batches_partition_witness :
  Forall (fun batch => batch <> [])
    (_create_execution_batches [plain_step 1; plain_step 2; plain_step 3])
  /\ Permutation
       (concat (_create_execution_batches
                  [plain_step 1; plain_step 2; plain_step 3]))
       [plain_step 1; plain_step 2; plain_step 3]
  /\ _create_execution_batches [plain_step 1; plain_step 2; plain_step 3] <> [].
Proof.
  apply (batches_nonempty_and_partition
           [plain_step 1; plain_step 2; plain_step 3]).
  discriminate.
Defined.

(** The scenario of the specification: two independent steps and a final
    step that builds on them give the batches [[1,2],[3]]. *)
Example scenario_two_then_synthesis :
  let s3 := {| step_number := 3; action := "Summarise, based on steps 1 and 2";
               search_queries := []; reasoning := "" |} in
  _create_execution_batches [plain_step 1; plain_step 2; s3]
  = [[plain_step 1; plain_step 2]; [s3]].
Proof. reflexivity. Qed.

End SchedulerFacts.

(** ** The credential pool *)

Module ApiManagerFacts.

Import ApiManager.

(** The pool over [keys] in which exactly the first [k] keys are flagged. *)
Definition flagged (k : nat) (keys : list string) : list KeyInfo :=
  imap (fun i name => {| key := name; exhausted := bool_decide (i < k) |}) keys.

Lemma flagged_length k keys : length (flagged k keys) = length keys.
Proof. apply length_imap. Qed.

Lemma flagged_lookup k keys i :
  flagged k keys !! i
  = (fun name => {| key := name; exhausted := bool_decide (i < k) |}) <$> keys !! i.
Proof. apply list_lookup_imap. Qed.

Lemma flagged_zero keys :
  flagged 0 keys = map (fun k => {| key := k; exhausted := false |}) keys.
Proof.
  apply list_eq; intros i. rewrite flagged_lookup, list_lookup_fmap.
  destruct (keys !! i); reflexivity.
Qed.

Lemma flagged_insert k keys name :
  keys !! k = Some name ->
  <[k := {| key := name; exhausted := true |}]> (flagged k keys)
  = flagged (S k) keys.
Proof.
  intros Hk. apply list_eq; intros i.
  rewrite list_lookup_insert, !flagged_lookup, flagged_length.
  pose proof (lookup_lt_Some _ _ _ Hk) as Hlt.
  case_decide as Hd.
  - destruct Hd as [<- _]. rewrite Hk. simpl.
    rewrite bool_decide_eq_true_2 by lia. reflexivity.
  - destruct (keys !! i); simpl; [|reflexivity].
    assert (i <> k) by (intros ->; apply Hd; auto).
    f_equal. f_equal. apply bool_decide_ext. lia.
Qed.

(** The rotation always ends: from [current_index] the start is at most
    [length keys] places away. *)
Lemma rotate_returns (keys : list KeyInfo) (initial_index : nat) (fuel : nat) :
  forall cur,
    cur < length keys ->
    initial_index < length keys ->
    (if decide (cur < initial_index) then initial_index - cur
     else initial_index + length keys - cur) <= fuel ->
    is_Some (rotate fuel keys initial_index cur).
Proof.
  induction fuel as [|fuel IH]; intros cur Hcur Hinit Hdist.
  - case_decide; lia.
  - cbn [rotate].
    set (next := (cur + 1) mod length keys).
    assert (next < length keys) as Hnext by (apply Nat.mod_upper_bound; lia).
    assert (next = if decide (cur + 1 < length keys) then cur + 1 else 0) as Hn.
    { subst next. destruct (decide (cur + 1 < length keys)).
      - now apply Nat.mod_small.
      - replace (cur + 1) with (length keys) by lia. apply Nat.Div0.mod_same. }
    destruct (lookup_lt_is_Some_2 keys next Hnext) as [info ->].
    destruct (next =? initial_index)%nat eqn:Heq.
    + destruct (exhausted info); eauto.
    + destruct (exhausted info); cbn [negb]; [|eauto].
      apply Nat.eqb_neq in Heq. apply IH; trivial.
      rewrite Hn in *. clear Hn.
      destruct (decide (cur + 1 < length keys));
        destruct (decide (cur < initial_index)); case_decide; lia.
Qed.

(** [mark_current_exhausted] returns or raises on every pool: the fuel of
    the model never runs out. *)
Lemma mark_current_exhausted_returns (self : GeminiAPIManager) :
  is_Some (mark_current_exhausted self).
Proof.
  unfold mark_current_exhausted.
  destruct (api_keys self !! current_index self) as [info|] eqn:Hinfo; [|eauto].
  apply lookup_lt_Some in Hinfo.
  apply rotate_returns; rewrite ?length_insert; trivial.
  case_decide; lia.
Qed.

(** A signal in a pool with an unflagged key left moves to the next key. *)
Lemma mark_moves_on k keys :
  S k < length keys ->
  mark_current_exhausted {| api_keys := flagged k keys; current_index := k |}
  = Some (Returned {| api_keys := flagged (S k) keys; current_index := S k |}).
Proof.
  intros Hlt. unfold mark_current_exhausted. cbn [api_keys current_index].
  destruct (lookup_lt_is_Some_2 keys k ltac:(lia)) as [name Hname].
  destruct (lookup_lt_is_Some_2 keys (S k) ltac:(lia)) as [name' Hname'].
  rewrite flagged_lookup, Hname. cbn [fmap option_fmap option_map key].
  rewrite (flagged_insert k keys name Hname), flagged_length.
  destruct (length keys) as [|n] eqn:Hn; [lia|]. cbn [rotate].
  rewrite flagged_length, Hn, Nat.add_1_r, (Nat.mod_small (S k)) by lia.
  rewrite flagged_lookup, Hname'. cbn [fmap option_fmap option_map exhausted].
  rewrite (proj2 (Nat.eqb_neq (S k) k)) by lia.
  rewrite bool_decide_eq_false_2 by lia. reflexivity.
Qed.

(** Scanning a pool whose keys are all flagged comes back to
    [initial_index] and raises. *)
Lemma rotate_all_flagged keys (m : nat) :
  forall fuel cur,
    cur + 1 + m = length keys - 1 ->
    m < fuel ->
    rotate fuel (flagged (length keys) keys) (length keys - 1) cur
    = Some (Raised AllKeysExhausted
              {| api_keys := flagged (length keys) keys;
                 current_index := length keys - 1 |}).
Proof.
  induction m as [|m IH]; intros fuel cur Hcur Hfuel;
    (destruct fuel as [|fuel]; [lia|]); cbn [rotate];
    rewrite flagged_length, (Nat.mod_small (cur + 1)) by lia;
    (destruct (lookup_lt_is_Some_2 keys (cur + 1) ltac:(lia)) as [name Hname]);
    rewrite flagged_lookup, Hname; cbn [fmap option_fmap option_map exhausted];
    rewrite bool_decide_eq_true_2 by lia.
  - rewrite (proj2 (Nat.eqb_eq (cur + 1) (length keys - 1))) by lia.
    replace (cur + 1) with (length keys - 1) by lia. reflexivity.
  - rewrite (proj2 (Nat.eqb_neq (cur + 1) (length keys - 1))) by lia.
    cbn [negb]. apply IH; lia.
Qed.

(** The signal that flags the last key raises. *)
Lemma mark_last_raises keys :
  keys <> [] ->
  mark_current_exhausted
    {| api_keys := flagged (length keys - 1) keys;
       current_index := length keys - 1 |}
  = Some (Raised AllKeysExhausted
            {| api_keys := flagged (length keys) keys;
               current_index := length keys - 1 |}).
Proof.
  intros Hne.
  assert (0 < length keys) as Hpos by (destruct keys; [congruence|simpl; lia]).
  unfold mark_current_exhausted. cbn [api_keys current_index].
  destruct (lookup_lt_is_Some_2 keys (length keys - 1) ltac:(lia)) as [name Hname].
  rewrite flagged_lookup, Hname. cbn [fmap option_fmap option_map key].
  rewrite (flagged_insert _ keys name Hname).
  replace (S (length keys - 1)) with (length keys) by lia.
  rewrite flagged_length.
  destruct (decide (length keys = 1)) as [H1|H1].
  - (* a single key: the first turn is back at the start *)
    rewrite H1. cbn [rotate]. rewrite flagged_length, H1. simpl.
    destruct keys as [|k0 [|k1 keys]]; simpl in H1; try lia.
    reflexivity.
  - destruct (length keys) as [|n] eqn:Hn; [lia|]. cbn [rotate].
    rewrite flagged_length, Hn.
    replace (S n - 1 + 1) with (S n) by lia. rewrite Nat.Div0.mod_same.
    destruct (lookup_lt_is_Some_2 keys 0 ltac:(lia)) as [name0 Hname0].
    rewrite flagged_lookup, Hname0. cbn [fmap option_fmap option_map exhausted].
    rewrite (proj2 (Nat.eqb_neq 0 (S n - 1))) by lia.
    rewrite bool_decide_eq_true_2 by lia. cbn [negb].
    rewrite <- Hn. apply (rotate_all_flagged keys (n - 1)); lia.
Qed.

Lemma signals_prefix keys (j : nat) :
  forall k,
    k + j < length keys ->
    rate_limit_signals j {| api_keys := flagged k keys; current_index := k |}
    = Some (Returned {| api_keys := flagged (k + j) keys;
                        current_index := k + j |}).
Proof.
  induction j as [|j IH]; intros k Hk; cbn [rate_limit_signals].
  - now rewrite Nat.add_0_r.
  - rewrite mark_moves_on by lia. rewrite IH by lia.
    now replace (S k + j) with (k + S j) by lia.
Qed.

Lemma signals_snoc (j : nat) :
  forall self self',
    rate_limit_signals j self = Some (Returned self') ->
    rate_limit_signals (S j) self = mark_current_exhausted self'.
Proof.
  induction j as [|j IH]; intros self self' H.
  - injection H as ->. cbn [rate_limit_signals].
    destruct (mark_current_exhausted self') as [[?|? ?]|]; reflexivity.
  - cbn [rate_limit_signals] in H.
    change (rate_limit_signals (S (S j)) self)
      with (match mark_current_exhausted self with
            | Some (Returned s1) => rate_limit_signals (S j) s1
            | other => other
            end).
    destruct (mark_current_exhausted self) as [[s1|? ?]|]; try discriminate.
    now apply IH.
Qed.

(** C4: a pool built from [N >= 1] keys survives [N - 1] consecutive
    rate-limit signals, after which a key is unflagged exactly when it is
    the current one; the [N]-th signal raises the all-keys-exhausted
    exception, every key being flagged by then. *)
Theorem pool_exhausted_after_N_signals (GEMINI_API_KEYS : list string) :
  GEMINI_API_KEYS <> [] ->
  exists pool survivor spent,
    GeminiAPIManager_init GEMINI_API_KEYS = Returned pool
    /\ rate_limit_signals (length GEMINI_API_KEYS - 1) pool
       = Some (Returned survivor)
    /\ length (api_keys survivor) = length GEMINI_API_KEYS
    /\ current_index survivor < length (api_keys survivor)
    /\ (forall i info,
          api_keys survivor !! i = Some info ->
          exhausted info = false <-> i = current_index survivor)
    /\ rate_limit_signals (length GEMINI_API_KEYS) pool
       = Some (Raised AllKeysExhausted spent)
    /\ Forall (fun info => exhausted info = true) (api_keys spent).
Proof.
  intros Hne. set (keys := GEMINI_API_KEYS) in *.
  assert (0 < length keys) as Hpos by (destruct keys; [congruence|simpl; lia]).
  pose proof (signals_prefix keys (length keys - 1) 0 ltac:(lia)) as Hrun.
  cbn [Nat.add] in Hrun.
  exists {| api_keys := flagged 0 keys; current_index := 0 |},
         {| api_keys := flagged (length keys - 1) keys;
            current_index := length keys - 1 |},
         {| api_keys := flagged (length keys) keys;
            current_index := length keys - 1 |}.
  cbn [api_keys current_index]. repeat split.
  - unfold GeminiAPIManager_init. cbn [api_keys]. rewrite flagged_zero.
    destruct keys; [congruence|reflexivity].
  - exact Hrun.
  - apply flagged_length.
  - rewrite flagged_length. lia.
  - rewrite flagged_lookup in H.
    destruct (keys !! i) as [name|] eqn:Hi; [|discriminate].
    injection H as <-. cbn [exhausted]. intros Hf.
    apply bool_decide_eq_false in Hf.
    apply lookup_lt_Some in Hi. lia.
  - intros ->. rewrite flagged_lookup in H.
    destruct (keys !! _) as [name|]; [|discriminate].
    injection H as <-. cbn [exhausted]. apply bool_decide_eq_false. lia.
  - replace (length keys) with (S (length keys - 1)) at 1 by lia.
    rewrite (signals_snoc _ _ _ Hrun). now apply mark_last_raises.
  - apply Forall_lookup. intros i info Hi.
    rewrite flagged_lookup in Hi.
    destruct (keys !! i) as [name|] eqn:Hk; [|discriminate].
    injection Hi as <-. cbn [exhausted]. apply bool_decide_eq_true.
    apply lookup_lt_Some in Hk. exact Hk.
Qed.

Lemma pool_of_three_witness :
  exists pool survivor spent,
    GeminiAPIManager_init ["key-a"; "key-b"; "key-c"] = Returned pool
    /\ rate_limit_signals 2 pool = Some (Returned survivor)
    /\ length (api_keys survivor) = 3
    /\ current_index survivor < length (api_keys survivor)
    /\ (forall i info,
          api_keys survivor !! i = Some info ->
          exhausted info = false <-> i = current_index survivor)
    /\ rate_limit_signals 3 pool = Some (Raised AllKeysExhausted spent)
    /\ Forall (fun info => exhausted info = true) (api_keys spent).
Proof.
  apply (pool_exhausted_after_N_signals ["key-a"; "key-b"; "key-c"]).
  discriminate.
Defined.

(** The same run, computed. *)
Example three_keys_run :
  rate_limit_signals 2
    {| api_keys := flagged 0 ["key-a"; "key-b"; "key-c"]; current_index := 0 |}
  = Some (Returned
            {| api_keys := [ {| key := "key-a"; exhausted := true |};
                             {| key := "key-b"; exhausted := true |};
                             {| key := "key-c"; exhausted := false |} ];
               current_index := 2 |})
  /\ rate_limit_signals 3
       {| api_keys := flagged 0 ["key-a"; "key-b"; "key-c"]; current_index := 0 |}
     = Some (Raised AllKeysExhausted
               {| api_keys := [ {| key := "key-a"; exhausted := true |};
                                {| key := "key-b"; exhausted := true |};
                                {| key := "key-c"; exhausted := true |} ];
                  current_index := 2 |}).
Proof. split; vm_compute; reflexivity. Qed.

End ApiManagerFacts.

(** ** The quality-convergence loop *)

Module StepLoopFacts.

Import Scheduler StepLoop.

(** The iteration numbers announced in the output, in order. *)
Definition banners (out : list Message) : list nat :=
  omap (fun m => match m with IterationBanner k => Some k | _ => None end) out.

Lemma banners_app out1 out2 : banners (out1 ++ out2) = banners out1 ++ banners out2.
Proof. apply omap_app. Qed.

Lemma banner_in out k : IterationBanner k ∈ out -> k ∈ banners out.
Proof.
  intros H. unfold banners. apply list_elem_of_omap.
  exists (IterationBanner k). auto.
Qed.

(** Messages that carry no iteration number. *)
Definition plain (m : Message) : Prop :=
  match m with
  | IterationBanner _ | NoFactsCollected _ => False
  | _ => True
  end.

Lemma plain_banners msgs : Forall plain msgs -> banners msgs = [].
Proof.
  induction 1 as [|m msgs Hm _ IH]; [reflexivity|].
  destruct m; simpl in *; tauto.
Qed.


Section Body.

Variables (w : World) (step : Step) (step_facts_start : nat).

(** What a pass that ends at [Next] has done: it recorded one score, and
    either no fact was there, or the evaluation ran and, from the second
    iteration on, improved on the previous score by 0.05 at least. *)
Definition next_post (i : nat) (st st' : State) (announced : list Message)
  : Prop :=
  iteration st' = i
  /\ quality_met st' = quality_met st
  /\ exists score,
       quality_scores st' = quality_scores st ++ [score]
       /\ (output st' = output st ++ announced ++ [NoFactsCollected i]
           \/ (output st' = output st ++ announced
               /\ (i <= 1
                   \/ exists previous,
                        second_to_last (quality_scores st') = Some previous
                        /\ PrimFloat.ltb (PrimFloat.sub score previous)
                             0.05%float = false))).

(** What a pass that leaves the loop has done. *)
Definition stop_post (i : nat) (st st' : State) (announced : list Message)
  : Prop :=
  iteration st' = i
  /\ (exists msgs, output st' = output st ++ announced ++ msgs
                   /\ Forall plain msgs)
  /\ (quality_scores st' = quality_scores st
      \/ exists score, quality_scores st' = quality_scores st ++ [score]).

Definition flow_post (i : nat) (st : State) (announced : list Message)
    (f : Flow) : Prop :=
  match f with
  | Next st' => next_post i st st' announced
  | Break st' | Crash st' => stop_post i st st' announced
  end.

Lemma search_and_evaluate_post (queries : list string) (st : State) :
  flow_post (iteration st) st []
    (search_and_evaluate w step step_facts_start queries st).
Proof.
  unfold search_and_evaluate.
  destruct (is_nil (take max_queries_per_step queries)).
  { repeat split; [exists []; rewrite !app_nil_r; auto | auto]. }
  unfold execute_queries.
  destruct (run_queries w (iteration st) _) as [facts sources].
  cbn [all_collected_facts step_sources iteration].
  destruct (is_nil (drop step_facts_start _)).
  { repeat split. exists 0%float. split; [reflexivity|]. left. reflexivity. }
  set (ev := evaluate_research_quality w _ _ _ _).
  destruct (threshold_met ev).
  { repeat split; cbn [output quality_scores evaluated print set_quality_met].
    - exists [ThresholdMet]. split; [reflexivity|]. repeat constructor.
    - right. eexists. reflexivity. }
  cbn [iteration evaluated quality_scores].
  destruct (1 <? iteration st)%nat eqn:Hit.
  - destruct (second_to_last _) as [previous|] eqn:Hprev.
    + destruct (PrimFloat.ltb _ _) eqn:Hlt.
      * repeat split; cbn [output quality_scores evaluated print].
        -- exists [DiminishingReturns]. split; [reflexivity|]. repeat constructor.
        -- right. eexists. reflexivity.
      * repeat split. exists (overall_score ev). split; [reflexivity|].
        right. cbn [output evaluated]. split; [now rewrite app_nil_r|].
        right. exists previous. split; [exact Hprev|exact Hlt].
    + repeat split; cbn [output quality_scores evaluated].
      * exists []. rewrite !app_nil_r. auto.
      * right. eexists. reflexivity.
  - apply Nat.ltb_ge in Hit.
    repeat split. exists (overall_score ev). split; [reflexivity|].
    right. cbn [output evaluated]. split; [now rewrite app_nil_r|]. now left.
Qed.

Lemma flow_post_begin (st : State) (f : Flow) :
  flow_post (S (iteration st)) (begin_iteration st) [] f ->
  flow_post (S (iteration st)) st [IterationBanner (S (iteration st))] f.
Proof.
  destruct f as [st'|st'|st']; cbn [flow_post]; unfold next_post, stop_post;
    cbn [begin_iteration iteration quality_met quality_scores output].
  - intros (Hi & Hq & score & Hs & Ho). repeat split; trivial.
    exists score. split; [exact Hs|].
    destruct Ho as [Ho|[Ho Hrest]]; [left|right; split; trivial];
      rewrite Ho, <- app_assoc; reflexivity.
  - intros (Hi & (msgs & Ho & Hp) & Hs). repeat split; trivial.
    exists msgs. rewrite Ho, <- app_assoc. auto.
  - intros (Hi & (msgs & Ho & Hp) & Hs). repeat split; trivial.
    exists msgs. rewrite Ho, <- app_assoc. auto.
Qed.

Lemma loop_body_post (st : State) :
  flow_post (S (iteration st)) st [IterationBanner (S (iteration st))]
    (loop_body w step step_facts_start st).
Proof.
  apply flow_post_begin. unfold loop_body.
  pose proof (search_and_evaluate_post (search_queries step) (begin_iteration st))
    as Hfirst.
  destruct (iteration (begin_iteration st) =? 1)%nat; [exact Hfirst|].
  destruct (last_evaluation (begin_iteration st)) as [last|].
  - destruct (is_nil (missing_aspects last)).
    + repeat split; cbn [output print quality_scores]; [|auto].
      exists [NoMissingAspects]. split; [reflexivity|]. repeat constructor.
    + destruct (is_nil (identify_knowledge_gaps _ _ _ _ _ _)).
      * repeat split; cbn [output print quality_scores]; [|auto].
        exists [NoRefinedQueries]. split; [reflexivity|]. repeat constructor.
      * apply search_and_evaluate_post.
  - repeat split; [|auto]. exists []. rewrite !app_nil_r. auto.
Qed.

(** A score that fell short of the previous one by less than 0.05 after
    an evaluation: no iteration the loop went past has this shape. *)
Definition stalled (st : State) (k : nat) : Prop :=
  exists previous current,
    2 <= k
    /\ quality_scores st !! (k - 2) = Some previous
    /\ quality_scores st !! (k - 1) = Some current
    /\ (NoFactsCollected k ∉ output st)
    /\ PrimFloat.ltb (PrimFloat.sub current previous) 0.05%float = true.

(** The invariant at the head of the loop. *)
Definition loop_inv (st : State) : Prop :=
  iteration st <= max_iterations_per_step
  /\ banners (output st) = seq 1 (iteration st)
  /\ length (quality_scores st) = iteration st
  /\ forall k, ~ stalled st k.

(** What holds when the loop is left. *)
Definition loop_post (st : State) : Prop :=
  iteration st <= max_iterations_per_step
  /\ banners (output st) = seq 1 (iteration st)
  /\ length (quality_scores st) <= iteration st
  /\ forall k, stalled st k -> iteration st = k.

Lemma loop_inv_post (st : State) : loop_inv st -> loop_post st.
Proof.
  intros (Hmax & Hban & Hlen & Hno). repeat split; trivial; [lia|].
  intros k Hk. destruct (Hno k Hk).
Qed.

Lemma loop_inv_next (st st' : State) :
  loop_inv st ->
  iteration st < max_iterations_per_step ->
  next_post (S (iteration st)) st st' [IterationBanner (S (iteration st))] ->
  loop_inv st'.
Proof.
  intros (Hmax & Hban & Hlen & Hno) Hlt (Hi & _ & score & Hs & Hout).
  assert (Hpre : exists tail, output st'
            = output st ++ [IterationBanner (S (iteration st))] ++ tail
            /\ Forall (fun m => m = NoFactsCollected (S (iteration st))) tail).
  { destruct Hout as [Ho|[Ho _]]; rewrite Ho.
    - exists [NoFactsCollected (S (iteration st))]. auto.
    - exists []. now rewrite app_nil_r. }
  destruct Hpre as (tail & Ho & Htail).
  repeat split.
  - rewrite Hi. lia.
  - rewrite Ho, Hi, !banners_app, Hban, seq_S. simpl. f_equal.
    replace (banners tail) with (@nil nat); [reflexivity|].
    clear Ho. induction Htail as [|m tail -> _ IH]; [reflexivity|exact IH].
  - rewrite Hs, length_app, Hi. simpl. lia.
  - intros k (previous & current & Hk & Hp & Hc & Hnf & Hstall).
    rewrite Hs in Hp, Hc.
    pose proof (lookup_lt_Some _ _ _ Hc) as Hb.
    rewrite length_app in Hb. simpl in Hb.
    destruct (decide (k = S (iteration st))) as [->|Hne].
    + (* the iteration just run *)
      destruct Hout as [Ho'|[_ [Hone|(prev' & Hprev & Hok)]]].
      * apply Hnf. rewrite Ho', !elem_of_app, !list_elem_of_singleton. auto.
      * lia.
      * unfold second_to_last in Hprev. rewrite Hs, length_app in Hprev.
        simpl in Hprev.
        destruct (length (quality_scores st) + 1 <? 2)%nat; [discriminate|].
        replace (length (quality_scores st) + 1 - 2)
          with (S (iteration st) - 2) in Hprev by lia.
        rewrite Hp in Hprev. injection Hprev as <-.
        rewrite lookup_app_r in Hc by lia.
        replace (S (iteration st) - 1 - length (quality_scores st))
          with 0 in Hc by lia.
        injection Hc as <-. congruence.
    + (* an earlier iteration *)
      apply (Hno k). exists previous, current.
      rewrite lookup_app_l in Hp by lia. rewrite lookup_app_l in Hc by lia.
      repeat split; trivial.
      intros Hin. apply Hnf. rewrite Ho, elem_of_app. auto.
Qed.

Lemma loop_inv_stop (st st' : State) :
  loop_inv st ->
  iteration st < max_iterations_per_step ->
  stop_post (S (iteration st)) st st' [IterationBanner (S (iteration st))] ->
  loop_post st'.
Proof.
  intros (Hmax & Hban & Hlen & Hno) Hlt (Hi & (msgs & Ho & Hplain) & Hs).
  repeat split.
  - rewrite Hi. lia.
  - rewrite Ho, Hi, !banners_app, Hban, seq_S, (plain_banners msgs Hplain).
    reflexivity.
  - destruct Hs as [Hs|[score Hs]]; rewrite Hs, ?length_app; simpl; lia.
  - intros k (previous & current & Hk & Hp & Hc & Hnf & Hstall).
    rewrite Hi.
    destruct (decide (k = S (iteration st))) as [->|Hne]; [reflexivity|].
    exfalso.
    assert (k - 1 < iteration st) as Hb.
    { pose proof (lookup_lt_Some _ _ _ Hc) as Hb.
      destruct Hs as [Hs|[score Hs]]; rewrite Hs, ?length_app in Hb;
        simpl in Hb; lia. }
    apply (Hno k). exists previous, current.
    assert (forall j, j < iteration st ->
               quality_scores st' !! j = quality_scores st !! j) as Hsame.
    { intros j Hj. destruct Hs as [Hs|[score Hs]]; rewrite Hs; trivial.
      apply lookup_app_l. lia. }
    rewrite Hsame in Hp by lia. rewrite Hsame in Hc by lia.
    repeat split; trivial.
    intros Hin. apply Hnf. rewrite Ho, elem_of_app. auto.
Qed.

(** The loop ends within the fuel that remains up to the iteration cap,
    in a state that satisfies [loop_post]. *)
Lemma while_loop_post (fuel : nat) :
  forall st,
    loop_inv st ->
    max_iterations_per_step <= iteration st + fuel ->
    exists e, while_loop fuel w step step_facts_start st = Some e
              /\ loop_post (final_state e).
Proof.
  induction fuel as [|fuel IH]; intros st Hinv Hfuel; cbn [while_loop].
  - replace (iteration st <? max_iterations_per_step)%nat with false
      by (symmetry; apply Nat.ltb_ge; lia).
    exists (Finished st). split; [reflexivity|now apply loop_inv_post].
  - destruct (iteration st <? max_iterations_per_step)%nat eqn:Hlt;
      cbn [andb]; [|exists (Finished st); split;
                     [reflexivity|now apply loop_inv_post]].
    destruct (quality_met st); cbn [negb];
      [exists (Finished st); split; [reflexivity|now apply loop_inv_post]|].
    apply Nat.ltb_lt in Hlt.
    pose proof (loop_body_post st) as Hbody.
    destruct (loop_body w step step_facts_start st) as [st'|st'|st'];
      cbn [flow_post] in Hbody.
    + apply IH; [now apply (loop_inv_next st)|].
      destruct Hbody as [-> _]. lia.
    + exists (Finished st'). split; [reflexivity|now apply (loop_inv_stop st)].
    + exists (Failed st'). split; [reflexivity|now apply (loop_inv_stop st)].
Qed.

End Body.

Lemma initial_state_inv (facts : list Fact) : loop_inv (initial_state facts).
Proof.
  repeat split; cbn; try lia.
  intros k (previous & current & _ & Hp & _). discriminate Hp.
Qed.

(** [_execute_step] always leaves its loop, in a state satisfying
    [loop_post]. *)
Lemma _execute_step_post (w : World) (step : Step) (facts : list Fact) :
  exists e, _execute_step w step facts = Some e /\ loop_post (final_state e).
Proof.
  apply while_loop_post; [apply initial_state_inv|]. cbn. lia.
Qed.

(** C3: whatever the evaluations, the facts collected and the refined
    queries are, [_execute_step] leaves its loop with the iteration counter
    at 3 at most ([max_iterations_per_step = 3]); the iterations announced
    are 1, 2, ... up to the counter, so none beyond the third is started. *)
Theorem at_most_three_iterations (w : World) (step : Step) (facts : list Fact) :
  max_iterations_per_step = 3
  /\ exists e,
       _execute_step w step facts = Some e
       /\ iteration (final_state e) <= 3
       /\ banners (output (final_state e)) = seq 1 (iteration (final_state e))
       /\ length (banners (output (final_state e))) <= 3
       /\ length (quality_scores (final_state e)) <= 3
       /\ (forall k, IterationBanner k ∈ output (final_state e) -> 1 <= k <= 3).
Proof.
  split; [reflexivity|].
  destruct (_execute_step_post w step facts) as (e & He & Hmax & Hban & Hlen & _).
  change max_iterations_per_step with 3 in Hmax.
  exists e. repeat split; trivial; try lia.
  - rewrite Hban, length_seq. exact Hmax.
  - apply banner_in in H. rewrite Hban in H. apply elem_of_seq in H. lia.
  - apply banner_in in H. rewrite Hban in H. apply elem_of_seq in H. lia.
Qed.

(** A world in which no page yields a fact, while the query refiner keeps
    proposing a new query. *)
Definition barren_world : World :=
  {| run_queries := fun _ _ => ([], []);
     evaluate_research_quality := fun _ _ _ _ =>
       {| overall_score := 0.5%float; threshold_met := false;
          missing_aspects := ["unused"] |};
     identify_knowledge_gaps := fun _ _ _ _ _ => ["another query"] |}.

Definition survey_step : Step :=
  {| step_number := 1; action := "Survey the field";
     search_queries := ["survey"]; reasoning := "Background" |}.


Section ZeroFacts.

Variables (w : World) (step : Step) (step_facts_start : nat).









End ZeroFacts.







(** The scenario of the specification: a first iteration without any fact
    records 0.0 and the loop proceeds to iteration 2. *)
Example zero_facts_then_second_iteration :
  match loop_body barren_world survey_step 0 (initial_state []) with
  | Next st => quality_scores st = [0%float] /\ iteration st = 1
               /\ last_evaluation st = Some no_data_evaluation
  | _ => False
  end.
Proof. vm_compute. auto. Qed.

End StepLoopFacts.

(** ** The global sufficiency check *)

Module SanityCheckFacts.

Import PyStr SanityCheck.

Definition searches (log : list Call) : list (string * nat) :=
  omap (fun c => match c with Search q n => Some (q, n) | _ => None end) log.

Definition fetches (log : list Call) : list string :=
  omap (fun c => match c with Fetch u _ => Some u | _ => None end) log.

Definition judgements (log : list Call) : nat :=
  length (List.filter (fun c => match c with Judge => true | _ => false end) log).

(** Calls made while a search result is processed. *)
Definition page_call (c : Call) : Prop :=
  match c with
  | Fetch _ timeout => timeout = 7%Z
  | Extract _ => True
  | _ => False
  end.

Lemma page_calls_searches log : Forall page_call log -> searches log = [].
Proof.
  induction 1 as [|c log Hc _ IH]; [reflexivity|].
  destruct c; simpl in *; tauto.
Qed.

Lemma page_calls_judgements log : Forall page_call log -> judgements log = 0.
Proof.
  unfold judgements. induction 1 as [|c log Hc _ IH]; [reflexivity|].
  destruct c; simpl in *; tauto.
Qed.

Lemma omap_length_le {A B} (f : A -> option B) (l : list A) :
  length (omap f l) <= length l.
Proof.
  induction l as [|x l IH]; [reflexivity|]. cbn [omap list_omap].
  destruct (f x); simpl; lia.
Qed.

Lemma judgements_app l1 l2 : judgements (l1 ++ l2) = judgements l1 + judgements l2.
Proof. unfold judgements. now rewrite List.filter_app, length_app. Qed.

(** The facts a complete pass over [results] collects. *)
Fixpoint harvested (w : World) (user_prompt : string) (idx : nat)
    (results : list SearchResult) : list Fact :=
  match results with
  | [] => []
  | result :: rest =>
      match result_url result with
      | Some u =>
          match scrape_with_timeout w idx u 7 with
          | Some content =>
              if truthy content
              then extract_key_info w idx user_prompt content u
              else []
          | None => []
          end
      | None => []
      end ++ harvested w user_prompt (S idx) rest
  end.

Lemma rescue_one_post (w : World) (user_prompt : string) (idx : nat)
    (u : string) (st : State) :
  exists tail facts,
    calls (rescue_one w user_prompt idx u st) = calls st ++ Fetch u 7 :: tail
    /\ Forall page_call tail
    /\ fetches tail = []
    /\ all_collected_facts (rescue_one w user_prompt idx u st)
       = all_collected_facts st ++ facts
    /\ facts = match scrape_with_timeout w idx u 7 with
               | Some content =>
                   if truthy content
                   then extract_key_info w idx user_prompt content u
                   else []
               | None => []
               end
    /\ rescue_queries (rescue_one w user_prompt idx u st) = rescue_queries st.
Proof.
  unfold rescue_one.
  destruct (scrape_with_timeout w idx u 7) as [content|];
    [destruct (truthy content)|].
  - exists [Extract u], (extract_key_info w idx user_prompt content u).
    cbn [calls all_collected_facts rescue_queries extend call].
    rewrite <- app_assoc. repeat split. repeat constructor.
  - exists [], []. cbn. rewrite app_nil_r. repeat split. constructor.
  - exists [], []. cbn. rewrite app_nil_r. repeat split. constructor.
Qed.

(** The rescue loop only fetches and extracts: one fetch per result, in
    the order of the results, each fact it finds appended. *)
Lemma rescue_fetches_post (w : World) (user_prompt : string)
    (results : list SearchResult) :
  forall idx st,
    exists tail facts,
      calls (final_state (rescue_fetches w user_prompt idx results st))
      = calls st ++ tail
      /\ Forall page_call tail
      /\ fetches tail `prefix_of` omap result_url results
      /\ all_collected_facts
           (final_state (rescue_fetches w user_prompt idx results st))
         = all_collected_facts st ++ facts
      /\ rescue_queries (final_state (rescue_fetches w user_prompt idx results st))
         = rescue_queries st
      /\ (forall st', rescue_fetches w user_prompt idx results st = Finished st' ->
            facts = harvested w user_prompt idx results
            /\ fetches tail = omap result_url results).
Proof.
  induction results as [|result rest IH]; intros idx st; cbn [rescue_fetches].
  - exists [], []. cbn. rewrite !app_nil_r.
    split; [reflexivity|]. split; [constructor|]. split; [apply prefix_nil|].
    auto.
  - cbn [harvested omap list_omap]. destruct (result_url result) as [u|].
    + destruct (rescue_one_post w user_prompt idx u st)
        as (t1 & f1 & Hc1 & Hp1 & Hf1 & Ha1 & Hfacts & Hr1).
      destruct (IH (S idx) (rescue_one w user_prompt idx u st))
        as (t2 & f2 & Hc2 & Hp2 & Hf2 & Ha2 & Hr2 & Hfin).
      exists (Fetch u 7 :: t1 ++ t2), (f1 ++ f2).
      rewrite Hc2, Hc1, Ha2, Ha1, Hr2, Hr1, <- !app_assoc.
      assert (fetches (Fetch u 7 :: t1 ++ t2) = u :: fetches t2) as Hfe.
      { unfold fetches in *. cbn [omap list_omap]. rewrite omap_app, Hf1.
        reflexivity. }
      repeat split.
      * constructor; [reflexivity|]. apply Forall_app. auto.
      * rewrite Hfe. now apply prefix_cons.
      * destruct (Hfin st' H) as [-> _]. now rewrite Hfacts.
      * destruct (Hfin st' H) as [_ Hall]. now rewrite Hfe, Hall.
    + exists [], []. cbn. rewrite !app_nil_r. repeat split.
      * constructor.
      * apply prefix_nil.
      * discriminate.
      * discriminate.
Qed.

(** The results the rescue loop gets to: those before the first result
    without a URL, at which the fetcher raises. *)
Fixpoint reached (results : list SearchResult) : list SearchResult :=
  match results with
  | [] => []
  | result :: rest =>
      match result_url result with
      | Some _ => result :: reached rest
      | None => []
      end
  end.

Lemma reached_prefix (results : list SearchResult) :
  reached results `prefix_of` results.
Proof.
  induction results as [|result rest IH]; cbn [reached]; [reflexivity|].
  destruct (result_url result); [now apply prefix_cons|apply prefix_nil].
Qed.

(** The rescue loop fetches every result it gets to, in order, appends
    exactly the facts of those pages, and ends normally exactly when it
    got to all of them. *)
Lemma rescue_fetches_exact (w : World) (user_prompt : string)
    (results : list SearchResult) :
  forall idx st,
    let e := rescue_fetches w user_prompt idx results st in
    (exists tail,
        calls (final_state e) = calls st ++ tail
        /\ Forall page_call tail
        /\ fetches tail = omap result_url (reached results))
    /\ all_collected_facts (final_state e)
       = all_collected_facts st
         ++ harvested w user_prompt idx (reached results)
    /\ rescue_queries (final_state e) = rescue_queries st
    /\ (reached results = results -> e = Finished (final_state e))
    /\ (reached results <> results -> e = Failed (final_state e)).
Proof.
  induction results as [|result rest IH]; intros idx st;
    cbn [rescue_fetches reached].
  - cbn [final_state harvested omap list_omap]. rewrite app_nil_r.
    split; [exists []; rewrite app_nil_r; repeat split; constructor|].
    split; [reflexivity|]. split; [reflexivity|].
    split; [reflexivity|congruence].
  - destruct (result_url result) as [u|] eqn:Hurl.
    + destruct (rescue_one_post w user_prompt idx u st)
        as (t1 & f1 & Hc1 & Hp1 & Hf1 & Ha1 & Hfacts & Hr1).
      destruct (IH (S idx) (rescue_one w user_prompt idx u st))
        as ((t2 & Hc2 & Hp2 & Hf2) & Ha2 & Hr2 & Hfin & Hfail).
      cbn zeta in *.
      split; [|split; [|split; [|split]]].
      * exists (Fetch u 7 :: t1 ++ t2). rewrite Hc2, Hc1, <- app_assoc.
        split; [reflexivity|]. split.
        -- constructor; [reflexivity|]. apply Forall_app. auto.
        -- cbn [omap list_omap]. rewrite Hurl. unfold fetches in *.
           cbn [omap list_omap]. rewrite omap_app, Hf1, Hf2. reflexivity.
      * rewrite Ha2, Ha1, <- app_assoc. cbn [harvested]. rewrite Hurl, Hfacts.
        reflexivity.
      * now rewrite Hr2, Hr1.
      * intros Hall. apply Hfin. now injection Hall.
      * intros Hnot. apply Hfail. congruence.
    + cbn [final_state harvested omap list_omap]. rewrite app_nil_r.
      split; [exists []; rewrite app_nil_r; repeat split; constructor|].
      split; [reflexivity|]. split; [reflexivity|].
      split; [discriminate|reflexivity].
Qed.

(** A judge that reports a gap and hands back an empty rescue query. *)
Definition empty_query_world : World :=
  {| check_global_sufficiency := fun _ _ =>
       {| pass := false; rescue_query := Some ""; reason := "gap" |};
     search := fun _ _ =>
       [{| title := Some "t"; link := Some "https://example.org/"; url := None |}];
     scrape_with_timeout := fun _ _ _ => Some "page text";
     extract_key_info := fun _ _ _ u =>
       [{| StepLoop.fact := "found"; StepLoop.source := u |}] |}.

Definition fresh_state (facts : list Fact) : State :=
  {| all_collected_facts := facts; rescue_queries := 0; calls := [] |}.

(** C9, as stated, fails for a rescue query that is present but empty:
    [if rescue_query:] tests the truth value, so no search is made. *)
Lemma empty_rescue_query_is_skipped :
  pass (check_global_sufficiency empty_query_world "question" []) = false
  /\ rescue_query (check_global_sufficiency empty_query_world "question" [])
     = Some ""
  /\ _perform_sanity_check empty_query_world "question" (fresh_state [])
     = Finished {| all_collected_facts := []; rescue_queries := 0;
                   calls := [Judge] |}
  /\ searches (calls (final_state
       (_perform_sanity_check empty_query_world "question" (fresh_state []))))
     = [].
Proof. repeat split. Qed.

(** C9, amended: when the verdict has [pass] false and a rescue query that
    is neither absent nor empty, the check makes exactly one search, for
    that query and 3 results, records one rescue query, and asks for no
    second verdict.  It fetches the first 2 results in order (timeout 7),
    each one it gets to: all of them, or those before the first one
    without a URL, where the fetcher raises and the check ends.  The
    facts extracted from exactly those pages are appended to the shared
    list, in order, and nothing else is. *)
Theorem one_rescue_search_when_query_given
    (w : World) (user_prompt query : string) (facts : list Fact) :
  pass (check_global_sufficiency w user_prompt facts) = false ->
  rescue_query (check_global_sufficiency w user_prompt facts) = Some query ->
  query <> "" ->
  let e := _perform_sanity_check w user_prompt (fresh_state facts) in
  let results := take 2 (search w query 3) in
  searches (calls (final_state e)) = [(query, 3)]
  /\ judgements (calls (final_state e)) = 1
  /\ rescue_queries (final_state e) = 1
  /\ length (fetches (calls (final_state e))) <= 2
  /\ fetches (calls (final_state e)) = omap result_url (reached results)
  /\ fetches (calls (final_state e)) `prefix_of` omap result_url results
  /\ (exists page_calls,
        calls (final_state e) = Judge :: Search query 3 :: page_calls
        /\ Forall page_call page_calls)
  /\ all_collected_facts (final_state e)
     = facts ++ harvested w user_prompt 0 (reached results)
  /\ (reached results = results -> e = Finished (final_state e))
  /\ (reached results <> results -> e = Failed (final_state e)).
Proof.
  intros Hpass Hquery Hne e results. subst e results.
  unfold _perform_sanity_check.
  cbn [fresh_state all_collected_facts]. rewrite Hpass, Hquery.
  destruct query as [|ch rest]; [congruence|]. cbn [truthy_opt truthy].
  set (q := String ch rest).
  set (st := call (Search q 3) (record_rescue_query (call Judge (fresh_state facts)))).
  destruct (rescue_fetches_exact w user_prompt (take 2 (search w q 3)) 0 st)
    as ((tail & Hc & Hp & Hfe) & Ha & Hr & Hfin & Hfail).
  cbn zeta in *.
  rewrite Hc, Ha, Hr. cbn [st calls call record_rescue_query fresh_state
    all_collected_facts rescue_queries app].
  assert (fetches tail `prefix_of` omap result_url (take 2 (search w q 3)))
    as Hpre.
  { rewrite Hfe. unfold omap.
    destruct (reached_prefix (take 2 (search w q 3))) as [more Hmore].
    rewrite Hmore at 2. rewrite omap_app. now apply prefix_app_r. }
  assert (length (fetches tail) <= 2) as Hlen.
  { apply prefix_length in Hpre. etransitivity; [exact Hpre|].
    etransitivity; [apply omap_length_le|]. rewrite length_take. lia. }
  assert (fetches (Judge :: Search q 3 :: tail) = fetches tail) as ->
    by reflexivity.
  split.
  { unfold searches. cbn [omap list_omap]. fold (searches tail).
    now rewrite (page_calls_searches tail Hp). }
  split.
  { change (Judge :: Search q 3 :: tail) with ([Judge; Search q 3] ++ tail).
    rewrite judgements_app, (page_calls_judgements tail Hp). reflexivity. }
  split; [reflexivity|]. split; [exact Hlen|]. split; [exact Hfe|].
  split; [exact Hpre|]. split; [exists tail; auto|].
  split; [reflexivity|]. split; [exact Hfin|exact Hfail].
Qed.

(** A judge that reports a gap and names a query; the search returns three
    results, every page yields one fact. *)
Definition gap_world : World :=
  {| check_global_sufficiency := fun _ _ =>
       {| pass := false; rescue_query := Some "rent in Seattle";
          reason := "no rent figure for Seattle" |};
     search := fun _ _ =>
       [ {| title := Some "a"; link := Some "https://example.org/a"; url := None |};
         {| title := Some "b"; link := Some "https://example.org/b"; url := None |};
         {| title := Some "c"; link := Some "https://example.org/c"; url := None |} ];
     scrape_with_timeout := fun _ _ _ => Some "page text";
     extract_key_info := fun _ _ _ u =>
       [{| StepLoop.fact := "found"; StepLoop.source := u |}] |}.

Lemma one_rescue_search_witness :
  let e := _perform_sanity_check gap_world "question" (fresh_state []) in
  let results := take 2 (search gap_world "rent in Seattle" 3) in
  searches (calls (final_state e)) = [("rent in Seattle", 3)]
  /\ judgements (calls (final_state e)) = 1
  /\ rescue_queries (final_state e) = 1
  /\ length (fetches (calls (final_state e))) <= 2
  /\ fetches (calls (final_state e)) = omap result_url (reached results)
  /\ fetches (calls (final_state e)) `prefix_of` omap result_url results
  /\ (exists page_calls,
        calls (final_state e) = Judge :: Search "rent in Seattle" 3 :: page_calls
        /\ Forall page_call page_calls)
  /\ all_collected_facts (final_state e)
     = [] ++ harvested gap_world "question" 0 (reached results)
  /\ (reached results = results -> e = Finished (final_state e))
  /\ (reached results <> results -> e = Failed (final_state e)).
Proof.
  apply (one_rescue_search_when_query_given gap_world "question"
           "rent in Seattle" []).
  - reflexivity.
  - reflexivity.
  - discriminate.
Defined.

Example rescue_run :
  _perform_sanity_check gap_world "question" (fresh_state [])
  = Finished
      {| all_collected_facts :=
           [ {| StepLoop.fact := "found"; StepLoop.source := "https://example.org/a" |};
             {| StepLoop.fact := "found"; StepLoop.source := "https://example.org/b" |} ];
         rescue_queries := 1;
         calls := [ Judge; Search "rent in Seattle" 3;
                    Fetch "https://example.org/a" 7; Extract "https://example.org/a";
                    Fetch "https://example.org/b" 7; Extract "https://example.org/b" ] |}.
Proof. reflexivity. Qed.

(** The first result has no URL: the check raises right after the search,
    having fetched nothing; the second result is never looked at. *)
Definition no_url_world : World :=
  {| check_global_sufficiency := fun _ _ =>
       {| pass := false; rescue_query := Some "rent in Seattle";
          reason := "no rent figure for Seattle" |};
     search := fun _ _ =>
       [ {| title := Some "a"; link := None; url := None |};
         {| title := Some "b"; link := Some "https://example.org/b"; url := None |} ];
     scrape_with_timeout := fun _ _ _ => Some "page text";
     extract_key_info := fun _ _ _ u =>
       [{| StepLoop.fact := "found"; StepLoop.source := u |}] |}.

Example rescue_run_without_url :
  _perform_sanity_check no_url_world "question" (fresh_state [])
  = Failed {| all_collected_facts := []; rescue_queries := 1;
              calls := [Judge; Search "rent in Seattle" 3] |}.
Proof. reflexivity. Qed.

End SanityCheckFacts.

(** ** The checkpoint store *)

Module CheckpointFacts.

Import Checkpoint.

Lemma json_to_url_to_json (u : option string) : json_to_url (url_to_json u) = Some u.
Proof. destruct u; reflexivity. Qed.

Lemma mapM_urls (l : list (option string)) :
  mapM json_to_url (map url_to_json l) = Some l.
Proof.
  apply mapM_Some. induction l as [|u l IH]; constructor.
  - apply json_to_url_to_json.
  - exact IH.
Qed.

(** What [_save_checkpoint] writes, [_load_checkpoint] reads back. *)
Lemma load_save (self : ResearchSystem) (timestamp user_prompt : string)
    (research_plan : json) (current_step : Z) :
  _load_checkpoint new_system
    (_save_checkpoint self timestamp user_prompt research_plan current_step)
  = Some self.
Proof.
  unfold _load_checkpoint, _save_checkpoint, save, load, with_stamp,
    checkpoint_state.
  cbn [dict_set dict_get get_list String.eqb Ascii.eqb Bool.eqb].
  cbn [mbind option_bind]. rewrite mapM_urls. cbn [mbind option_bind].
  rewrite list_to_set_elements_L. destruct self; reflexivity.
Qed.

(** C8: a checkpoint saved from any pipeline state and loaded back into a
    new system restores a fact list equal to the saved one and a scraped-URL
    set equal to the saved one. *)
Theorem load_after_save_restores_accumulators
    (self : ResearchSystem) (timestamp user_prompt : string)
    (research_plan : json) (current_step : Z) :
  exists restored,
    _load_checkpoint new_system
      (_save_checkpoint self timestamp user_prompt research_plan current_step)
    = Some restored
    /\ all_collected_facts restored = all_collected_facts self
    /\ scraped_urls restored = scraped_urls self.
Proof.
  exists self. split; [apply load_save|]. split; reflexivity.
Qed.

(** A run with two facts and three URLs, one of them [None]. *)
Example checkpoint_round_trip :
  let self :=
    {| all_collected_facts :=
         [ JDict [("fact", JStr "Rent is 1600"); ("source", JStr "https://a.org")];
           JDict [("fact", JStr "Salary is 110000"); ("source", JStr "https://b.org")] ];
       scraped_urls := {[ Some "https://a.org"; Some "https://b.org"; None ]} |} in
  _load_checkpoint new_system
    (_save_checkpoint self "2025-01-01T00:00:00" "question" (JDict []) 2)
  = Some self.
Proof. cbv zeta. apply load_save. Qed.

(** Without a checkpoint file the system is left as it is. *)
Example load_without_file (self : ResearchSystem) :
  _load_checkpoint self (clear (_save_checkpoint self "t" "q" JNull 0)) = Some self.
Proof. reflexivity. Qed.

End CheckpointFacts.

(** ** The cache store *)

Module SourceCacheFacts.

Import PyStr PyStrFacts SourceCacheM ProcessUrl.

Local Open Scope Z_scope.

Lemma cache_worthy_domains_lowercase :
  Forall (fun d => lower d = d) cache_worthy_domains.
Proof. repeat constructor. Qed.

Lemma truthy_false_iff (s : string) : truthy s = false <-> s = "".
Proof. destruct s; simpl; split; congruence. Qed.


Lemma put_nonempty (now : Z) (u content : string) (c : SourceCache) :
  content <> "" ->
  let key := _get_cache_key u in
  let c' := put now u content c in
  cache_index c' !! key
    = Some {| url := u; timestamp := IsoTime now;
              size_bytes := String.length content |}
  /\ cache_files c' !! key = Some content
  /\ index_file c' = Some (cache_index c').
Proof.
  intros Hne. unfold put.
  destruct content as [|ch rest]; [congruence|]. cbn [truthy negb].
  cbn [cache_index cache_files index_file].
  rewrite !lookup_insert_eq. auto.
Qed.




(** C7: an index record whose timestamp lies more than the TTL before the
    clock reading makes [get] answer [None], whether or not the content
    file is still there; the lookup counts a miss, deletes the record from
    the index (and from the saved index) and deletes the content file. *)
Theorem get_expired_returns_none_and_evicts
    (c : SourceCache) (now : Z) (u : string) (entry : IndexEntry) (t : Z) :
  cache_index c !! _get_cache_key u = Some entry ->
  timestamp entry = IsoTime t ->
  now - t > cache_ttl c ->
  (get now u c).1 = None
  /\ cache_index (get now u c).2 !! _get_cache_key u = None
  /\ cache_files (get now u c).2 !! _get_cache_key u = None
  /\ index_file (get now u c).2 = Some (delete (_get_cache_key u) (cache_index c))
  /\ cache_index (get now u c).2 = delete (_get_cache_key u) (cache_index c)
  /\ cache_files (get now u c).2 = delete (_get_cache_key u) (cache_files c)
  /\ misses (get now u c).2 = S (misses c)
  /\ hits (get now u c).2 = hits c.
Proof.
  intros Hentry Hts Hold. unfold get. rewrite Hentry, Hts.
  cbn [_is_expired].
  replace (now - t >? cache_ttl c) with true by (symmetry; lia).
  cbn [fst snd]. unfold remove.
  cbn [cache_index cache_files index_file misses hits count_miss].
  rewrite Hentry, !lookup_delete_eq. auto 10.
Qed.

(** A day-old record of a documentation page, its content file in place. *)
Definition stale_cache : SourceCache :=
  SourceCache_init default_cache_ttl_hours
    (Some {[ _get_cache_key "https://docs.python.org/3/" :=
               {| url := "https://docs.python.org/3/";
                  timestamp := IsoTime 0; size_bytes := 4 |} ]})
    {[ _get_cache_key "https://docs.python.org/3/" := "text" ]}.

Lemma get_expired_witness :
  cache_ttl stale_cache = 86400000000
  /\ cache_files stale_cache !! _get_cache_key "https://docs.python.org/3/"
     = Some "text"
  /\ (get 86400000001 "https://docs.python.org/3/" stale_cache).1 = None
  /\ cache_files (get 86400000001 "https://docs.python.org/3/" stale_cache).2
       !! _get_cache_key "https://docs.python.org/3/" = None.
Proof.
  split; [reflexivity|]. split; [apply lookup_singleton_eq|].
  pose proof (get_expired_returns_none_and_evicts stale_cache 86400000001
                "https://docs.python.org/3/"
                {| url := "https://docs.python.org/3/";
                   timestamp := IsoTime 0; size_bytes := 4 |} 0
                (lookup_singleton_eq _ _) eq_refl eq_refl) as H.
  split; [apply H|apply H].
Defined.

(** C10: [should_cache url] holds exactly when the lower-cased URL contains
    one of the sixteen allow-list tokens.  The test looks at the whole URL
    and not at its host: whatever surrounds a listed token (in any letter
    case), the URL is cache-worthy, for instance a URL whose host is
    [evil.example.com] and whose path ends in [.org]. *)
Theorem should_cache_substring_test :
  length cache_worthy_domains = 16%nat
  /\ (forall url : string,
        should_cache url = true
        <-> exists domain, In domain cache_worthy_domains
                           /\ occurs domain (lower url))
  /\ (forall pre token post : string,
        In (lower token) cache_worthy_domains ->
        should_cache (pre +:+ token +:+ post) = true)
  /\ should_cache "http://evil.example.com/download/page.org" = true
  /\ should_cache "http://evil.example.com/?ref=x.GOV" = true
  /\ should_cache "http://evil.example.com/mydocs.html" = true
  /\ should_cache "http://evil.example.com/index.html" = false.
Proof.
  assert (Hiff : forall url : string,
             should_cache url = true
             <-> exists domain, In domain cache_worthy_domains
                                /\ occurs domain (lower url)).
  { intros url. unfold should_cache. rewrite existsb_exists.
    split; intros (d & Hd & Hc); exists d; split; trivial;
      now apply contains_occurs. }
  split; [reflexivity|]. split; [exact Hiff|].
  split; [|repeat split; vm_compute; reflexivity].
  intros pre token post Hin. apply Hiff.
  exists (lower token). split; [exact Hin|].
  exists (lower pre), (lower post). now rewrite !lower_app.
Qed.

End SourceCacheFacts.

(** ** The cache store: round trips, invariants, maintenance *)

Module SourceCacheMoreFacts.

Import PyStr SourceCacheM ProcessUrl SourceCacheMaintenance.

Local Open Scope Z_scope.

(** The text holds no carriage return. *)
Definition no_carriage_return (s : string) : Prop :=
  ~ In carriage_return (String.list_ascii_of_string s).

Lemma universal_newlines_plain (s : string) :
  no_carriage_return s -> universal_newlines s = s.
Proof.
  unfold no_carriage_return.
  induction s as [|ch s IH]; intros Hno; [reflexivity|].
  cbn [String.list_ascii_of_string In] in Hno.
  change (universal_newlines (String ch s))
    with (if Ascii.eqb ch carriage_return
          then match s with
               | String c' rest' =>
                   if Ascii.eqb c' line_feed
                   then String line_feed (universal_newlines rest')
                   else String line_feed (universal_newlines s)
               | EmptyString => String line_feed EmptyString
               end
          else String ch (universal_newlines s)).
  destruct (Ascii.eqb_spec ch carriage_return) as [->|Hne]; [tauto|].
  f_equal. apply IH. tauto.
Qed.


Lemma universal_newlines_no_carriage_return (s : string) :
  no_carriage_return (universal_newlines s).
Proof.
  unfold no_carriage_return.
  assert (H : forall n s, (String.length s <= n)%nat ->
             ~ In carriage_return
                 (String.list_ascii_of_string (universal_newlines s))).
  { clear s. induction n as [|n IH]; intros s Hlen.
    - destruct s; [intros []|cbn in Hlen; lia].
    - destruct s as [|ch s]; [intros []|]. cbn [String.length] in Hlen.
      cbn [universal_newlines].
      destruct (Ascii.eqb_spec ch carriage_return) as [->|Hne].
      + destruct s as [|c' s'].
        * cbn. intros [H|[]]. discriminate H.
        * cbn [String.length] in Hlen.
          destruct (Ascii.eqb c' line_feed);
            cbn [String.list_ascii_of_string In];
            (intros [H|H]; [discriminate H|]); revert H; apply IH;
            cbn [String.length]; lia.
      + cbn [String.list_ascii_of_string In]. intros [H|H]; [congruence|].
        revert H. apply IH. lia. }
  apply (H (String.length s)). lia.
Qed.

Lemma get_put_fresh (now later : Z) (u content : string) (c : SourceCache) :
  content <> "" ->
  later - now <= cache_ttl c ->
  get later u (put now u content c)
  = (Some (universal_newlines content), count_hit (put now u content c)).
Proof.
  intros Hne Hfresh.
  destruct (SourceCacheFacts.put_nonempty now u content c Hne) as (Hidx & Hfile & _).
  assert (cache_ttl (put now u content c) = cache_ttl c) as Httl
    by (unfold put; destruct (negb (truthy content)); reflexivity).
  unfold get. rewrite Hidx, Hfile. cbn [timestamp _is_expired]. rewrite Httl.
  replace (later - now >? cache_ttl c) with false by (symmetry; lia).
  reflexivity.
Qed.

(** X1: what [put] stored, [get] returns as long as the TTL has not
    elapsed, read back in text mode: every CR LF and every other CR of the
    content comes back as LF, so a content without a carriage return comes
    back unchanged and one with a carriage return never does; the lookup
    counts as a hit.  Once the TTL has elapsed the same lookup answers
    [None]. *)
Theorem get_after_put_within_ttl
    (now later : Z) (u content : string) (c : SourceCache) :
  content <> "" ->
  (later - now <= cache_ttl c ->
   get later u (put now u content c)
   = (Some (universal_newlines content), count_hit (put now u content c))
   /\ (no_carriage_return content ->
       (get later u (put now u content c)).1 = Some content)
   /\ (~ no_carriage_return content ->
       (get later u (put now u content c)).1 <> Some content))
  /\ (later - now > cache_ttl c ->
      (get later u (put now u content c)).1 = None).
Proof.
  intros Hne. split.
  { intros Hfresh. rewrite (get_put_fresh now later u content c Hne Hfresh).
    cbn [fst]. split; [reflexivity|]. split.
    - intros Hno. now rewrite universal_newlines_plain.
    - intros Hcr [= Heq]. apply Hcr. rewrite <- Heq.
      apply universal_newlines_no_carriage_return. }
  intros Hold.
  destruct (SourceCacheFacts.put_nonempty now u content c Hne) as (Hidx & _ & _).
  assert (cache_ttl (put now u content c) = cache_ttl c) as Httl
    by (unfold put; destruct (negb (truthy content)); reflexivity).
  unfold get. rewrite Hidx. cbn [timestamp _is_expired]. rewrite Httl.
  replace (later - now >? cache_ttl c) with true by (symmetry; lia).
  reflexivity.
Qed.

(** A page text with a Windows line ending and a lone carriage return. *)
Definition two_lines : string :=
  "a" +:+ String carriage_return (String line_feed "b")
  +:+ String carriage_return "c".

Lemma get_after_put_witness :
  (3600000000 - 0 <= cache_ttl (SourceCache_init default_cache_ttl_hours None ∅) ->
   get 3600000000 "https://docs.python.org/3/"
       (put 0 "https://docs.python.org/3/" two_lines
            (SourceCache_init default_cache_ttl_hours None ∅))
   = (Some (universal_newlines two_lines),
      count_hit (put 0 "https://docs.python.org/3/" two_lines
                     (SourceCache_init default_cache_ttl_hours None ∅)))
   /\ (no_carriage_return two_lines ->
       (get 3600000000 "https://docs.python.org/3/"
            (put 0 "https://docs.python.org/3/" two_lines
                 (SourceCache_init default_cache_ttl_hours None ∅))).1
       = Some two_lines)
   /\ (~ no_carriage_return two_lines ->
       (get 3600000000 "https://docs.python.org/3/"
            (put 0 "https://docs.python.org/3/" two_lines
                 (SourceCache_init default_cache_ttl_hours None ∅))).1
       <> Some two_lines))
  /\ (3600000000 - 0 > cache_ttl (SourceCache_init default_cache_ttl_hours None ∅) ->
      (get 3600000000 "https://docs.python.org/3/"
           (put 0 "https://docs.python.org/3/" two_lines
                (SourceCache_init default_cache_ttl_hours None ∅))).1 = None).
Proof.
  apply (get_after_put_within_ttl 0 3600000000 "https://docs.python.org/3/"
           two_lines (SourceCache_init default_cache_ttl_hours None ∅)).
  discriminate.
Defined.

Example two_lines_read_back :
  universal_newlines two_lines
  = "a" +:+ String line_feed "b" +:+ String line_feed "c"
  /\ universal_newlines two_lines <> two_lines.
Proof. split; [reflexivity|discriminate]. Qed.

(** X2: every [get] counts exactly one hit or one miss; it answers with a
    content exactly when it counts a hit, the content is that of the file
    read in text mode (CR LF and CR handed back as LF), and a hit changes
    nothing but the counter. *)
Theorem get_counts_every_lookup_once (now : Z) (u : string) (c : SourceCache) :
  (hits (get now u c).2 + misses (get now u c).2 = S (hits c + misses c))%nat
  /\ (is_Some (get now u c).1 <-> hits (get now u c).2 = S (hits c))
  /\ (forall content,
        (get now u c).1 = Some content ->
        (exists stored,
            cache_files c !! _get_cache_key u = Some stored
            /\ content = universal_newlines stored)
        /\ no_carriage_return content
        /\ (get now u c).2 = count_hit c)
  /\ cache_ttl (get now u c).2 = cache_ttl c.
Proof.
  unfold get.
  destruct (cache_index c !! _get_cache_key u) as [entry|];
    [destruct (_is_expired c now (timestamp entry));
     [|destruct (cache_files c !! _get_cache_key u) as [content|]]|];
    cbn [fst snd hits misses cache_ttl count_hit count_miss remove];
    (split; [lia|]); (split; [split; [intros [x Hx]; try discriminate Hx; lia
                                      | intros Hh; try lia; eauto]|]);
    (split; [intros content' Heq; try discriminate Heq;
             injection Heq as <-;
             (split; [eauto|]);
             (split; [apply universal_newlines_no_carriage_return|reflexivity])
            | reflexivity]).
Qed.

(** The shape the code keeps its store in: a record sits under the digest of
    its own URL, has a non-empty content file of the recorded length, and
    the index on disk is the index in memory. *)
Definition well_formed (c : SourceCache) : Prop :=
  (forall k entry,
      cache_index c !! k = Some entry ->
      k = _get_cache_key (url entry)
      /\ exists content,
           cache_files c !! k = Some content
           /\ content <> ""
           /\ size_bytes entry = String.length content)
  /\ (index_file c = Some (cache_index c)
      \/ (index_file c = None /\ cache_index c = ∅)).

Lemma well_formed_fresh (ttl_hours : Z) (files : gmap string string) :
  well_formed (SourceCache_init ttl_hours None files).
Proof.
  split.
  - intros k entry H. cbn in H. rewrite lookup_empty in H. discriminate.
  - right. split; reflexivity.
Qed.

Lemma well_formed_counters (c : SourceCache) :
  well_formed c -> well_formed (count_miss c) /\ well_formed (count_hit c).
Proof. intros H. split; exact H. Qed.

Lemma well_formed_remove (u : string) (c : SourceCache) :
  well_formed c -> well_formed (remove u c).
Proof.
  intros [Hrec Hsaved]. split.
  - intros k entry. unfold remove. cbn [cache_index cache_files].
    intros Hk. apply lookup_delete_Some in Hk. destruct Hk as [Hne Hk].
    destruct (Hrec k entry Hk) as (Hkey & content & Hfile & Hcontent).
    split; [exact Hkey|]. exists content.
    rewrite lookup_delete_ne by exact Hne. auto.
  - unfold remove. cbn [cache_index index_file].
    destruct (cache_index c !! _get_cache_key u) eqn:Hu; [now left|].
    rewrite delete_id by exact Hu. exact Hsaved.
Qed.

Lemma well_formed_put (now : Z) (u content : string) (c : SourceCache) :
  well_formed c -> well_formed (put now u content c).
Proof.
  intros [Hrec Hsaved]. unfold put.
  destruct content as [|ch rest]; cbn [truthy negb]; [split; assumption|].
  split; [|now left].
  intros k entry. cbn [cache_index cache_files].
  destruct (decide (k = _get_cache_key u)) as [->|Hne].
  - rewrite !lookup_insert_eq. intros H. injection H as <-. cbn [url size_bytes].
    split; [reflexivity|]. eexists. split; [reflexivity|]. split; [discriminate|reflexivity].
  - rewrite !lookup_insert_ne by congruence. apply Hrec.
Qed.

(** X3: [put], [get] and [remove] keep the store well formed: no empty
    content is ever stored, every record keeps its content file, and the
    saved index follows the index in memory. *)
Theorem operations_keep_store_well_formed
    (now : Z) (u content : string) (c : SourceCache) :
  well_formed c ->
  well_formed (put now u content c)
  /\ well_formed (get now u c).2
  /\ well_formed (remove u c).
Proof.
  intros Hwf. split; [now apply well_formed_put|]. split; [|now apply well_formed_remove].
  unfold get.
  destruct (cache_index c !! _get_cache_key u) as [entry|];
    [destruct (_is_expired c now (timestamp entry));
     [|destruct (cache_files c !! _get_cache_key u)]|];
    cbn [snd]; try exact Hwf.
  apply well_formed_remove. exact Hwf.
Qed.

Lemma operations_keep_store_witness :
  well_formed (put 0 "https://docs.python.org/3/" "text"
                 (SourceCache_init default_cache_ttl_hours None ∅))
  /\ well_formed (get 0 "https://docs.python.org/3/"
                    (SourceCache_init default_cache_ttl_hours None ∅)).2
  /\ well_formed (remove "https://docs.python.org/3/"
                    (SourceCache_init default_cache_ttl_hours None ∅)).
Proof.
  apply (operations_keep_store_well_formed 0 "https://docs.python.org/3/" "text"
           (SourceCache_init default_cache_ttl_hours None ∅)).
  apply well_formed_fresh.
Defined.

(** Removing, one after the other, records that sit under the digest of
    their own URL: no [KeyError], and exactly the listed keys go. *)
Lemma remove_each_well_formed (keys : list string) :
  forall c,
    NoDup keys ->
    (forall k, k ∈ keys ->
       exists entry, cache_index c !! k = Some entry
                     /\ k = _get_cache_key (url entry)) ->
    exists c',
      remove_each keys c = Done c'
      /\ (forall k, cache_index c' !! k
                    = if decide (k ∈ keys) then None else cache_index c !! k)
      /\ (forall k, cache_files c' !! k
                    = if decide (k ∈ keys) then None else cache_files c !! k)
      /\ hits c' = hits c /\ misses c' = misses c /\ cache_ttl c' = cache_ttl c.
Proof.
  induction keys as [|key rest IH]; intros c Hnd Hkeys; cbn [remove_each].
  - exists c. split; [reflexivity|]. repeat split; intros k;
      (case_decide as Hin; [now apply elem_of_nil in Hin|reflexivity]).
  - apply NoDup_cons in Hnd. destruct Hnd as [Hfresh Hnd].
    destruct (Hkeys key ltac:(left)) as (entry & Hentry & Hkey).
    rewrite Hentry.
    destruct (IH (remove (url entry) c) Hnd) as (c' & Hrun & Hidx & Hfiles & Hh & Hm & Ht).
    { intros k Hk. destruct (Hkeys k ltac:(now right)) as (e & He & Hke).
      exists e. split; [|exact Hke]. unfold remove. cbn [cache_index].
      rewrite <- Hkey. rewrite lookup_delete_ne; [exact He|].
      intros ->. contradiction. }
    exists c'. split; [exact Hrun|].
    unfold remove in Hidx, Hfiles, Hh, Hm, Ht.
    cbn [cache_index cache_files hits misses cache_ttl] in Hidx, Hfiles, Hh, Hm, Ht.
    rewrite <- Hkey in Hidx, Hfiles.
    repeat split; trivial; intros k; rewrite ?Hidx, ?Hfiles;
      destruct (decide (k = key)) as [->|Hne];
      repeat case_decide; rewrite ?lookup_delete_eq, ?lookup_delete_ne by congruence;
      try reflexivity; exfalso;
      repeat match goal with
             | H : _ ∈ _ :: _ |- _ => apply elem_of_cons in H; destruct H as [H|H]
             | H : ~ _ ∈ _ :: _ |- _ => rewrite elem_of_cons in H
             end; tauto.
Qed.

Lemma elem_of_expired_keys (now : Z) (c : SourceCache) (k : string) :
  k ∈ expired_keys now c
  <-> exists entry, cache_index c !! k = Some entry
                    /\ _is_expired c now (timestamp entry) = true.
Proof.
  unfold expired_keys. rewrite list_elem_of_fmap. split.
  - intros ([k' entry] & -> & Hin). apply list_elem_of_In in Hin.
    apply filter_In in Hin. destruct Hin as [Hin Hexp].
    apply list_elem_of_In, elem_of_map_to_list in Hin. eauto.
  - intros (entry & Hk & Hexp). exists (k, entry). split; [reflexivity|].
    apply list_elem_of_In, filter_In. split; [|exact Hexp].
    apply list_elem_of_In, elem_of_map_to_list. exact Hk.
Qed.

Lemma NoDup_filter_keys {A} (f : string * A -> bool) (m : gmap string A) :
  NoDup (map fst (List.filter f (map_to_list m))).
Proof.
  pose proof (NoDup_fst_map_to_list m) as Hnd.
  induction (map_to_list m) as [|[k v] l IH]; [constructor|].
  cbn in Hnd. apply NoDup_cons in Hnd. destruct Hnd as [Hk Hnd].
  cbn [List.filter]. destruct (f (k, v)); [|now apply IH].
  cbn. apply NoDup_cons. split; [|now apply IH].
  intros Hin. apply Hk. apply list_elem_of_fmap in Hin.
  destruct Hin as ([k' v'] & -> & Hin). apply list_elem_of_fmap.
  exists (k', v'). split; [reflexivity|].
  apply list_elem_of_In in Hin. apply filter_In in Hin.
  apply list_elem_of_In. tauto.
Qed.

(** X4: on a well-formed store [clear_expired] raises no [KeyError], removes
    every expired record together with its content file, and leaves every
    other record, file and counter as it was. *)
Theorem clear_expired_removes_exactly_expired (now : Z) (c : SourceCache) :
  well_formed c ->
  exists c',
    clear_expired now c = Done c'
    /\ (forall k,
          cache_index c' !! k
          = match cache_index c !! k with
            | Some entry =>
                if _is_expired c now (timestamp entry) then None else Some entry
            | None => None
            end)
    /\ (forall k,
          cache_files c' !! k
          = match cache_index c !! k with
            | Some entry =>
                if _is_expired c now (timestamp entry) then None
                else cache_files c !! k
            | None => cache_files c !! k
            end)
    /\ (forall k entry,
          cache_index c' !! k = Some entry ->
          _is_expired c' now (timestamp entry) = false)
    /\ hits c' = hits c /\ misses c' = misses c
    /\ well_formed c'.
Proof.
  intros Hwf. pose proof Hwf as [Hrec _]. unfold clear_expired.
  destruct (remove_each_well_formed (expired_keys now c) c)
    as (c' & Hrun & Hidx & Hfiles & Hh & Hm & Ht).
  { apply NoDup_filter_keys. }
  { intros k Hk. apply elem_of_expired_keys in Hk. destruct Hk as (entry & Hk & _).
    exists entry. split; [exact Hk|]. now destruct (Hrec k entry Hk). }
  assert (Hidx' : forall k,
             cache_index c' !! k
             = match cache_index c !! k with
               | Some entry =>
                   if _is_expired c now (timestamp entry) then None else Some entry
               | None => None
               end).
  { intros k. rewrite Hidx. case_decide as Hin.
    - apply elem_of_expired_keys in Hin. destruct Hin as (entry & -> & ->).
      reflexivity.
    - destruct (cache_index c !! k) as [entry|] eqn:Hk; [|reflexivity].
      destruct (_is_expired c now (timestamp entry)) eqn:Hexp; [|reflexivity].
      exfalso. apply Hin. apply elem_of_expired_keys. eauto. }
  exists c'. split; [exact Hrun|]. split; [exact Hidx'|]. split.
  { intros k. rewrite Hfiles. case_decide as Hin.
    - apply elem_of_expired_keys in Hin. destruct Hin as (entry & -> & ->).
      reflexivity.
    - destruct (cache_index c !! k) as [entry|] eqn:Hk; [|reflexivity].
      destruct (_is_expired c now (timestamp entry)) eqn:Hexp; [|reflexivity].
      exfalso. apply Hin. apply elem_of_expired_keys. eauto. }
  split.
  { intros k entry Hk. rewrite Hidx' in Hk.
    destruct (cache_index c !! k) as [e|]; [|discriminate].
    destruct (_is_expired c now (timestamp e)) eqn:Hexp; [discriminate|].
    injection Hk as <-. unfold _is_expired in *. now rewrite Ht. }
  split; [exact Hh|]. split; [exact Hm|].
  (* the store stays well formed: each removal keeps it so *)
  clear Hidx Hfiles Hh Hm Ht Hidx' Hrec.
  remember (expired_keys now c) as keys eqn:E. clear E. revert c Hwf Hrun.
  induction keys as [|key rest IH]; intros c0 Hwf Hrun; cbn [remove_each] in Hrun.
  - injection Hrun as <-. exact Hwf.
  - destruct (cache_index c0 !! key) as [entry|]; [|discriminate].
    apply (IH (remove (url entry) c0)); [|exact Hrun].
    now apply well_formed_remove.
Qed.

(** A store holding one page cached at time 0. *)
Definition one_page_cache : SourceCache :=
  put 0 "https://docs.python.org/3/" "text"
      (SourceCache_init default_cache_ttl_hours None ∅).

Lemma clear_expired_witness :
  exists c',
    clear_expired 90000000000 one_page_cache = Done c'
    /\ (forall k,
          cache_index c' !! k
          = match cache_index one_page_cache !! k with
            | Some entry =>
                if _is_expired one_page_cache 90000000000 (timestamp entry)
                then None else Some entry
            | None => None
            end)
    /\ (forall k,
          cache_files c' !! k
          = match cache_index one_page_cache !! k with
            | Some entry =>
                if _is_expired one_page_cache 90000000000 (timestamp entry)
                then None else cache_files one_page_cache !! k
            | None => cache_files one_page_cache !! k
            end)
    /\ (forall k entry,
          cache_index c' !! k = Some entry ->
          _is_expired c' 90000000000 (timestamp entry) = false)
    /\ hits c' = hits one_page_cache /\ misses c' = misses one_page_cache
    /\ well_formed c'.
Proof.
  apply (clear_expired_removes_exactly_expired 90000000000 one_page_cache).
  apply well_formed_put, well_formed_fresh.
Defined.

(** X5: on a well-formed store [clear_all] raises no [KeyError] and leaves
    an empty index, saved as such, with the content file of every record
    deleted. *)
Theorem clear_all_empties_the_store (c : SourceCache) :
  well_formed c ->
  exists c',
    clear_all c = Done c'
    /\ cache_index c' = ∅
    /\ (forall k, is_Some (cache_index c !! k) -> cache_files c' !! k = None)
    /\ (forall k, cache_index c !! k = None -> cache_files c' !! k = cache_files c !! k)
    /\ (cache_index c <> ∅ -> index_file c' = Some ∅).
Proof.
  intros Hwf. pose proof Hwf as [Hrec _]. unfold clear_all.
  assert (Hin : forall k, k ∈ map fst (map_to_list (cache_index c))
                          <-> is_Some (cache_index c !! k)).
  { intros k. rewrite list_elem_of_fmap. split.
    - intros ([k' e] & -> & H). apply elem_of_map_to_list in H. eauto.
    - intros [e He]. exists (k, e). split; [reflexivity|].
      now apply elem_of_map_to_list. }
  destruct (remove_each_well_formed (map fst (map_to_list (cache_index c))) c)
    as (c' & Hrun & Hidx & Hfiles & _).
  { apply NoDup_fst_map_to_list. }
  { intros k Hk. apply Hin in Hk. destruct Hk as [entry Hk].
    exists entry. split; [exact Hk|]. now destruct (Hrec k entry Hk). }
  assert (cache_index c' = ∅) as Hempty.
  { apply map_eq. intros k. rewrite Hidx, lookup_empty.
    case_decide as Hk; [reflexivity|].
    destruct (cache_index c !! k) eqn:E; [|reflexivity].
    exfalso. apply Hk, Hin. eauto. }
  exists c'. split; [exact Hrun|]. split; [exact Hempty|]. split; [|split].
  - intros k Hk. rewrite Hfiles. apply Hin in Hk. now rewrite decide_True.
  - intros k Hk. rewrite Hfiles. rewrite decide_False; [reflexivity|].
    intros H. apply Hin in H. rewrite Hk in H. now destruct H.
  - intros Hne.
    assert (well_formed c') as [_ Hsaved].
    { clear Hidx Hfiles Hin Hrec Hempty Hne.
      remember (map fst (map_to_list (cache_index c))) as keys eqn:E. clear E.
      revert c Hwf Hrun.
      induction keys as [|key rest IH]; intros c0 Hwf Hrun; cbn [remove_each] in Hrun.
      - injection Hrun as <-. exact Hwf.
      - destruct (cache_index c0 !! key) as [entry|]; [|discriminate].
        apply (IH (remove (url entry) c0)); [|exact Hrun].
        now apply well_formed_remove. }
    destruct Hsaved as [Hs|[Hs _]]; [now rewrite Hs, Hempty|].
    (* the index was written at the first removal *)
    exfalso. clear Hidx Hfiles Hempty Hrec.
    destruct (map_to_list (cache_index c)) as [|[k e] l] eqn:El.
    + apply map_to_list_empty_iff in El. contradiction.
    + assert (cache_index c !! k = Some e) as Hk
        by (apply elem_of_map_to_list; rewrite El; left).
      cbn [map fst remove_each] in Hrun. rewrite Hk in Hrun.
      assert (forall keys c0, remove_each keys c0 = Done c' ->
                is_Some (index_file c0) -> is_Some (index_file c')) as Hkeep.
      { induction keys as [|key rest IH]; intros c0 Hr Hsome; cbn [remove_each] in Hr.
        - injection Hr as <-. exact Hsome.
        - destruct (cache_index c0 !! key) as [entry|] eqn:Hkey; [|discriminate].
          apply (IH _ Hr). unfold remove. cbn [index_file].
          destruct (cache_index c0 !! _get_cache_key (url entry)); eauto. }
      apply Hkeep in Hrun.
      * rewrite Hs in Hrun. now destruct Hrun.
      * unfold remove. cbn [index_file].
        destruct Hwf as [Hrec' _]. destruct (Hrec' k e Hk) as [<- _].
        rewrite Hk. eauto.
Qed.

Lemma clear_all_witness :
  exists c',
    clear_all one_page_cache = Done c'
    /\ cache_index c' = ∅
    /\ (forall k, is_Some (cache_index one_page_cache !! k) ->
                  cache_files c' !! k = None)
    /\ (forall k, cache_index one_page_cache !! k = None ->
                  cache_files c' !! k = cache_files one_page_cache !! k)
    /\ (cache_index one_page_cache <> ∅ -> index_file c' = Some ∅).
Proof.
  apply (clear_all_empties_the_store one_page_cache).
  apply well_formed_put, well_formed_fresh.
Defined.



End SourceCacheMoreFacts.

(** ** The credential pool: rotation from any state, and the calls *)

Module GeminiCallsFacts.

Import PyStr ApiManager GeminiCalls ApiManagerFacts.

Section Cycle.

Variables (n start : nat).
Hypothesis Hstart : start < n.

(** The index [t] places after [start], going round a pool of [n] keys. *)
Definition place_after (t : nat) : nat := (start + t) mod n.

Lemma place_after_lt t : place_after t < n.
Proof. apply Nat.mod_upper_bound. lia. Qed.

Lemma place_after_next t : (place_after t + 1) mod n = place_after (S t).
Proof.
  unfold place_after. rewrite Nat.Div0.add_mod_idemp_l. f_equal. lia.
Qed.

Lemma place_after_small t : start + t < n -> place_after t = start + t.
Proof. intros H. now apply Nat.mod_small. Qed.

Lemma place_after_wrap t :
  n <= start + t -> t <= n -> place_after t = start + t - n.
Proof.
  intros H1 H2. unfold place_after.
  symmetry. apply (Nat.mod_unique (start + t) n 1); lia.
Qed.

Lemma place_after_start t : t <= n -> place_after t = start <-> t = 0 \/ t = n.
Proof.
  intros Ht. destruct (decide (start + t < n)) as [Hs|Hs].
  - rewrite place_after_small by exact Hs. lia.
  - rewrite place_after_wrap by lia. lia.
Qed.

Lemma place_after_onto i : i < n -> exists t, 1 <= t <= n /\ place_after t = i.
Proof.
  intros Hi. destruct (decide (start < i)).
  - exists (i - start). split; [lia|]. rewrite place_after_small by lia. lia.
  - exists (i + n - start). split; [lia|]. rewrite place_after_wrap by lia. lia.
Qed.

End Cycle.

(** The scan of [rotate], started [t] places after [initial_index] with the
    keys passed so far all flagged. *)
Lemma rotate_scan (keys : list KeyInfo) (initial_index : nat) (fuel : nat) :
  forall t,
    initial_index < length keys ->
    t < length keys ->
    length keys - t <= fuel ->
    (forall info, keys !! initial_index = Some info -> exhausted info = true) ->
    (forall s info, 1 <= s <= t ->
       keys !! place_after (length keys) initial_index s = Some info ->
       exhausted info = true) ->
    match rotate fuel keys initial_index (place_after (length keys) initial_index t) with
    | Some (Returned self') =>
        api_keys self' = keys
        /\ exists d info,
             t < d < length keys
             /\ current_index self' = place_after (length keys) initial_index d
             /\ keys !! current_index self' = Some info
             /\ exhausted info = false
             /\ forall s info', 1 <= s < d ->
                  keys !! place_after (length keys) initial_index s = Some info' ->
                  exhausted info' = true
    | Some (Raised AllKeysExhausted self') =>
        api_keys self' = keys
        /\ current_index self' = initial_index
        /\ Forall (fun info => exhausted info = true) keys
    | _ => False
    end.
Proof.
  induction fuel as [|fuel IH]; intros t Hinit Ht Hfuel Hflag Hpassed; [lia|].
  cbn [rotate]. rewrite place_after_next by exact Hinit.
  pose proof (place_after_lt (length keys) initial_index Hinit (S t)) as Hlt.
  destruct (lookup_lt_is_Some_2 keys _ Hlt) as [info Hinfo]. rewrite Hinfo.
  destruct (place_after (length keys) initial_index (S t) =? initial_index)%nat eqn:Heq.
  - apply Nat.eqb_eq in Heq.
    assert (S t = length keys) as Hlast
      by (apply (place_after_start _ _ Hinit) in Heq; lia).
    rewrite Heq in Hinfo. rewrite (Hflag info Hinfo).
    split; [reflexivity|]. split; [exact Heq|].
    apply Forall_lookup. intros i info' Hi.
    destruct (place_after_onto (length keys) initial_index Hinit i
                (lookup_lt_Some _ _ _ Hi)) as (s & Hs & Hpos).
    destruct (decide (s = length keys)) as [->|Hne].
    + apply Hflag. rewrite <- Hi, <- Hpos.
      f_equal. symmetry. apply (place_after_start _ _ Hinit); lia.
    + apply (Hpassed s); [lia|]. now rewrite Hpos.
  - apply Nat.eqb_neq in Heq.
    assert (S t < length keys) as Hmore.
    { destruct (decide (S t = length keys)) as [E|E]; [|lia].
      exfalso. apply Heq. apply (place_after_start _ _ Hinit); lia. }
    destruct (exhausted info) eqn:Hex; cbn [negb].
    + assert (forall s info', 1 <= s <= S t ->
                keys !! place_after (length keys) initial_index s = Some info' ->
                exhausted info' = true) as Hpassed'.
      { intros s info' Hs Hlook.
        destruct (decide (s = S t)) as [->|Hne].
        - rewrite Hinfo in Hlook. now injection Hlook as <-.
        - apply (Hpassed s); [lia|exact Hlook]. }
      pose proof (IH (S t) Hinit Hmore ltac:(lia) Hflag Hpassed') as Hrec.
      destruct (rotate fuel keys initial_index _) as [[self'|e self']|];
        [|exact Hrec|exact Hrec].
      destruct Hrec as (Hk & d & info' & Hd & Hrest).
      split; [exact Hk|]. exists d, info'. split; [lia|exact Hrest].
    + cbn [api_keys current_index]. split; [reflexivity|].
      exists (S t), info. repeat split; trivial; try lia.
      intros s info' Hs. apply Hpassed. lia.
Qed.

(** X7: from any pool with a valid current index, [mark_current_exhausted]
    flags the current key and nothing else; when it returns, the new current
    key is not exhausted and every key passed over on the way round was;
    when it raises, every key of the pool is exhausted. *)
Theorem mark_current_exhausted_round_robin
    (self : GeminiAPIManager) (current : KeyInfo) :
  api_keys self !! current_index self = Some current ->
  let flagged_keys :=
    <[current_index self := {| key := key current; exhausted := true |}]>
      (api_keys self) in
  match mark_current_exhausted self with
  | Some (Returned self') =>
      api_keys self' = flagged_keys
      /\ exists d info,
           1 <= d < length (api_keys self)
           /\ current_index self'
              = (current_index self + d) mod length (api_keys self)
           /\ api_keys self' !! current_index self' = Some info
           /\ exhausted info = false
           /\ forall s info', 1 <= s < d ->
                api_keys self' !! ((current_index self + s) mod length (api_keys self))
                = Some info' ->
                exhausted info' = true
  | Some (Raised AllKeysExhausted self') =>
      api_keys self' = flagged_keys
      /\ current_index self' = current_index self
      /\ Forall (fun info => exhausted info = true) (api_keys self')
  | _ => False
  end.
Proof.
  intros Hcur flagged_keys. unfold mark_current_exhausted. rewrite Hcur.
  fold flagged_keys.
  pose proof (lookup_lt_Some _ _ _ Hcur) as Hlt.
  assert (length flagged_keys = length (api_keys self)) as Hlen
    by apply length_insert.
  pose proof (rotate_scan flagged_keys (current_index self) (length flagged_keys) 0)
    as Hscan.
  unfold place_after in Hscan. rewrite Nat.add_0_r, Hlen, Nat.mod_small in Hscan by lia.
  rewrite Hlen.
  specialize (Hscan Hlt ltac:(lia) ltac:(lia)).
  destruct (rotate (length (api_keys self)) flagged_keys (current_index self)
              (current_index self)) as [[self'|e self']|].
  - destruct Hscan as (Hkeys & d & info & Hd & Hci & Hinfo & Hex & Hpassed).
    + intros info. unfold flagged_keys.
      rewrite list_lookup_insert_eq by exact Hlt. now intros [= <-].
    + intros s info Hs. lia.
    + rewrite Hkeys. split; [reflexivity|]. exists d, info.
      repeat split; trivial; lia.
  - destruct e; try (apply Hscan; [intros info; unfold flagged_keys;
      rewrite list_lookup_insert_eq by exact Hlt; now intros [= <-]
      | intros s info Hs; lia]).
    destruct Hscan as (Hkeys & Hci & Hall).
    + intros info. unfold flagged_keys.
      rewrite list_lookup_insert_eq by exact Hlt. now intros [= <-].
    + intros s info Hs. lia.
    + rewrite Hkeys. auto.
  - apply Hscan.
    + intros info. unfold flagged_keys.
      rewrite list_lookup_insert_eq by exact Hlt. now intros [= <-].
    + intros s info Hs. lia.
Qed.

(** A pool in mid-life: the second key is current, the third is already
    exhausted. *)
Definition worn_pool : GeminiAPIManager :=
  {| api_keys := [ {| key := "key-a"; exhausted := false |};
                   {| key := "key-b"; exhausted := false |};
                   {| key := "key-c"; exhausted := true |};
                   {| key := "key-d"; exhausted := false |} ];
     current_index := 1 |}.

Lemma mark_round_robin_witness :
  let flagged_keys :=
    <[current_index worn_pool := {| key := "key-b"; exhausted := true |}]>
      (api_keys worn_pool) in
  match mark_current_exhausted worn_pool with
  | Some (Returned self') =>
      api_keys self' = flagged_keys
      /\ exists d info,
           1 <= d < length (api_keys worn_pool)
           /\ current_index self'
              = (current_index worn_pool + d) mod length (api_keys worn_pool)
           /\ api_keys self' !! current_index self' = Some info
           /\ exhausted info = false
           /\ forall s info', 1 <= s < d ->
                api_keys self'
                  !! ((current_index worn_pool + s) mod length (api_keys worn_pool))
                = Some info' ->
                exhausted info' = true
  | Some (Raised AllKeysExhausted self') =>
      api_keys self' = flagged_keys
      /\ current_index self' = current_index worn_pool
      /\ Forall (fun info => exhausted info = true) (api_keys self')
  | _ => False
  end.
Proof.
  apply (mark_current_exhausted_round_robin worn_pool
           {| key := "key-b"; exhausted := false |}).
  reflexivity.
Defined.

Example worn_pool_skips_exhausted_key :
  mark_current_exhausted worn_pool
  = Some (Returned
            {| api_keys := [ {| key := "key-a"; exhausted := false |};
                             {| key := "key-b"; exhausted := true |};
                             {| key := "key-c"; exhausted := true |};
                             {| key := "key-d"; exhausted := false |} ];
               current_index := 3 |}).
Proof. reflexivity. Qed.

(** The pool [__init__] builds, written with [flagged]. *)
Definition new_pool (keys : list string) : GeminiAPIManager :=
  {| api_keys := flagged 0 keys; current_index := 0 |}.

Lemma init_new_pool (keys : list string) :
  keys <> [] -> GeminiAPIManager_init keys = Returned (new_pool keys).
Proof.
  intros Hne. unfold GeminiAPIManager_init, new_pool. cbn [api_keys].
  rewrite flagged_zero. destruct keys; [congruence|reflexivity].
Qed.

Section Calls.

Variable model_call : nat -> string -> string + string.
Variable keys : list string.

(** The [n]-th call, made with the [n]-th key, hits a rate limit. *)
Definition rate_limited (n : nat) : Prop :=
  forall name, keys !! n = Some name ->
    exists error_str, model_call n name = inr error_str
                      /\ is_rate_limit error_str = true.

Lemma current_key_flagged k name :
  keys !! k = Some name ->
  get_current_key {| api_keys := flagged k keys; current_index := k |} = Some name.
Proof.
  intros Hk. unfold get_current_key. cbn [api_keys current_index].
  now rewrite flagged_lookup, Hk.
Qed.

(** [j] rate limits in a row, with keys to spare: [j] rotations. *)
Lemma generate_loop_rotates (j : nat) :
  forall k remaining,
    k + j < length keys ->
    (forall n, k <= n < k + j -> rate_limited n) ->
    generate_loop model_call (j + remaining)
      {| api_keys := flagged k keys; current_index := k |} (take k keys)
    = generate_loop model_call remaining
        {| api_keys := flagged (k + j) keys; current_index := k + j |}
        (take (k + j) keys).
Proof.
  induction j as [|j IH]; intros k remaining Hk Hlim.
  - now rewrite Nat.add_0_r.
  - destruct (lookup_lt_is_Some_2 keys k ltac:(lia)) as [name Hname].
    cbn [Nat.add generate_loop].
    rewrite (current_key_flagged k name Hname).
    rewrite length_take, Nat.min_l by lia.
    destruct (Hlim k ltac:(lia) name Hname) as (err & -> & ->).
    rewrite mark_moves_on by lia.
    rewrite <- (take_S_r keys k name Hname).
    rewrite (IH (S k) remaining) by (try lia; intros n Hn; apply Hlim; lia).
    now replace (S k + j) with (k + S j) by lia.
Qed.

(** X8: when the first [k] calls hit a rate limit and the next one
    answers, [generate_content] returns that answer, provided [k] is below
    both [max_retries] and the number of keys; it has used the first [k+1]
    keys in order and left the first [k] exhausted. *)
Theorem generate_content_answers_after_rotations
    (max_retries k : nat) (name text : string) :
  k < max_retries ->
  keys !! k = Some name ->
  (forall n, n < k -> rate_limited n) ->
  model_call k name = inl text ->
  generate_content model_call max_retries (new_pool keys)
  = Some {| outcome := Response text;
            pool := {| api_keys := flagged k keys; current_index := k |};
            keys_used := take (S k) keys |}.
Proof.
  intros Hk Hname Hlim Hanswer. unfold generate_content, new_pool.
  pose proof (lookup_lt_Some _ _ _ Hname) as Hlt.
  replace max_retries with (k + S (max_retries - S k)) by lia.
  change (@nil string) with (take 0 keys).
  rewrite (generate_loop_rotates k 0) by (try lia; intros n Hn; apply Hlim; lia).
  cbn [Nat.add generate_loop]. rewrite (current_key_flagged k name Hname).
  rewrite length_take, Nat.min_l by lia. rewrite Hanswer.
  now rewrite <- (take_S_r keys k name Hname).
Qed.

(** X9: when every call hits a rate limit, [generate_content] ends in one
    of two ways.  With no more keys than [max_retries] the pool runs dry and
    the all-keys-exhausted exception comes out, every key used once; with
    more keys, it gives up after [max_retries] calls, the remaining keys
    never tried and still fresh. *)
Theorem generate_content_when_all_rate_limited (max_retries : nat) :
  keys <> [] ->
  (forall n, n < Nat.min (length keys) max_retries -> rate_limited n) ->
  generate_content model_call max_retries (new_pool keys)
  = Some (if (length keys <=? max_retries)%nat
          then {| outcome := RotationFailed AllKeysExhausted;
                  pool := {| api_keys := flagged (length keys) keys;
                             current_index := length keys - 1 |};
                  keys_used := keys |}
          else {| outcome := RetriesExceeded;
                  pool := {| api_keys := flagged max_retries keys;
                             current_index := max_retries |};
                  keys_used := take max_retries keys |}).
Proof.
  intros Hne Hlim. unfold generate_content, new_pool.
  assert (0 < length keys) as Hpos by (destruct keys; [congruence|simpl; lia]).
  change (@nil string) with (take 0 keys).
  destruct (length keys <=? max_retries)%nat eqn:Hcmp.
  - apply Nat.leb_le in Hcmp.
    replace max_retries with ((length keys - 1) + S (max_retries - length keys)) by lia.
    rewrite (generate_loop_rotates (length keys - 1) 0)
      by (try lia; intros n Hn; apply Hlim; lia).
    cbn [Nat.add generate_loop].
    destruct (lookup_lt_is_Some_2 keys (length keys - 1) ltac:(lia)) as [name Hname].
    rewrite (current_key_flagged _ name Hname).
    rewrite length_take, Nat.min_l by lia.
    destruct (Hlim (length keys - 1) ltac:(lia) name Hname) as (err & -> & ->).
    rewrite (mark_last_raises keys Hne).
    rewrite <- (take_S_r keys _ name Hname).
    replace (S (length keys - 1)) with (length keys) by lia.
    now rewrite firstn_all.
  - apply Nat.leb_gt in Hcmp.
    replace max_retries with (max_retries + 0) at 1 by lia.
    rewrite (generate_loop_rotates max_retries 0)
      by (try lia; intros n Hn; apply Hlim; lia).
    reflexivity.
Qed.

End Calls.

(** A model that answers only when called with [key-c]. *)
Definition third_key_answers (n : nat) (k : string) : string + string :=
  if String.eqb k "key-c" then inl "answer"
  else inr "429 Resource has been exhausted (e.g. check quota).".

Lemma generate_content_answers_witness :
  generate_content third_key_answers 3 (new_pool ["key-a"; "key-b"; "key-c"; "key-d"])
  = Some {| outcome := Response "answer";
            pool := {| api_keys := flagged 2 ["key-a"; "key-b"; "key-c"; "key-d"];
                       current_index := 2 |};
            keys_used := take 3 ["key-a"; "key-b"; "key-c"; "key-d"] |}.
Proof.
  apply (generate_content_answers_after_rotations third_key_answers
           ["key-a"; "key-b"; "key-c"; "key-d"] 3 2 "key-c" "answer").
  - lia.
  - reflexivity.
  - intros n Hn name Hname. exists "429 Resource has been exhausted (e.g. check quota).".
    destruct n as [|[|n]]; [| |lia]; injection Hname as <-; split; reflexivity.
  - reflexivity.
Defined.

(** A model that is rate limited whatever the key. *)
Definition always_limited (n : nat) (k : string) : string + string :=
  inr "Quota exceeded for requests per minute".

Lemma generate_content_gives_up_witness :
  generate_content always_limited 3 (new_pool ["key-a"; "key-b"; "key-c"; "key-d"])
  = Some (if (length ["key-a"; "key-b"; "key-c"; "key-d"] <=? 3)%nat
          then {| outcome := RotationFailed AllKeysExhausted;
                  pool := {| api_keys :=
                               flagged (length ["key-a"; "key-b"; "key-c"; "key-d"])
                                 ["key-a"; "key-b"; "key-c"; "key-d"];
                             current_index :=
                               length ["key-a"; "key-b"; "key-c"; "key-d"] - 1 |};
                  keys_used := ["key-a"; "key-b"; "key-c"; "key-d"] |}
          else {| outcome := RetriesExceeded;
                  pool := {| api_keys := flagged 3 ["key-a"; "key-b"; "key-c"; "key-d"];
                             current_index := 3 |};
                  keys_used := take 3 ["key-a"; "key-b"; "key-c"; "key-d"] |}).
Proof.
  apply (generate_content_when_all_rate_limited always_limited
           ["key-a"; "key-b"; "key-c"; "key-d"] 3).
  - discriminate.
  - intros n Hn name Hname. exists "Quota exceeded for requests per minute".
    split; reflexivity.
Defined.

Example four_keys_three_retries :
  generate_content always_limited default_max_retries
    (new_pool ["key-a"; "key-b"; "key-c"; "key-d"])
  = Some {| outcome := RetriesExceeded;
            pool := {| api_keys := [ {| key := "key-a"; exhausted := true |};
                                     {| key := "key-b"; exhausted := true |};
                                     {| key := "key-c"; exhausted := true |};
                                     {| key := "key-d"; exhausted := false |} ];
                       current_index := 3 |};
            keys_used := ["key-a"; "key-b"; "key-c"] |}.
Proof. vm_compute. reflexivity. Qed.

Definition state_of (o : Outcome) : GeminiAPIManager :=
  match o with Returned self | Raised _ self => self end.

Lemma rotate_keeps_keys (fuel : nat) :
  forall ks initial_index cur o,
    rotate fuel ks initial_index cur = Some o -> api_keys (state_of o) = ks.
Proof.
  induction fuel as [|fuel IH]; intros ks initial_index cur o; cbn [rotate];
    [discriminate|].
  destruct (ks !! _) as [info|]; [|now intros [= <-]].
  destruct (_ =? _)%nat.
  - destruct (exhausted info); now intros [= <-].
  - destruct (exhausted info); cbn [negb]; [apply IH|now intros [= <-]].
Qed.

Lemma mark_keeps_names (self : GeminiAPIManager) (o : Outcome) :
  mark_current_exhausted self = Some o ->
  map key (api_keys (state_of o)) = map key (api_keys self).
Proof.
  unfold mark_current_exhausted.
  destruct (api_keys self !! current_index self) as [info|] eqn:Hinfo;
    [|now intros [= <-]].
  intros Hrot. apply rotate_keeps_keys in Hrot. rewrite Hrot.
  apply list_eq. intros i. rewrite !list_lookup_fmap, list_lookup_insert.
  case_decide as Hi; [|reflexivity].
  destruct Hi as [<- _]. now rewrite Hinfo.
Qed.

Lemma signals_keep_names (n : nat) :
  forall self o,
    rate_limit_signals n self = Some o ->
    map key (api_keys (state_of o)) = map key (api_keys self).
Proof.
  induction n as [|n IH]; intros self o; cbn [rate_limit_signals].
  - now intros [= <-].
  - destruct (mark_current_exhausted self) as [[self'|e self']|] eqn:Hmark;
      [|intros [= <-]; now apply mark_keeps_names|discriminate].
    intros Hrest. rewrite (IH _ _ Hrest).
    now apply (mark_keeps_names self (Returned self')).
Qed.

(** X10: after any number of rate-limit signals, the one that raised
    included, [reset_keys] puts the pool back into the state [__init__]
    built: same keys, none exhausted, the first one current. *)
Theorem reset_keys_restores_new_pool (keys : list string) (n : nat) (o : Outcome) :
  rate_limit_signals n (new_pool keys) = Some o ->
  reset_keys (state_of o) = new_pool keys.
Proof.
  intros Hrun. apply signals_keep_names in Hrun.
  unfold reset_keys, new_pool. f_equal.
  unfold new_pool in Hrun. cbn [api_keys] in Hrun.
  assert (map key (api_keys (state_of o)) = keys) as Hnames.
  { rewrite Hrun, flagged_zero, map_map. cbn [key]. apply map_id. }
  rewrite flagged_zero.
  transitivity (map (fun name => {| key := name; exhausted := false |})
                    (map key (api_keys (state_of o)))).
  - now rewrite map_map.
  - now rewrite Hnames.
Qed.

Lemma reset_keys_witness :
  reset_keys
    (state_of (Raised AllKeysExhausted
                 {| api_keys := flagged 3 ["key-a"; "key-b"; "key-c"];
                    current_index := 2 |}))
  = new_pool ["key-a"; "key-b"; "key-c"].
Proof.
  apply (reset_keys_restores_new_pool ["key-a"; "key-b"; "key-c"] 3).
  vm_compute. reflexivity.
Defined.

End GeminiCallsFacts.

(** ** The search engine: provider discipline *)

Module SearchEngineFacts.

Import SearchEngineM.

Abbreviation place_after := GeminiCallsFacts.place_after.

(** [eng] has the keys of [orig], with no exhausted flag taken back. *)
Definition grown (orig eng : SearchEngine) : Prop :=
  length (google_keys eng) = length (google_keys orig)
  /\ tavily_client eng = tavily_client orig
  /\ forall i k0,
       google_keys orig !! i = Some k0 ->
       exists k, google_keys eng !! i = Some k
                 /\ api_key k = api_key k0 /\ cx_id k = cx_id k0
                 /\ (exhausted k0 = true -> exhausted k = true).

(** Google was only entered with keys that [orig] had not flagged, and
    Tavily not at all. *)
Definition google_only (orig : SearchEngine) (log : list ProviderCall) : Prop :=
  forall c, c ∈ log ->
    exists i k0, c = Google i /\ google_keys orig !! i = Some k0
                 /\ exhausted k0 = false.

Lemma grown_refl (orig : SearchEngine) : grown orig orig.
Proof. repeat split. intros i k0 H. exists k0. auto. Qed.

Lemma place_after_onto0 (n start i : nat) :
  start < n -> i < n -> exists t, t < n /\ place_after n start t = i.
Proof.
  intros Hs Hi.
  destruct (GeminiCallsFacts.place_after_onto n start Hs i Hi) as (t & Ht & Hp).
  destruct (decide (t = n)) as [->|Hne].
  - exists 0. split; [lia|]. rewrite <- Hp.
    transitivity start.
    + apply (GeminiCallsFacts.place_after_start n start Hs); lia.
    + symmetry. apply (GeminiCallsFacts.place_after_start n start Hs); lia.
  - exists t. split; [lia|exact Hp].
Qed.

Section Attempts.

Variables (w : Providers) (query : string) (num_results : nat).
Variable orig : SearchEngine.

Let N := length (google_keys orig).
Let start := current_google_key_index orig.

Hypothesis Hstart : start < N.

(** The state of the loop after [j] attempts that did not return. *)
Definition after_attempts (j : nat) (eng : SearchEngine)
    (log : list ProviderCall) : Prop :=
  grown orig eng
  /\ current_google_key_index eng = place_after N start j
  /\ using_tavily eng = using_tavily orig
  /\ (forall s k, s < j ->
        google_keys eng !! place_after N start s = Some k -> exhausted k = true)
  /\ google_only orig log
  /\ length log <= j.

(** A search answered by Google. *)
Definition answered (r : Report) : Prop :=
  grown orig (engine r)
  /\ using_tavily (engine r) = using_tavily orig
  /\ google_only orig (provider_calls r)
  /\ length (provider_calls r) <= N
  /\ exists i k,
       last (provider_calls r) = Some (Google i)
       /\ google_keys (engine r) !! i = Some k
       /\ exhausted k = false
       /\ is_Some (results r)
       /\ results r = _search_google w query (api_key k) (cx_id k) num_results.

Lemma google_attempts_post (attempts : nat) :
  forall j eng log,
    j + attempts = N ->
    after_attempts j eng log ->
    match google_attempts w attempts query num_results eng log with
    | inl r => answered r
    | inr (eng', log') =>
        grown orig eng'
        /\ using_tavily eng' = using_tavily orig
        /\ Forall (fun k => exhausted k = true) (google_keys eng')
        /\ google_only orig log'
        /\ length log' <= N
    end.
Proof.
  induction attempts as [|attempts IH];
    intros j eng log Hj (Hgrown & Hidx & Htav & Hseen & Hlog & Hlen);
    cbn [google_attempts].
  - (* every key has been visited *)
    assert (j = N) as -> by lia.
    split; [exact Hgrown|]. split; [exact Htav|].
    split; [|split; [exact Hlog|exact Hlen]].
    apply Forall_lookup. intros i k Hk.
    destruct Hgrown as (Hl & _).
    destruct (place_after_onto0 N start i Hstart) as (t & Ht & Hp).
    { apply lookup_lt_Some in Hk. unfold N. lia. }
    apply (Hseen t k Ht). now rewrite Hp.
  - pose proof Hgrown as (Hl & Hclient & Hkeys).
    assert (current_google_key_index eng < length (google_keys eng)) as Hvalid.
    { rewrite Hidx, Hl. apply GeminiCallsFacts.place_after_lt. exact Hstart. }
    destruct (lookup_lt_is_Some_2 _ _ Hvalid) as [current_key Hcur]. rewrite Hcur.
    assert (Hnext : forall e,
               length (google_keys e) = N ->
               current_google_key_index e = place_after N start j ->
               current_google_key_index (_switch_google_key e)
               = place_after N start (S j)).
    { intros e He Hi. unfold _switch_google_key. cbn [current_google_key_index].
      rewrite He, Hi. now apply GeminiCallsFacts.place_after_next. }
    destruct (exhausted current_key) eqn:Hex.
    + (* an exhausted key is passed over *)
      apply (IH (S j)); [lia|].
      repeat split; trivial.
      * now apply Hnext.
      * intros s k Hs Hk. cbn [_switch_google_key google_keys] in Hk.
        destruct (decide (s = j)) as [->|Hne].
        -- rewrite <- Hidx, Hcur in Hk. now injection Hk as <-.
        -- apply (Hseen s k); [lia|exact Hk].
      * lia.
    + (* the key is tried *)
      assert (google_only orig (log ++ [Google (current_google_key_index eng)]))
        as Hlog'.
      { intros c Hc. apply elem_of_app in Hc. destruct Hc as [Hc|Hc]; [now apply Hlog|].
        apply list_elem_of_singleton in Hc. subst c.
        assert (is_Some (google_keys orig !! current_google_key_index eng))
          as [k0 Hk0] by (apply lookup_lt_is_Some_2; lia).
        exists (current_google_key_index eng), k0. repeat split; trivial.
        destruct (Hkeys _ _ Hk0) as (k & Hk & _ & _ & Hmono).
        rewrite Hcur in Hk. injection Hk as <-.
        destruct (exhausted k0); [|reflexivity]. rewrite Hmono in Hex; congruence. }
      destruct (_search_google w query (api_key current_key) (cx_id current_key)
                  num_results) as [found|] eqn:Hgoogle.
      * unfold answered. cbn [results engine provider_calls].
        repeat split; trivial.
        -- rewrite length_app. simpl. lia.
        -- exists (current_google_key_index eng), current_key.
           rewrite last_snoc, Hgoogle. repeat split; eauto.
      * apply (IH (S j)); [lia|].
        unfold after_attempts, grown.
        cbn [_switch_google_key mark_exhausted google_keys using_tavily
             tavily_client].
        split.
        { split; [now rewrite length_insert|]. split; [exact Hclient|].
          intros i k0 Hk0. destruct (Hkeys i k0 Hk0) as (k & Hk & Ha & Hc & Hm).
          destruct (decide (i = current_google_key_index eng)) as [->|Hne].
          - rewrite Hcur in Hk. injection Hk as <-.
            eexists. rewrite list_lookup_insert_eq by exact Hvalid.
            split; [reflexivity|]. cbn. auto.
          - exists k. rewrite list_lookup_insert_ne by congruence. auto. }
        split.
        { apply (Hnext (mark_exhausted eng current_key)).
          - cbn [mark_exhausted google_keys]. now rewrite length_insert.
          - exact Hidx. }
        split; [exact Htav|]. split; [|split; [exact Hlog'|]].
        -- intros s k Hs Hk.
           destruct (decide (place_after N start s = current_google_key_index eng))
             as [Heq|Hne].
           ++ rewrite Heq, list_lookup_insert_eq in Hk by exact Hvalid.
              now injection Hk as <-.
           ++ rewrite list_lookup_insert_ne in Hk by congruence.
              apply (Hseen s k); [|exact Hk].
              destruct (decide (s = j)) as [->|]; [congruence|lia].
        -- rewrite length_app. simpl. lia.
Qed.

End Attempts.

(** X11: what [search] does with the providers.  It always returns a list.
    Exhausted flags are only ever added.  Google is entered only with keys
    that were not flagged before the call, and only while the engine was not
    already on Tavily.  The engine ends on Tavily exactly when
    [_search_tavily] was entered, and it switches to Tavily only with every
    Google key flagged; once on Tavily, a search changes nothing and enters
    no other provider.  A search that stays on Google returns what Google
    answered for the key it last tried. *)
Theorem search_provider_discipline
    (w : Providers) (query : string) (num_results : nat) (self : SearchEngine) :
  current_google_key_index self < length (google_keys self) ->
  let r := search w query num_results self in
  is_Some (results r)
  /\ grown self (engine r)
  /\ (forall i, Google i ∈ provider_calls r ->
        using_tavily self = false
        /\ exists k0, google_keys self !! i = Some k0 /\ exhausted k0 = false)
  /\ (using_tavily (engine r) = true <-> Tavily ∈ provider_calls r)
  /\ (using_tavily (engine r) = true ->
        using_tavily self = true
        \/ Forall (fun k => exhausted k = true) (google_keys (engine r)))
  /\ (using_tavily self = true -> engine r = self /\ provider_calls r = [Tavily])
  /\ length (provider_calls r) <= S (length (google_keys self))
  /\ (using_tavily (engine r) = false ->
        exists i k,
          last (provider_calls r) = Some (Google i)
          /\ google_keys (engine r) !! i = Some k
          /\ exhausted k = false
          /\ results r = _search_google w query (api_key k) (cx_id k) num_results).
Proof.
  intros Hvalid r. subst r. unfold search.
  destruct (using_tavily self) eqn:Htav.
  - cbn [results engine provider_calls]. rewrite Htav.
    split; [eauto|]. split; [apply grown_refl|].
    split; [intros i Hi; apply list_elem_of_singleton in Hi; discriminate|].
    split; [split; [intros _; now apply list_elem_of_singleton|reflexivity]|].
    split; [auto|]. split; [auto|]. split; [simpl; lia|discriminate].
  - pose proof (google_attempts_post w query num_results self Hvalid
                  (length (google_keys self)) 0 self [] ltac:(lia)) as Hpost.
    destruct (google_attempts w (length (google_keys self)) query num_results self [])
      as [r|[eng log]].
    + destruct Hpost as (Hgrown & Hstay & Hlog & Hlen & i & k & Hlast & Hk & Hex & Hsome & Hres).
      { repeat split; trivial.
        - apply grown_refl.
        - unfold GeminiCallsFacts.place_after. rewrite Nat.add_0_r.
          symmetry. now apply Nat.mod_small.
        - intros s k Hs. lia.
        - intros c Hc. now apply elem_of_nil in Hc. }
      rewrite Hstay, Htav.
      split; [exact Hsome|]. split; [exact Hgrown|]. split.
      { intros j Hj. split; [reflexivity|].
        destruct (Hlog _ Hj) as (j' & k0 & [= <-] & Hk0 & Hf). eauto. }
      split.
      { split; [discriminate|]. intros Hin.
        destruct (Hlog _ Hin) as (j' & k0 & Hc & _). discriminate Hc. }
      split; [discriminate|]. split; [discriminate|]. split; [lia|].
      intros _. exists i, k. auto.
    + destruct Hpost as (Hgrown & Hstay & Hall & Hlog & Hlen).
      { repeat split; trivial.
        - apply grown_refl.
        - unfold GeminiCallsFacts.place_after. rewrite Nat.add_0_r.
          symmetry. now apply Nat.mod_small.
        - intros s k Hs. lia.
        - intros c Hc. now apply elem_of_nil in Hc. }
      cbn [results engine provider_calls set_using_tavily using_tavily google_keys].
      split; [eauto|]. split.
      { destruct Hgrown as (Hl & Hc & Hkeys). repeat split; trivial. }
      split.
      { intros j Hj. split; [reflexivity|].
        apply elem_of_app in Hj. destruct Hj as [Hj|Hj].
        - destruct (Hlog _ Hj) as (j' & k0 & [= <-] & Hk0 & Hf). eauto.
        - apply list_elem_of_singleton in Hj. discriminate. }
      split.
      { split; [intros _|reflexivity]. apply elem_of_app. right.
        now apply list_elem_of_singleton. }
      split; [auto|]. split; [discriminate|].
      split; [rewrite length_app; simpl; lia|discriminate].
Qed.

(** An engine whose first key is already exhausted; Google rejects the
    second key as well. *)
Definition half_spent_engine : SearchEngine :=
  {| google_keys := [ {| api_key := "g0"; cx_id := "cx0"; exhausted := true |};
                      {| api_key := "g1"; cx_id := "cx1"; exhausted := false |} ];
     current_google_key_index := 0;
     tavily_client := true;
     using_tavily := false |}.

Definition google_down : Providers :=
  {| _search_google := fun _ _ _ _ => None;
     tavily_search := fun _ _ =>
       Some [ {| SanityCheck.title := Some "t";
                 SanityCheck.link := Some "https://example.org/";
                 SanityCheck.url := None |} ] |}.

Lemma search_provider_discipline_witness :
  let r := search google_down "query" 5 half_spent_engine in
  is_Some (results r)
  /\ grown half_spent_engine (engine r)
  /\ (forall i, Google i ∈ provider_calls r ->
        using_tavily half_spent_engine = false
        /\ exists k0, google_keys half_spent_engine !! i = Some k0
                      /\ exhausted k0 = false)
  /\ (using_tavily (engine r) = true <-> Tavily ∈ provider_calls r)
  /\ (using_tavily (engine r) = true ->
        using_tavily half_spent_engine = true
        \/ Forall (fun k => exhausted k = true) (google_keys (engine r)))
  /\ (using_tavily half_spent_engine = true ->
        engine r = half_spent_engine /\ provider_calls r = [Tavily])
  /\ length (provider_calls r) <= S (length (google_keys half_spent_engine))
  /\ (using_tavily (engine r) = false ->
        exists i k,
          last (provider_calls r) = Some (Google i)
          /\ google_keys (engine r) !! i = Some k
          /\ exhausted k = false
          /\ results r = _search_google google_down "query" (api_key k) (cx_id k) 5).
Proof.
  apply (search_provider_discipline google_down "query" 5 half_spent_engine).
  simpl. lia.
Defined.

Example half_spent_engine_falls_back :
  provider_calls (search google_down "query" 5 half_spent_engine) = [Google 1; Tavily]
  /\ using_tavily (engine (search google_down "query" 5 half_spent_engine)) = true
  /\ provider_calls
       (search google_down "query" 5
          (engine (search google_down "query" 5 half_spent_engine)))
     = [Tavily].
Proof. repeat split. Qed.

End SearchEngineFacts.

(** ** No page is processed twice *)

Set Warnings "-clear-no-such-hyp".

Module ExecuteQueryFacts.

Import ExecuteQuery.

(** The results the loop deals with before it ends: all of them, or those
    before the already scraped result whose title is [None]. *)
Fixpoint handled (results : list SearchResult) (scraped : gset (option string))
  : list SearchResult :=
  match results with
  | [] => []
  | result :: rest =>
      if decide (result_url result ∈ scraped) then
        match result_title result with
        | None => []
        | Some _ => result :: handled rest scraped
        end
      else result :: handled rest ({[ result_url result ]} ∪ scraped)
  end.

Lemma handled_prefix (results : list SearchResult) :
  forall scraped, handled results scraped `prefix_of` results.
Proof.
  induction results as [|result rest IH]; intros scraped; cbn [handled];
    [reflexivity|].
  destruct (decide (result_url result ∈ scraped));
    [destruct (result_title result); [|apply prefix_nil]|];
    apply prefix_cons, IH.
Qed.

(** A result list none of whose already known URLs comes with a [None]
    title is dealt with to the end. *)
Lemma handled_all (results : list SearchResult) :
  forall scraped,
    Forall (fun result => result_title result <> None) results ->
    handled results scraped = results.
Proof.
  induction results as [|result rest IH]; intros scraped Hall; cbn [handled];
    [reflexivity|].
  apply Forall_cons in Hall as [Hresult Hrest].
  destruct (decide (result_url result ∈ scraped));
    [destruct (result_title result); [|congruence]|];
    f_equal; now apply IH.
Qed.

Lemma select_urls_post (results : list SearchResult) :
  forall sel,
    NoDup (submitted sel) ->
    (forall u, u ∈ submitted sel -> u ∈ scraped_urls sel) ->
    let out := select_urls results sel in
    let sel' := selection out in
    let done := handled results (scraped_urls sel) in
    NoDup (submitted sel')
    /\ (exists new, submitted sel' = submitted sel ++ new
                    /\ forall u, u ∈ new <->
                         u ∈ map result_url done /\ u ∉ scraped_urls sel)
    /\ scraped_urls sel'
       = scraped_urls sel ∪ list_to_set (map result_url done)
    /\ (length (submitted sel') + skipped sel'
        = length (submitted sel) + skipped sel + length done)%nat
    /\ (out = Returned sel' /\ done = results
        \/ out = TypeError sel'
           /\ exists result rest,
                results = done ++ result :: rest
                /\ result_title result = None
                /\ result_url result ∈ scraped_urls sel').
Proof.
  induction results as [|result rest IH]; intros sel Hnd Hsub;
    cbn [select_urls handled].
  - cbn. split; [exact Hnd|]. split.
    + exists []. rewrite app_nil_r. split; [reflexivity|].
      intros u. split; [intros H; now apply elem_of_nil in H|].
      intros [H _]. now apply elem_of_nil in H.
    + split; [set_solver|]. split; [lia|]. left. auto.
  - destruct (decide (result_url result ∈ scraped_urls sel)) as [Hin|Hin].
    + destruct (result_title result) as [t|] eqn:Htitle.
      * destruct (IH {| submitted := submitted sel; skipped := S (skipped sel);
                        scraped_urls := scraped_urls sel |} Hnd Hsub)
          as (Hnd' & (new & Hnew & Hiff) & Hset & Hcount & Hout).
        cbn [submitted skipped scraped_urls] in *.
        split; [exact Hnd'|]. split.
        { exists new. split; [exact Hnew|]. intros u. rewrite Hiff.
          cbn [map]. rewrite elem_of_cons. split; [tauto|].
          intros [[->|H] Hno]; [contradiction|tauto]. }
        split; [rewrite Hset; cbn [map]; set_solver|].
        split; [cbn [length]; lia|].
        destruct Hout as [[Hret Hdone]|(Herr & r & rest' & Hres & Ht & Hu)].
        -- left. split; [exact Hret|]. now f_equal.
        -- right. split; [exact Herr|]. exists r, rest'.
           split; [cbn [app]; now f_equal|]. auto.
      * cbn [selection map length]. split; [exact Hnd|]. split.
        { exists []. rewrite app_nil_r. split; [reflexivity|].
          intros u. split; [intros H; now apply elem_of_nil in H|].
          intros [H _]. now apply elem_of_nil in H. }
        split; [set_solver|]. split; [lia|].
        right. split; [reflexivity|]. exists result, rest. auto.
    + destruct (IH {| submitted := submitted sel ++ [result_url result];
                      skipped := skipped sel;
                      scraped_urls := {[ result_url result ]} ∪ scraped_urls sel |})
        as (Hnd' & (new & Hnew & Hiff) & Hset & Hcount & Hout).
      { cbn [submitted]. apply NoDup_app. split; [exact Hnd|].
        split; [|apply NoDup_singleton].
        intros u Hu Hu'. apply list_elem_of_singleton in Hu'. subst u. auto. }
      { cbn [submitted scraped_urls]. intros u Hu.
        apply elem_of_app in Hu. destruct Hu as [Hu|Hu].
        - apply elem_of_union_r. auto.
        - apply list_elem_of_singleton in Hu. subst u. set_solver. }
      cbn [submitted skipped scraped_urls] in *.
      split; [exact Hnd'|]. split.
      { exists (result_url result :: new). split.
        - rewrite Hnew, <- app_assoc. reflexivity.
        - intros u. cbn [map]. rewrite !elem_of_cons, Hiff. split.
          + intros [->|[H1 H2]]; [tauto|]. split; [tauto|]. set_solver.
          + intros [[->|H1] H2]; [tauto|].
            destruct (decide (u = result_url result)) as [->|Hne]; [tauto|].
            right. split; [exact H1|]. set_solver. }
      split; [rewrite Hset; cbn [map]; set_solver|].
      split; [rewrite length_app in Hcount; cbn [length] in *; lia|].
      destruct Hout as [[Hret Hdone]|(Herr & r & rest' & Hres & Ht & Hu)].
      * left. split; [exact Hret|]. now f_equal.
      * right. split; [exact Herr|]. exists r, rest'.
        split; [cbn [app]; now f_equal|]. auto.
Qed.

(** X12: the URL bookkeeping of [_execute_query].  The loop deals with the
    top three results in order, to the end (always so when no result has
    a [None] title) or up to an already scraped result whose title is
    [None], where [title[:50]] raises [TypeError].  Of the results dealt
    with it submits exactly the URLs that were not in [scraped_urls], each
    one once, and skips the others; afterwards those URLs are in
    [scraped_urls], which never loses a member. *)
Theorem execute_query_submits_each_new_url_once
    (search_results : list SearchResult) (scraped : gset (option string)) :
  let out := _execute_query search_results scraped in
  let sel := selection out in
  let done := handled (take 3 search_results) scraped in
  done `prefix_of` take 3 search_results
  /\ NoDup (submitted sel)
  /\ (forall u, u ∈ submitted sel <->
        u ∈ map result_url done /\ u ∉ scraped)
  /\ scraped_urls sel = scraped ∪ list_to_set (map result_url done)
  /\ (length (submitted sel) + skipped sel = length done)%nat
  /\ length (submitted sel) <= 3
  /\ (out = Returned sel /\ done = take 3 search_results
      \/ out = TypeError sel
         /\ exists result rest,
              take 3 search_results = done ++ result :: rest
              /\ result_title result = None
              /\ result_url result ∈ scraped_urls sel)
  /\ (Forall (fun result => result_title result <> None)
             (take 3 search_results) ->
      out = Returned sel /\ done = take 3 search_results).
Proof.
  intros out sel done. subst out sel done. unfold _execute_query.
  destruct (select_urls_post (take 3 search_results)
              {| submitted := []; skipped := 0; scraped_urls := scraped |})
    as (Hnd & (new & Hnew & Hiff) & Hset & Hcount & Hout).
  { constructor. }
  { intros u Hu. now apply elem_of_nil in Hu. }
  cbn [submitted skipped scraped_urls app length] in *.
  pose proof (handled_prefix (take 3 search_results) scraped) as Hpre.
  split; [exact Hpre|]. split; [exact Hnd|]. split; [now rewrite Hnew|].
  split; [exact Hset|]. split; [lia|].
  split.
  { apply prefix_length in Hpre. rewrite length_take in Hpre. lia. }
  split; [exact Hout|].
  intros Hall. rewrite (handled_all _ scraped Hall) in *.
  destruct Hout as [Hret|(_ & result & rest & Hres & _)]; [exact Hret|].
  exfalso. apply (f_equal length) in Hres.
  rewrite length_app in Hres. cbn [length] in Hres. lia.
Qed.

(** Two results with known URLs, the first one without a title: the loop
    ends at once, and the second result is never looked at. *)
Example none_title_on_a_known_url :
  _execute_query
    [ {| title := Null; link := Some "https://a.org"; url := None |};
      {| title := Text "b"; link := Some "https://b.org"; url := None |} ]
    {[ Some "https://a.org" ]}
  = TypeError {| submitted := []; skipped := 0;
                 scraped_urls := {[ Some "https://a.org" ]} |}.
Proof.
  unfold _execute_query. cbn [take select_urls result_url link url
    PyStr.truthy_opt PyStr.truthy scraped_urls].
  rewrite decide_True by (apply elem_of_singleton; reflexivity).
  reflexivity.
Qed.

(** X13: a run resumed from a checkpoint does not process again a URL that
    was in the scraped set when the checkpoint was saved. *)
Theorem resumed_run_skips_saved_urls
    (self restored : Checkpoint.ResearchSystem)
    (timestamp user_prompt : string) (research_plan : Checkpoint.json)
    (current_step : Z) (search_results : list SearchResult)
    (u : option string) :
  Checkpoint._load_checkpoint Checkpoint.new_system
    (Checkpoint._save_checkpoint self timestamp user_prompt research_plan
       current_step)
  = Some restored ->
  u ∈ Checkpoint.scraped_urls self ->
  u ∉ submitted (selection (_execute_query search_results
                              (Checkpoint.scraped_urls restored))).
Proof.
  intros Hload Hsaved Hsub.
  rewrite CheckpointFacts.load_save in Hload. injection Hload as <-.
  unfold _execute_query in Hsub.
  destruct (select_urls_post (take 3 search_results)
              {| submitted := []; skipped := 0;
                 scraped_urls := Checkpoint.scraped_urls self |})
    as (_ & (new & Hnew & Hiff) & _).
  { constructor. }
  { intros v Hv. now apply elem_of_nil in Hv. }
  rewrite Hnew in Hsub. cbn [submitted app scraped_urls] in Hsub, Hiff.
  apply Hiff in Hsub. tauto.
Qed.

Definition saved_system : Checkpoint.ResearchSystem :=
  {| Checkpoint.all_collected_facts := [];
     Checkpoint.scraped_urls := {[ Some "https://a.org" ]} |}.

Lemma resumed_run_witness :
  Some "https://a.org"
  ∉ submitted
      (selection
         (_execute_query
            [ {| title := Text "a"; link := Some "https://a.org"; url := None |} ]
            (Checkpoint.scraped_urls saved_system))).
Proof.
  apply (resumed_run_skips_saved_urls saved_system saved_system
           "2025-01-01T00:00:00" "question" (Checkpoint.JDict []) 1).
  - apply CheckpointFacts.load_save.
  - unfold saved_system. cbn [Checkpoint.scraped_urls].
    apply elem_of_singleton. reflexivity.
Defined.

End ExecuteQueryFacts.

(** ** The quality-convergence loop: budgets and early exits *)

Module StepLoopMoreFacts.

Import Scheduler StepLoop StepLoopFacts.

Section Growth.

Variables (w : World) (step : Step) (step_facts_start : nat).

(** From [st] to [st'] the accumulators have only been appended to, by at
    most [budget] queries. *)
Definition appended (budget : nat) (st st' : State) : Prop :=
  all_collected_facts st `prefix_of` all_collected_facts st'
  /\ step_sources st `prefix_of` step_sources st'
  /\ all_queries_tried st `prefix_of` all_queries_tried st'
  /\ length (all_queries_tried st')
     <= length (all_queries_tried st) + budget.

Lemma appended_refl st : appended 0 st st.
Proof. repeat split; try reflexivity. lia. Qed.

Lemma appended_trans b1 b2 st1 st2 st3 :
  appended b1 st1 st2 -> appended b2 st2 st3 -> appended (b1 + b2) st1 st3.
Proof.
  intros (F1 & S1 & Q1 & L1) (F2 & S2 & Q2 & L2).
  repeat split; try (etransitivity; eassumption). lia.
Qed.

Definition flow_state (f : Flow) : State :=
  match f with Next st | Break st | Crash st => st end.

Lemma search_and_evaluate_appends (queries : list string) (st : State) :
  appended max_queries_per_step st
    (flow_state (search_and_evaluate w step step_facts_start queries st)).
Proof.
  unfold search_and_evaluate.
  destruct (is_nil (take max_queries_per_step queries)).
  { repeat split; try reflexivity. cbn. lia. }
  assert (appended max_queries_per_step st
            (execute_queries w (take max_queries_per_step queries) st)) as Hrun.
  { unfold execute_queries. destruct (run_queries w _ _) as [facts sources].
    repeat split; cbn [all_collected_facts step_sources all_queries_tried];
      try apply prefix_app_r; try reflexivity.
    rewrite length_app, length_take. lia. }
  set (st1 := execute_queries w (take max_queries_per_step queries) st) in *.
  destruct (is_nil (drop step_facts_start (all_collected_facts st1)));
    [exact Hrun|].
  destruct (threshold_met _); [exact Hrun|].
  destruct (1 <? iteration _)%nat; [|exact Hrun].
  destruct (second_to_last _); [|exact Hrun].
  destruct (PrimFloat.ltb _ _); exact Hrun.
Qed.

Lemma loop_body_appends (st : State) :
  appended max_queries_per_step st
    (flow_state (loop_body w step step_facts_start st))
  /\ iteration (flow_state (loop_body w step step_facts_start st))
     = S (iteration st).
Proof.
  split; [|pose proof (loop_body_post w step step_facts_start st) as H;
           destruct (loop_body w step step_facts_start st);
           cbn [flow_post flow_state] in *; apply H].
  unfold loop_body.
  assert (Hse : forall queries,
             appended max_queries_per_step st
               (flow_state (search_and_evaluate w step step_facts_start queries
                              (begin_iteration st)))).
  { intros queries.
    destruct (search_and_evaluate_appends queries (begin_iteration st))
      as (F & S & Q & L). repeat split; assumption. }
  destruct (iteration (begin_iteration st) =? 1)%nat; [apply Hse|].
  destruct (last_evaluation (begin_iteration st)) as [last|].
  - destruct (is_nil (missing_aspects last)).
    + repeat split; try reflexivity. cbn. lia.
    + destruct (is_nil (identify_knowledge_gaps w _ _ _ _ _)); [|apply Hse].
      repeat split; try reflexivity. cbn. lia.
  - repeat split; try reflexivity. cbn. lia.
Qed.

Lemma while_loop_appends (fuel : nat) :
  forall st e,
    while_loop fuel w step step_facts_start st = Some e ->
    iteration st <= iteration (final_state e)
    /\ appended (max_queries_per_step * (iteration (final_state e) - iteration st))
         st (final_state e).
Proof.
  induction fuel as [|fuel IH]; intros st e; cbn [while_loop].
  - destruct (_ && _); [discriminate|]. intros [= <-]. cbn [final_state].
    split; [lia|]. rewrite Nat.sub_diag, Nat.mul_0_r. apply appended_refl.
  - destruct (_ && _).
    2:{ intros [= <-]. cbn [final_state]. split; [lia|].
        rewrite Nat.sub_diag, Nat.mul_0_r. apply appended_refl. }
    destruct (loop_body_appends st) as [Happ Hit].
    destruct (loop_body w step step_facts_start st) as [st'|st'|st'];
      cbn [flow_state] in *.
    + intros Hrest. destruct (IH _ _ Hrest) as [Hle Happ'].
      split; [lia|].
      replace (iteration (final_state e) - iteration st)
        with (S (iteration (final_state e) - iteration st')) by lia.
      rewrite Nat.mul_succ_r, Nat.add_comm.
      eapply appended_trans; eassumption.
    + intros [= <-]. cbn [final_state]. split; [lia|].
      rewrite Hit. replace (S (iteration st) - iteration st) with 1 by lia.
      now rewrite Nat.mul_1_r.
    + intros [= <-]. cbn [final_state]. split; [lia|].
      rewrite Hit. replace (S (iteration st) - iteration st) with 1 by lia.
      now rewrite Nat.mul_1_r.
Qed.

End Growth.

(** X14: the step loop only appends to the shared fact list (the facts
    present when the step starts are still there, in place, when it ends)
    and submits at most 5 queries per iteration, hence at most 15 for the
    step. *)
Theorem step_appends_facts_within_query_budget
    (w : World) (step : Step) (facts : list Fact) :
  exists e,
    _execute_step w step facts = Some e
    /\ facts `prefix_of` all_collected_facts (final_state e)
    /\ length (all_queries_tried (final_state e))
       <= 5 * iteration (final_state e)
    /\ length (all_queries_tried (final_state e)) <= 15.
Proof.
  destruct (_execute_step_post w step facts) as (e & He & Hmax & _).
  exists e. split; [exact He|].
  destruct (while_loop_appends w step (length facts) _ _ _ He)
    as (_ & Hf & _ & _ & Hq).
  cbn [initial_state iteration all_collected_facts all_queries_tried length] in *.
  rewrite Nat.sub_0_r in Hq.
  change max_queries_per_step with 5 in Hq.
  change max_iterations_per_step with 3 in Hmax.
  split; [exact Hf|]. split; lia.
Qed.

Section FirstIteration.

Variables (w : World) (step : Step) (facts : list Fact).

Let first_queries := take max_queries_per_step (search_queries step).
Let found := (run_queries w 1 first_queries).1.
Let sources := (run_queries w 1 first_queries).2.
Let first_evaluation :=
  StepLoop.evaluate_research_quality w (action step) found sources 1.

(** The state after a first iteration that found facts. *)
Definition after_first_iteration : State :=
  {| iteration := 1;
     quality_met := false;
     last_evaluation := Some first_evaluation;
     all_collected_facts := facts ++ found;
     all_queries_tried := first_queries;
     step_sources := sources;
     quality_scores := [overall_score first_evaluation];
     output := [IterationBanner 1] |}.

Lemma first_iteration_with_facts :
  search_queries step <> [] ->
  found <> [] ->
  loop_body w step (length facts) (initial_state facts)
  = if threshold_met first_evaluation
    then Break (set_quality_met (print ThresholdMet after_first_iteration))
    else Next after_first_iteration.
Proof.
  intros Hq Hfound. unfold loop_body, search_and_evaluate, after_first_iteration.
  cbn [begin_iteration initial_state iteration Nat.eqb].
  fold first_queries.
  assert (is_nil first_queries = false) as ->.
  { unfold first_queries. destruct (search_queries step); [congruence|reflexivity]. }
  unfold execute_queries.
  cbn [iteration begin_iteration initial_state quality_met last_evaluation
       all_collected_facts all_queries_tried step_sources quality_scores
       output app].
  unfold first_evaluation, found, sources in *.
  destruct (run_queries w 1 first_queries) as [new srcs]. cbn [fst snd] in *.
  cbn [all_collected_facts step_sources iteration app].
  rewrite drop_app_length.
  destruct new as [|f new]; [congruence|]. cbn [is_nil].
  cbn [evaluated iteration quality_scores record_iteration app Nat.ltb Nat.leb
       quality_met last_evaluation all_collected_facts all_queries_tried
       step_sources output].
  destruct (threshold_met _); reflexivity.
Qed.

End FirstIteration.

(** X15: when the first iteration finds facts and its evaluation meets
    the threshold, the step ends after that single iteration with
    [quality_met] set: one score recorded, only the step's own queries (at
    most 5) submitted, and no refined query asked for. *)
Theorem threshold_met_at_first_iteration_ends_step
    (w : World) (step : Step) (facts : list Fact) :
  search_queries step <> [] ->
  (run_queries w 1 (take 5 (search_queries step))).1 <> [] ->
  threshold_met
    (StepLoop.evaluate_research_quality w (action step)
       (run_queries w 1 (take 5 (search_queries step))).1
       (run_queries w 1 (take 5 (search_queries step))).2 1) = true ->
  exists st,
    _execute_step w step facts = Some (Finished st)
    /\ iteration st = 1
    /\ quality_met st = true
    /\ length (quality_scores st) = 1
    /\ all_queries_tried st = take 5 (search_queries step)
    /\ output st = [IterationBanner 1; ThresholdMet].
Proof.
  intros Hq Hfound Hmet.
  unfold _execute_step. cbn [while_loop max_iterations_per_step].
  cbn [initial_state iteration quality_met Nat.ltb Nat.leb andb negb].
  change (loop_body w step (length facts)
            {| iteration := 0; quality_met := false; last_evaluation := None;
               all_collected_facts := facts; all_queries_tried := [];
               step_sources := []; quality_scores := []; output := [] |})
    with (loop_body w step (length facts) (initial_state facts)).
  rewrite (first_iteration_with_facts w step facts Hq Hfound).
  change max_queries_per_step with 5. rewrite Hmet.
  eexists. split; [reflexivity|]. repeat split.
Qed.

(** A world whose first page yields a fact and whose evaluator is satisfied
    at once. *)
Definition easy_world : World :=
  {| run_queries := fun _ _ =>
       ([{| fact := "a finding"; source := "https://example.org/a" |}],
        ["https://example.org/a"]);
     StepLoop.evaluate_research_quality := fun _ _ _ _ =>
       {| overall_score := 0.9%float; threshold_met := true;
          missing_aspects := [] |};
     StepLoop.identify_knowledge_gaps := fun _ _ _ _ _ => ["unused"] |}.

Lemma threshold_met_witness :
  exists st,
    _execute_step easy_world survey_step [] = Some (Finished st)
    /\ iteration st = 1
    /\ quality_met st = true
    /\ length (quality_scores st) = 1
    /\ all_queries_tried st = take 5 (search_queries survey_step)
    /\ output st = [IterationBanner 1; ThresholdMet].
Proof.
  apply (threshold_met_at_first_iteration_ends_step easy_world survey_step []).
  - discriminate.
  - discriminate.
  - reflexivity.
Defined.

(** X16: when the evaluator fails at every call, so that the conservative
    default evaluation (0.5, threshold not met) stands in each time, a step
    whose first iteration finds facts ends after exactly two iterations,
    without [quality_met]: the second one either gets no refined query or
    shows no improvement. *)
Theorem failing_evaluator_ends_step_at_second_iteration
    (w : World) (step : Step) (facts : list Fact) :
  (forall objective extracted sources iteration,
      StepLoop.evaluate_research_quality w objective extracted sources iteration
      = QualityEvaluator.evaluate_research_quality (fun _ _ _ _ => None)
          objective extracted sources iteration) ->
  search_queries step <> [] ->
  (run_queries w 1 (take 5 (search_queries step))).1 <> [] ->
  exists st,
    _execute_step w step facts = Some (Finished st)
    /\ iteration st = 2
    /\ quality_met st = false
    /\ (last (output st) = Some DiminishingReturns
        \/ last (output st) = Some NoRefinedQueries).
Proof.
  intros Hfail Hq Hfound.
  assert (Hev : forall o f s i,
             StepLoop.evaluate_research_quality w o f s i
             = QualityEvaluator.default_evaluation)
    by (intros; now rewrite Hfail).
  unfold _execute_step. cbn [while_loop max_iterations_per_step].
  cbn [initial_state iteration quality_met Nat.ltb Nat.leb andb negb].
  change (loop_body w step (length facts)
            {| iteration := 0; quality_met := false; last_evaluation := None;
               all_collected_facts := facts; all_queries_tried := [];
               step_sources := []; quality_scores := []; output := [] |})
    with (loop_body w step (length facts) (initial_state facts)).
  rewrite (first_iteration_with_facts w step facts Hq Hfound).
  change max_queries_per_step with 5 in *.
  rewrite Hev. cbn [threshold_met QualityEvaluator.default_evaluation].
  unfold after_first_iteration. rewrite Hev.
  change max_queries_per_step with 5 in *.
  remember (take 5 (search_queries step)) as first_queries eqn:E1. clear E1.
  destruct (run_queries w 1 first_queries) as [found sources].
  cbn [fst snd] in *.
  destruct found as [|f found]; [congruence|].
  cbn [iteration quality_met Nat.ltb Nat.leb andb negb max_iterations_per_step].
  unfold loop_body.
  cbn [begin_iteration iteration Nat.eqb last_evaluation
       QualityEvaluator.default_evaluation missing_aspects is_nil
       all_collected_facts all_queries_tried quality_met step_sources
       quality_scores output].
  rewrite drop_app_length.
  destruct (StepLoop.identify_knowledge_gaps w 2 _ _ _ _) as [|q refined].
  { cbn [is_nil]. eexists. split; [reflexivity|]. cbn. auto. }
  cbn [is_nil]. unfold search_and_evaluate.
  change (take max_queries_per_step (q :: refined)) with (q :: take 4 refined).
  cbn [is_nil]. unfold execute_queries.
  cbn [begin_iteration iteration quality_met last_evaluation
       all_collected_facts all_queries_tried step_sources quality_scores
       output].
  destruct (run_queries w 2 (q :: take 4 refined)) as [new2 srcs2].
  cbn [all_collected_facts step_sources iteration].
  rewrite <- app_assoc, drop_app_length.
  cbn [app is_nil]. rewrite Hev.
  cbn [threshold_met overall_score QualityEvaluator.default_evaluation
       evaluated iteration quality_scores record_iteration app Nat.ltb Nat.leb
       quality_met last_evaluation all_collected_facts all_queries_tried
       step_sources output].
  assert (second_to_last [0.5%float; 0.5%float] = Some 0.5%float) as -> by reflexivity.
  assert (PrimFloat.ltb (PrimFloat.sub 0.5 0.5) 0.05 = true)%float as ->
    by (vm_compute; reflexivity).
  eexists. split; [reflexivity|]. cbn. auto.
Qed.

(** A world in which pages yield facts, the evaluator always fails and the
    query refiner fails too (its fallback query is used). *)
Definition broken_llm_world : World :=
  {| run_queries := fun _ _ =>
       ([{| fact := "a finding"; source := "https://example.org/a" |}],
        ["https://example.org/a"]);
     StepLoop.evaluate_research_quality :=
       QualityEvaluator.evaluate_research_quality (fun _ _ _ _ => None);
     StepLoop.identify_knowledge_gaps :=
       QualityEvaluator.identify_knowledge_gaps (fun _ _ _ _ _ => None) |}.

Lemma failing_evaluator_witness :
  exists st,
    _execute_step broken_llm_world survey_step [] = Some (Finished st)
    /\ iteration st = 2
    /\ quality_met st = false
    /\ (last (output st) = Some DiminishingReturns
        \/ last (output st) = Some NoRefinedQueries).
Proof.
  apply (failing_evaluator_ends_step_at_second_iteration
           broken_llm_world survey_step []).
  - reflexivity.
  - discriminate.
  - discriminate.
Defined.

Example broken_llm_run :
  (all_queries_tried <$> (final_state <$> _execute_step broken_llm_world survey_step []))
  = Some ["survey"; "Survey the field detailed implementation guide"].
Proof. vm_compute. reflexivity. Qed.

End StepLoopMoreFacts.

(** ** More facts about the batches of [_create_execution_batches] *)

Module SchedulerMoreFacts.

Import PyStr Scheduler SchedulerFacts.

Section Shape.

Variable n_steps : nat.

(** Steps that all carry a dependency leave the loop one per batch. *)
Lemma while_remaining_dependent (l : list Step) :
  forall batches,
    Forall (fun step => has_dependency n_steps step = true) l ->
    while_remaining n_steps l batches
    = batches ++ map (fun step => [step]) l.
Proof.
  induction l as [|x l IH]; intros batches Hdep.
  - simp while_remaining. now rewrite app_nil_r.
  - apply Forall_cons in Hdep as [_ Hl].
    rewrite while_remaining_cons.
    assert (List.filter (has_dependency n_steps) l = l) as ->.
    { clear IH. induction Hl as [|y l Hy _ IHl]; [reflexivity|].
      cbn [List.filter]. rewrite Hy. now f_equal. }
    assert (List.filter (fun step => negb (has_dependency n_steps step)) l = [])
      as ->.
    { clear IH. induction Hl as [|y l Hy _ IHl]; [reflexivity|].
      cbn [List.filter]. now rewrite Hy. }
    rewrite (IH _ Hl), <- app_assoc. reflexivity.
Qed.

Lemma filter_dependent (l : list Step) :
  Forall (fun step => has_dependency n_steps step = true)
         (List.filter (has_dependency n_steps) l).
Proof.
  induction l as [|x l IH]; [constructor|]. cbn [List.filter].
  destruct (has_dependency n_steps x) eqn:Hx; [constructor|]; assumption.
Qed.

End Shape.

(** X17: the shape of the batches.  Only the first batch can hold more
    than one step: it is the first step of the plan followed by every
    later step without a dependency (no keyword in its text, and not
    numbered [len(steps)]), in plan order.  Each step with a dependency
    then forms a batch of its own, again in plan order. *)
Theorem only_first_batch_is_parallel (first : Step) (rest : list Step) :
  let n_steps := length (first :: rest) in
  _create_execution_batches (first :: rest)
  = (first :: List.filter (fun step => negb (has_dependency n_steps step)) rest)
    :: map (fun step => [step]) (List.filter (has_dependency n_steps) rest).
Proof.
  intros n_steps. unfold _create_execution_batches. fold n_steps.
  rewrite while_remaining_cons.
  rewrite (while_remaining_dependent n_steps _ _ (filter_dependent n_steps rest)).
  reflexivity.
Qed.

End SchedulerMoreFacts.

(** ** Facts about the sufficiency judge and its caller *)

Module SanityCheckerFacts.

Import PyStr SanityCheck SanityChecker.

Lemma string_app_assoc (a b c : string) : (a +:+ b) +:+ c = a +:+ (b +:+ c).
Proof.
  induction a as [|ch a IH]; [reflexivity|].
  rewrite !PyStrFacts.append_cons. now rewrite IH.
Qed.

Lemma string_app_nil_r (a : string) : a +:+ "" = a.
Proof.
  induction a as [|ch a IH]; [reflexivity|].
  rewrite PyStrFacts.append_cons. now rewrite IH.
Qed.

Lemma string_app_length (a b : string) :
  String.length (a +:+ b) = String.length a + String.length b.
Proof.
  induction a as [|ch a IH]; [reflexivity|].
  rewrite PyStrFacts.append_cons. cbn [String.length]. now rewrite IH.
Qed.

Lemma facts_text_from (text : string) (facts : list Fact) :
  fold_left (fun text item => text +:+ fact_line item) facts text
  = text +:+ facts_text facts.
Proof.
  unfold facts_text. revert text.
  induction facts as [|item facts IH]; intros text; cbn [fold_left].
  - now rewrite string_app_nil_r.
  - rewrite (IH (text +:+ fact_line item)), (IH ("" +:+ fact_line item)).
    change ("" +:+ fact_line item) with (fact_line item).
    apply string_app_assoc.
Qed.

Lemma facts_text_app (facts more : list Fact) :
  facts_text (facts ++ more) = facts_text facts +:+ facts_text more.
Proof.
  unfold facts_text at 1. rewrite fold_left_app.
  fold (facts_text facts). apply facts_text_from.
Qed.

Lemma slice_to_app (n : nat) (a b : string) :
  n <= String.length a -> slice_to n (a +:+ b) = slice_to n a.
Proof.
  revert a. induction n as [|n IH]; intros a Hn; [reflexivity|].
  destruct a as [|ch a]; cbn [String.length] in Hn; [lia|].
  rewrite PyStrFacts.append_cons. cbn [slice_to]. f_equal. apply IH. lia.
Qed.

(** X18: the judge reads at most the first 20000 characters of the fact
    list's text: once the facts collected so far fill them, facts added
    later cannot change the verdict. *)
Theorem verdict_ignores_facts_past_20000_characters
    (ask : string -> string -> option Verdict) (original_prompt : string)
    (facts more : list Fact) :
  20000 <= String.length (facts_text facts) ->
  check_global_sufficiency ask original_prompt (facts ++ more)
  = check_global_sufficiency ask original_prompt facts.
Proof.
  intros Hfull. unfold check_global_sufficiency.
  now rewrite facts_text_app, slice_to_app.
Qed.

Fixpoint padding (n : nat) : string :=
  match n with
  | O => EmptyString
  | S n' => String (Ascii.ascii_of_nat 120) (padding n')
  end.

Definition long_fact : Fact :=
  {| StepLoop.fact := padding 20000; StepLoop.source := "https://example.org/long" |}.

Definition short_fact : Fact :=
  {| StepLoop.fact := "Rent in Seattle is high"; StepLoop.source := "https://example.org/rent" |}.

(** A judge that passes exactly when the text it is shown mentions
    Seattle. *)
Definition seattle_judge (goal text : string) : option Verdict :=
  Some {| pass := contains "Seattle" text;
          rescue_query := Some "rent in Seattle";
          reason := "" |}.

Lemma verdict_ignores_witness :
  check_global_sufficiency seattle_judge "question" ([long_fact] ++ [short_fact])
  = check_global_sufficiency seattle_judge "question" [long_fact].
Proof.
  apply (verdict_ignores_facts_past_20000_characters
           seattle_judge "question" [long_fact] [short_fact]).
  apply Nat.leb_le. vm_compute. reflexivity.
Defined.

Example late_fact_is_not_seen :
  pass (check_global_sufficiency seattle_judge "question" [long_fact; short_fact])
  = false
  /\ pass (check_global_sufficiency seattle_judge "question" [short_fact; long_fact])
     = true.
Proof. split; vm_compute; reflexivity. Qed.

(** X19: the check fails open.  When the judge's model call (or the
    parsing of its answer) raises, [_perform_sanity_check] reports the
    data as sufficient: no rescue query is recorded, nothing is searched
    or fetched, and the facts stay as they were. *)
Theorem failed_judge_lets_the_run_proceed
    (w : World) (ask : string -> string -> option Verdict)
    (user_prompt : string) (st : State) :
  SanityCheck.check_global_sufficiency w
    = SanityChecker.check_global_sufficiency ask ->
  ask user_prompt (slice_to 20000 (facts_text (all_collected_facts st))) = None ->
  exists st',
    _perform_sanity_check w user_prompt st = Finished st'
    /\ all_collected_facts st' = all_collected_facts st
    /\ rescue_queries st' = rescue_queries st
    /\ calls st' = calls st ++ [Judge].
Proof.
  intros Hjudge Hraise. unfold _perform_sanity_check.
  rewrite Hjudge. unfold SanityChecker.check_global_sufficiency.
  rewrite Hraise. cbn [pass error_verdict].
  eexists. split; [reflexivity|]. repeat split.
Qed.

(** A world whose judge cannot be reached. *)
Definition unreachable_judge_world : World :=
  {| SanityCheck.check_global_sufficiency :=
       SanityChecker.check_global_sufficiency (fun _ _ => None);
     search := fun _ _ =>
       [{| title := Some "t"; link := Some "https://example.org/"; url := None |}];
     scrape_with_timeout := fun _ _ _ => Some "page text";
     extract_key_info := fun _ _ _ u =>
       [{| StepLoop.fact := "found"; StepLoop.source := u |}] |}.

Lemma failed_judge_witness :
  exists st',
    _perform_sanity_check unreachable_judge_world "question"
      (SanityCheckFacts.fresh_state [short_fact]) = Finished st'
    /\ all_collected_facts st' = [short_fact]
    /\ rescue_queries st' = 0
    /\ calls st' = [] ++ [Judge].
Proof.
  apply (failed_judge_lets_the_run_proceed unreachable_judge_world
           (fun _ _ => None) "question"
           (SanityCheckFacts.fresh_state [short_fact])).
  - reflexivity.
  - reflexivity.
Defined.

End SanityCheckerFacts.

(** ** Facts about the citation numbers of the report *)

Module SynthesizerFacts.

Import Synthesizer.

(** The table has the numbers 1, 2, ... in insertion order, the counter is
    the next free number, and no URL is listed twice. *)
Definition numbered (acc : Citations * nat) : Prop :=
  map snd acc.1 = seq 1 (length acc.1)
  /\ acc.2 = S (length acc.1)
  /\ NoDup (map fst acc.1).

Lemma lookup_None (url : string) (d : Citations) :
  lookup url d = None <-> url ∉ map fst d.
Proof.
  induction d as [|[u n] d IH]; cbn [lookup map fst].
  - split; [intros _; apply not_elem_of_nil|reflexivity].
  - destruct (decide (u = url)) as [->|Hne].
    + split; [discriminate|]. intros []. left.
    + rewrite IH. rewrite not_elem_of_cons. naive_solver.
Qed.

Lemma lookup_Some (url : string) (d : Citations) (n : nat) :
  lookup url d = Some n -> (url, n) ∈ d.
Proof.
  induction d as [|[u m] d IH]; cbn [lookup]; [discriminate|].
  destruct (decide (u = url)) as [->|Hne].
  - intros [= ->]. left.
  - intros H. right. auto.
Qed.

Lemma lookup_app_l (url : string) (d ext : Citations) (n : nat) :
  lookup url d = Some n -> lookup url (d ++ ext) = Some n.
Proof.
  induction d as [|[u m] d IH]; cbn [lookup app]; [discriminate|].
  destruct (decide (u = url)); auto.
Qed.

Lemma number_source_numbered (acc : Citations * nat) (item : Fact) :
  numbered acc -> numbered (number_source acc item).
Proof.
  destruct acc as [d c]. unfold numbered, number_source. cbn [fst snd].
  intros (Hnum & -> & Hnd).
  destruct (lookup (StepLoop.source item) d) eqn:Hl; cbn [fst snd]; [auto|].
  rewrite !map_app, length_app, Hnum. cbn [map fst snd length].
  split; [|split].
  - rewrite Nat.add_1_r, seq_S. reflexivity.
  - lia.
  - apply NoDup_app. split; [exact Hnd|]. split.
    + intros u Hu Hin. apply list_elem_of_singleton in Hin. subst u.
      now apply lookup_None in Hl.
    + apply NoDup_singleton.
Qed.

Lemma number_source_extends (acc : Citations * nat) (item : Fact) :
  acc.1 `prefix_of` (number_source acc item).1.
Proof.
  destruct acc as [d c]. unfold number_source. cbn [fst].
  destruct (lookup _ d); cbn [fst]; [reflexivity|]. now apply prefix_app_r.
Qed.

Lemma number_source_keys (acc : Citations * nat) (item : Fact) (u : string) :
  u ∈ map fst (number_source acc item).1
  <-> u ∈ map fst acc.1 \/ u = StepLoop.source item.
Proof.
  destruct acc as [d c]. unfold number_source. cbn [fst].
  destruct (lookup (StepLoop.source item) d) eqn:Hl; cbn [fst].
  - split; [auto|]. intros [H| ->]; [exact H|].
    apply lookup_Some in Hl.
    apply list_elem_of_fmap. now exists (StepLoop.source item, n).
  - rewrite map_app, elem_of_app. cbn [map fst].
    now rewrite list_elem_of_singleton.
Qed.

Lemma fold_numbered (facts : list Fact) :
  forall acc, numbered acc -> numbered (fold_left number_source facts acc).
Proof.
  induction facts as [|item facts IH]; intros acc Hacc; cbn [fold_left];
    [exact Hacc|].
  apply IH. now apply number_source_numbered.
Qed.

Lemma fold_extends (facts : list Fact) :
  forall acc, acc.1 `prefix_of` (fold_left number_source facts acc).1.
Proof.
  induction facts as [|item facts IH]; intros acc; cbn [fold_left];
    [reflexivity|].
  etransitivity; [apply (number_source_extends acc item)|apply IH].
Qed.

Lemma fold_keys (facts : list Fact) :
  forall acc u,
    u ∈ map fst (fold_left number_source facts acc).1
    <-> u ∈ map fst acc.1 \/ u ∈ map StepLoop.source facts.
Proof.
  induction facts as [|item facts IH]; intros acc u; cbn [fold_left map].
  - rewrite elem_of_nil. tauto.
  - rewrite IH, number_source_keys, elem_of_cons. tauto.
Qed.

Lemma numbered_start : numbered ([], 1).
Proof. repeat split. constructor. Qed.

(** A table whose numbers already increase is left as it is by the sort. *)
Lemma sorted_by_number_increasing (d : Citations) :
  forall start, map snd d = seq start (length d) -> sorted_by_number d = d.
Proof.
  induction d as [|x d IH]; intros start Hd; [reflexivity|].
  cbn [map length seq] in Hd. injection Hd as Hx Hrest.
  unfold sorted_by_number in *. cbn [foldr]. rewrite (IH _ Hrest).
  destruct d as [|y d]; [reflexivity|].
  cbn [map length seq] in Hrest. injection Hrest as Hy _.
  cbn [insert_by_number].
  assert ((x.2 <=? y.2)%nat = true) as -> by (apply Nat.leb_le; lia).
  reflexivity.
Qed.

Lemma references_deduplicate (facts : list Fact) :
  references facts = deduplicate facts.
Proof.
  unfold references.
  apply (sorted_by_number_increasing _ 1).
  apply (fold_numbered facts ([], 1) numbered_start).
Qed.

Lemma numbered_position (d : Citations) (u : string) (n : nat) :
  map snd d = seq 1 (length d) -> (u, n) ∈ d -> d !! (n - 1) = Some (u, n).
Proof.
  intros Hnum Hin. apply list_elem_of_lookup in Hin as [k Hk].
  assert (map snd d !! k = Some n) as Hn
    by (rewrite list_lookup_fmap, Hk; reflexivity).
  rewrite Hnum in Hn. apply lookup_seq in Hn as [-> _].
  now replace (1 + k - 1) with k by lia.
Qed.

(** X20: citation numbers.  The references section lists every source of
    the facts exactly once, numbered 1, 2, ..., m without a gap, in the
    order it is written; every fact gets a citation number (the lookup
    never raises), and the reference with that number is the fact's own
    source. *)
Theorem each_source_gets_one_citation_number (facts : list Fact) :
  map snd (references facts) = seq 1 (length (references facts))
  /\ NoDup (map fst (references facts))
  /\ (forall u, u ∈ map fst (references facts) <-> u ∈ map StepLoop.source facts)
  /\ exists nums,
       citation_nums facts = Some nums
       /\ length nums = length facts
       /\ forall i item n,
            facts !! i = Some item -> nums !! i = Some n ->
            references facts !! (n - 1) = Some (StepLoop.source item, n).
Proof.
  rewrite references_deduplicate.
  destruct (fold_numbered facts ([], 1) numbered_start) as (Hnum & _ & Hnd).
  fold (deduplicate facts) in Hnum, Hnd.
  assert (Hkeys : forall u,
             u ∈ map fst (deduplicate facts) <-> u ∈ map StepLoop.source facts).
  { intros u. unfold deduplicate. rewrite fold_keys. cbn [fst map].
    rewrite elem_of_nil. tauto. }
  split; [exact Hnum|]. split; [exact Hnd|]. split; [exact Hkeys|].
  unfold citation_nums.
  destruct (mapM (fun item => lookup (StepLoop.source item) (deduplicate facts))
              facts) as [nums|] eqn:Hm.
  - exists nums. split; [reflexivity|].
    apply mapM_Some in Hm. split; [symmetry; eapply Forall2_length, Hm|].
    intros i item n Hi Hn.
    destruct (Forall2_lookup_l _ _ _ _ _ Hm Hi) as (n' & Hn' & Hl).
    assert (n' = n) as -> by congruence.
    apply numbered_position; [exact Hnum|]. now apply lookup_Some.
  - exfalso. apply mapM_None in Hm. apply Exists_exists in Hm
      as (item & Hin & Hl).
    apply lookup_None in Hl. apply Hl, Hkeys.
    apply list_elem_of_fmap. exists item. split; [reflexivity|]. exact Hin.
Qed.

(** X21: citation numbers are stable.  Facts appended to the list never
    renumber a source cited before: the references of the longer list
    start with the references of the shorter one, so sources are numbered
    in the order of their first appearance. *)
Theorem appended_facts_keep_earlier_citation_numbers (facts more : list Fact) :
  references facts `prefix_of` references (facts ++ more).
Proof.
  rewrite !references_deduplicate. unfold deduplicate.
  rewrite fold_left_app. apply fold_extends.
Qed.

Example three_facts_two_sources :
  let facts :=
    [ {| StepLoop.fact := "f1"; StepLoop.source := "https://a.example" |};
      {| StepLoop.fact := "f2"; StepLoop.source := "https://b.example" |};
      {| StepLoop.fact := "f3"; StepLoop.source := "https://a.example" |} ] in
  citation_nums facts = Some [1; 2; 1]
  /\ references facts = [("https://a.example", 1); ("https://b.example", 2)].
Proof. split; vm_compute; reflexivity. Qed.

End SynthesizerFacts.

(** ** Facts about the token rotation of [GPTManager] *)

Module GptManagerFacts.

Import PyStr GptManager.

Abbreviation place_after := GeminiCallsFacts.place_after.

(** The tokens of the attempts: each attempt opens with a GPT-5 request. *)
Definition attempts (log : list Request) : list nat :=
  omap (fun request => match request with
                       | (i, Gpt5) => Some i
                       | (_, Gpt4o) => None
                       end) log.

Definition is_returned (g : Generated) : bool :=
  match g with Returned _ => true | _ => false end.

Lemma attempts_app (l1 l2 : list Request) :
  attempts (l1 ++ l2) = attempts l1 ++ attempts l2.
Proof. apply omap_app. Qed.

(** One attempt makes one or two requests with the current token, the
    first one for GPT-5; a content it hands back is the reply to its last
    request. *)
Lemma attempt_post (create : nat -> nat -> Model -> Reply) (self : GPTManager)
    (log : list Request) :
  exists ext,
    (attempt create self log).2 = log ++ ext
    /\ attempts ext = [current_token_index self]
    /\ 1 <= length ext <= 2
    /\ forall text, (attempt create self log).1 = Content text ->
         exists pre i m,
           log ++ ext = pre ++ [(i, m)] /\ create (length pre) i m = Content text.
Proof.
  unfold attempt.
  destruct (create (length log) (current_token_index self) Gpt5)
    as [text|error_str] eqn:H5.
  - exists [(current_token_index self, Gpt5)]. cbn [fst snd length attempts omap list_omap].
    repeat split; try lia. intros text' [= <-].
    exists log, (current_token_index self), Gpt5. auto.
  - destruct (gpt5_unavailable error_str).
    + exists [(current_token_index self, Gpt5); (current_token_index self, Gpt4o)].
      cbn [fst snd length]. repeat split; try lia. intros text H4.
      exists (log ++ [(current_token_index self, Gpt5)]),
        (current_token_index self), Gpt4o.
      rewrite <- app_assoc. split; [reflexivity|].
      rewrite length_app, Nat.add_1_r. exact H4.
    + exists [(current_token_index self, Gpt5)]. cbn [fst snd length].
      repeat split; try lia. discriminate.
Qed.

Section DefaultRetries.

Variable create : nat -> nat -> Model -> Reply.
Variables (toks : list string) (start : nat).
Hypothesis Hstart : start < length toks.

Let n := length toks.

(** The state of the manager once [t] tokens have been given up. *)
Definition after_tokens (t : nat) : GPTManager :=
  {| tokens := toks; current_token_index := place_after n start t |}.

Lemma rotate_after_tokens (t : nat) :
  _rotate_token (after_tokens t) = after_tokens (S t).
Proof.
  unfold _rotate_token, after_tokens. cbn [tokens current_token_index].
  f_equal. exact (GeminiCallsFacts.place_after_next n start Hstart t).
Qed.

(** With [max_retries = 1] the loop gives each token one attempt, going
    round the list from the token that was current. *)
Lemma generate_loop_round (fuel : nat) :
  forall t log,
    t < n -> n - t <= fuel ->
    exists r k ext,
      generate_loop fuel create 1 (after_tokens t) t 0 log = Some r
      /\ t <= k < n
      /\ manager r = after_tokens k
      /\ requests r = log ++ ext
      /\ attempts ext = map (place_after n start) (seq t (S k - t))
      /\ length ext <= 2 * (S k - t)
      /\ (is_returned (outcome r) = true \/ k = n - 1)
      /\ outcome r <> NothingLeft
      /\ forall text, outcome r = Returned text ->
           exists pre i m,
             requests r = pre ++ [(i, m)]
             /\ create (length pre) i m = Content text.
Proof.
  induction fuel as [|fuel IH]; intros t log Ht Hfuel; [lia|].
  cbn [generate_loop after_tokens tokens]. fold n.
  assert ((t <? n)%nat = true) as -> by (apply Nat.ltb_lt; lia).
  set (more := (S t <? n)%nat). cbn [Nat.ltb Nat.leb].
  destruct (attempt_post create (after_tokens t) log)
    as (ext & Hlog & Hatt & Hlen & Hcontent).
  fold (after_tokens t).
  destruct (attempt create (after_tokens t) log) as [reply log'] eqn:Hattempt.
  cbn [fst snd] in Hlog, Hcontent. subst log'.
  cbn [after_tokens current_token_index] in Hatt.
  assert (Hone : forall k, k = t ->
            attempts ext = map (place_after n start) (seq t (S k - t))
            /\ length ext <= 2 * (S k - t)).
  { intros k ->. replace (S t - t) with 1 by lia. cbn [seq map].
    split; [exact Hatt|lia]. }
  assert (Hmore : forall r k ext',
            generate_loop fuel create 1 (after_tokens (S t)) (S t) 0 (log ++ ext)
              = Some r ->
            S t <= k < n ->
            requests r = (log ++ ext) ++ ext' ->
            attempts ext' = map (place_after n start) (seq (S t) (S k - S t)) ->
            length ext' <= 2 * (S k - S t) ->
            requests r = log ++ (ext ++ ext')
            /\ attempts (ext ++ ext')
               = map (place_after n start) (seq t (S k - t))
            /\ length (ext ++ ext') <= 2 * (S k - t)).
  { intros r k ext' _ Hk Hreq Hatt' Hlen'.
    split; [now rewrite Hreq, app_assoc|].
    replace (S k - t) with (S (S k - S t)) by lia.
    rewrite attempts_app, Hatt, Hatt', length_app. cbn [seq map app].
    split; [reflexivity|lia]. }
  destruct reply as [text|error_str].
  - eexists _, t, ext. split; [reflexivity|].
    cbn [outcome manager requests is_returned].
    destruct (Hone t eq_refl) as [H1 H2].
    repeat split; try lia; auto; try discriminate.
    intros text' [= <-]. now apply Hcontent.
  - destruct (decide (S t < n)) as [Hnext|Hlast].
    + assert ((S t <? n)%nat = true) as HS by (apply Nat.ltb_lt; lia).
      destruct (IH (S t) (log ++ ext) Hnext ltac:(lia))
        as (r & k & ext' & Hrun & Hk & Hm & Hreq & Hatt' & Hlen' & Hout & Hnl & Htext).
      destruct (Hmore r k ext' Hrun Hk Hreq Hatt' Hlen') as (Hreq' & Hatt'' & Hlen'').
      assert (generate_loop fuel create 1 (_rotate_token (after_tokens t))
                (S t) 0 (log ++ ext) = Some r) as Hrun'
        by (now rewrite rotate_after_tokens).
      exists r, k, (ext ++ ext').
      split.
      { subst more. destruct (is_rate_limit error_str); rewrite HS; exact Hrun'. }
      repeat split; try lia; auto.
    + assert ((S t <? n)%nat = false) as HS by (apply Nat.ltb_ge; lia).
      destruct (Hone t eq_refl) as [H1 H2].
      subst more. destruct (is_rate_limit error_str); rewrite HS;
        eexists _, t, ext; (split; [reflexivity|]);
        cbn [outcome manager requests is_returned];
        repeat split; try lia; auto; try discriminate;
        right; lia.
Qed.

End DefaultRetries.

(** X22: token rotation with the default [max_retries = 1].  Whatever the
    endpoint answers, [generate_content] ends: it gives each token at most
    one attempt (one GPT-5 request, followed by at most one GPT-4o
    request), going round the list from the current token; it returns the
    content of the first attempt that succeeds, which is the reply to the
    last request made, and leaves that token current; it raises only when
    every token has had its attempt, and never reaches the exception
    placed after the loops. *)
Theorem default_retries_try_each_token_once
    (create : nat -> nat -> Model -> Reply) (self : GPTManager) (fuel : nat) :
  current_token_index self < length (tokens self) ->
  length (tokens self) <= fuel ->
  exists r k,
    generate_content fuel create default_max_retries self = Some r
    /\ k < length (tokens self)
    /\ tokens (manager r) = tokens self
    /\ current_token_index (manager r)
       = (current_token_index self + k) mod length (tokens self)
    /\ attempts (requests r)
       = map (fun t => (current_token_index self + t) mod length (tokens self))
             (seq 0 (S k))
    /\ length (requests r) <= 2 * S k
    /\ (is_returned (outcome r) = true \/ k = length (tokens self) - 1)
    /\ outcome r <> NothingLeft
    /\ forall text, outcome r = Returned text ->
         exists pre i m,
           requests r = pre ++ [(i, m)]
           /\ create (length pre) i m = Content text.
Proof.
  intros Hidx Hfuel. destruct self as [toks start].
  cbn [tokens current_token_index] in *.
  destruct (generate_loop_round create toks start Hidx fuel 0 [] ltac:(lia) ltac:(lia))
    as (r & k & ext & Hrun & Hk & Hm & Hreq & Hatt & Hlen & Hout & Hnl & Htext).
  assert (after_tokens toks start 0 = {| tokens := toks; current_token_index := start |})
    as Hzero.
  { unfold after_tokens, GeminiCallsFacts.place_after. f_equal.
    rewrite Nat.add_0_r. now apply Nat.mod_small. }
  rewrite Hzero in Hrun. cbn [app] in Hreq. rewrite Nat.sub_0_r in Hatt, Hlen.
  exists r, k. unfold generate_content, default_max_retries.
  rewrite Hm, Hreq. cbn [after_tokens tokens current_token_index].
  split; [exact Hrun|]. split; [lia|]. split; [reflexivity|].
  split; [reflexivity|]. split; [exact Hatt|]. split; [exact Hlen|].
  split; [exact Hout|]. split; [exact Hnl|].
  intros text Ht. rewrite <- Hreq. now apply Htext.
Qed.

(** Three tokens, the second one current; the endpoint knows no GPT-5,
    and answers for GPT-4o only with the first token. *)
Definition three_tokens : GPTManager :=
  {| tokens := ["t0"; "t1"; "t2"]; current_token_index := 1 |}.

Definition first_token_answers (k i : nat) (m : Model) : Reply :=
  match m, i with
  | Gpt5, _ => Error "Model gpt-5 not found"
  | Gpt4o, 0 => Content "report"
  | Gpt4o, _ => Error "Too Many Requests"
  end.

Lemma default_retries_witness :
  exists r k,
    generate_content 3 first_token_answers default_max_retries three_tokens = Some r
    /\ k < length (tokens three_tokens)
    /\ tokens (manager r) = tokens three_tokens
    /\ current_token_index (manager r)
       = (current_token_index three_tokens + k) mod length (tokens three_tokens)
    /\ attempts (requests r)
       = map (fun t => (current_token_index three_tokens + t)
                       mod length (tokens three_tokens))
             (seq 0 (S k))
    /\ length (requests r) <= 2 * S k
    /\ (is_returned (outcome r) = true \/ k = length (tokens three_tokens) - 1)
    /\ outcome r <> NothingLeft
    /\ forall text, outcome r = Returned text ->
         exists pre i m,
           requests r = pre ++ [(i, m)]
           /\ first_token_answers (length pre) i m = Content text.
Proof.
  apply (default_retries_try_each_token_once first_token_answers three_tokens 3).
  - cbn. lia.
  - cbn. lia.
Defined.

Example three_tokens_run :
  generate_content 3 first_token_answers default_max_retries three_tokens
  = Some {| outcome := Returned "report";
            manager := {| tokens := ["t0"; "t1"; "t2"]; current_token_index := 0 |};
            requests := [(1, Gpt5); (1, Gpt4o); (2, Gpt5); (2, Gpt4o);
                         (0, Gpt5); (0, Gpt4o)] |}.
Proof. vm_compute. reflexivity. Qed.

(** The reply that reaches the handler of an attempt when every request
    is refused with a rate-limit error. *)
Lemma attempt_rate_limited (create : nat -> nat -> Model -> Reply)
    (self : GPTManager) (log : list Request) :
  (forall k i m, exists error_str,
      create k i m = Error error_str /\ is_rate_limit error_str = true) ->
  exists error_str log',
    attempt create self log = (Error error_str, log')
    /\ is_rate_limit error_str = true.
Proof.
  intros Hall. unfold attempt.
  destruct (Hall (length log) (current_token_index self) Gpt5) as (e5 & -> & H5).
  destruct (gpt5_unavailable e5).
  - destruct (Hall (S (length log)) (current_token_index self) Gpt4o)
      as (e4 & -> & H4).
    eauto.
  - eauto.
Qed.

(** X23: two ways in which [generate_content] never ends.  With
    [max_retries = 0] the inner loop is skipped and the outer one tests
    the same condition for ever, without a single request; with
    [max_retries >= 2], as long as every request is refused with a
    rate-limit error the retry is not counted ([retries -= 1]) and the
    same token is tried again for ever, never rotated. *)
Theorem generate_content_spins_for_ever
    (create : nat -> nat -> Model -> Reply) (max_retries : nat)
    (self : GPTManager) (fuel : nat) :
  tokens self <> [] ->
  max_retries = 0
  \/ (2 <= max_retries
      /\ forall k i m, exists error_str,
           create k i m = Error error_str /\ is_rate_limit error_str = true) ->
  generate_content fuel create max_retries self = None.
Proof.
  intros Htokens Hcase. unfold generate_content. generalize (@nil Request).
  assert ((0 <? length (tokens self))%nat = true) as Hlt.
  { apply Nat.ltb_lt. destruct (tokens self); [congruence|cbn; lia]. }
  induction fuel as [|fuel IH]; intros log; [reflexivity|].
  cbn [generate_loop]. rewrite Hlt.
  destruct Hcase as [->|[Hretries Hall]].
  - cbn [Nat.ltb Nat.leb]. apply IH.
  - assert ((0 <? max_retries)%nat = true) as -> by (apply Nat.ltb_lt; lia).
    destruct (attempt_rate_limited create self log Hall)
      as (error_str & log' & -> & ->).
    assert ((max_retries <=? 1)%nat = false) as -> by (apply Nat.leb_gt; lia).
    cbn [Nat.sub]. apply IH.
Qed.

Definition always_rate_limited (k i : nat) (m : Model) : Reply :=
  Error "Rate limit exceeded".

Lemma generate_content_spins_witness :
  generate_content 1000 always_rate_limited 3 three_tokens = None.
Proof.
  apply (generate_content_spins_for_ever always_rate_limited 3 three_tokens 1000).
  - discriminate.
  - right. split; [lia|]. intros k i m. exists "Rate limit exceeded".
    split; reflexivity.
Defined.

End GptManagerFacts.

(** ** Facts about the sources of extracted facts *)

Module ExtractorFacts.

Import Extractor Synthesizer SynthesizerFacts.

(** The facts extracted from a list of pages [(url, raw_text)]. *)
Definition facts_of_pages
    (ask : string -> string -> string -> option (list string))
    (query : string) (pages : list (string * string)) : list Fact :=
  flat_map (fun page => extract_key_info ask query page.2 page.1) pages.

Lemma extract_key_info_source
    (ask : string -> string -> string -> option (list string))
    (query raw_text source_url : string) (item : Fact) :
  item ∈ extract_key_info ask query raw_text source_url ->
  StepLoop.source item = source_url.
Proof.
  unfold extract_key_info. destruct (ask _ _ _) as [findings|].
  - intros Hin. apply list_elem_of_fmap in Hin as (f & -> & _). reflexivity.
  - intros Hin. now apply elem_of_nil in Hin.
Qed.

Lemma references_keys (facts : list Fact) (u : string) :
  u ∈ map fst (references facts) <-> u ∈ map StepLoop.source facts.
Proof.
  rewrite references_deduplicate. unfold deduplicate. rewrite fold_keys.
  cbn [fst map]. rewrite elem_of_nil. tauto.
Qed.

Lemma references_NoDup (facts : list Fact) : NoDup (map fst (references facts)).
Proof.
  rewrite references_deduplicate.
  now destruct (fold_numbered facts ([], 1) numbered_start) as (_ & _ & Hnd).
Qed.

(** X24: the sources of the report are pages that were read.  Whatever
    the extraction model answers, every fact extracted from a page carries
    that page's URL, so each URL of the references section is the URL of a
    page handed to the extractor, and the report never lists more
    references than pages were read. *)
Theorem references_are_pages_read
    (ask : string -> string -> string -> option (list string))
    (query : string) (pages : list (string * string)) :
  let facts := facts_of_pages ask query pages in
  (forall item, item ∈ facts -> StepLoop.source item ∈ map fst pages)
  /\ (forall u, u ∈ map fst (references facts) -> u ∈ map fst pages)
  /\ length (references facts) <= length pages.
Proof.
  intros facts.
  assert (Hsrc : forall item, item ∈ facts -> StepLoop.source item ∈ map fst pages).
  { intros item Hin. unfold facts, facts_of_pages in Hin.
    apply list_elem_of_In, in_flat_map in Hin as (page & Hpage & Hitem).
    apply list_elem_of_In in Hitem.
    rewrite (extract_key_info_source _ _ _ _ _ Hitem).
    apply list_elem_of_fmap. exists page. split; [reflexivity|].
    now apply list_elem_of_In. }
  assert (Hrefs : forall u, u ∈ map fst (references facts) -> u ∈ map fst pages).
  { intros u Hu. apply references_keys in Hu.
    apply list_elem_of_fmap in Hu as (item & -> & Hin). now apply Hsrc. }
  split; [exact Hsrc|]. split; [exact Hrefs|].
  rewrite <- (length_map fst (references facts)), <- (length_map fst pages).
  apply submseteq_length, NoDup_submseteq; [apply references_NoDup|exact Hrefs].
Qed.

End ExtractorFacts.

(** ** Facts about the download of a PDF *)

Module ScraperFacts.

Import Scraper.

Local Open Scope Z_scope.

(** The loop keeps what was written, adds whole chunks in order, and never
    lets the total pass [max_size]. *)
Lemma read_chunks_post (chunks : list (list Byte.byte)) :
  forall pdf_content total_size,
    total_size = Z.of_nat (length pdf_content) ->
    total_size <= max_size ->
    exists kept,
      read_chunks chunks pdf_content total_size = pdf_content ++ kept
      /\ kept `prefix_of` concat chunks
      /\ Z.of_nat (length (pdf_content ++ kept)) <= max_size
      /\ (total_size + Z.of_nat (length (concat chunks)) <= max_size ->
          kept = concat chunks).
Proof.
  induction chunks as [|chunk rest IH]; intros pdf_content total_size Hsize Hmax;
    cbn [read_chunks concat].
  - exists []. rewrite app_nil_r.
    split; [reflexivity|]. split; [reflexivity|]. split; [lia|]. reflexivity.
  - destruct chunk as [|b chunk]; [apply IH; assumption|].
    set (c := b :: chunk).
    destruct (max_size <? total_size + Z.of_nat (length c)) eqn:Hover.
    + apply Z.ltb_lt in Hover. exists []. rewrite app_nil_r.
      split; [reflexivity|]. split; [apply prefix_nil|]. split; [lia|].
      rewrite length_app. lia.
    + apply Z.ltb_ge in Hover.
      destruct (IH (pdf_content ++ c) (total_size + Z.of_nat (length c)))
        as (kept & Hrun & Hpre & Hlen & Hall).
      * rewrite length_app. lia.
      * exact Hover.
      * exists (c ++ kept). rewrite Hrun, <- app_assoc.
        split; [reflexivity|]. split; [now apply prefix_app|].
        split; [now rewrite app_assoc|].
        intros Hfit. f_equal. apply Hall. rewrite length_app in Hfit. lia.
Qed.

(** X25: the 50 MB cap of the PDF download.  The bytes handed to the PDF
    parsers are a prefix of the stream made of whole chunks, never more
    than 50 MB, and the whole stream when it is not longer than 50 MB. *)
Theorem pdf_download_is_capped (chunks : list (list Byte.byte)) :
  downloaded chunks `prefix_of` concat chunks
  /\ Z.of_nat (length (downloaded chunks)) <= 52428800
  /\ (Z.of_nat (length (concat chunks)) <= 52428800 ->
      downloaded chunks = concat chunks).
Proof.
  unfold downloaded.
  destruct (read_chunks_post chunks [] 0 eq_refl ltac:(unfold max_size; lia))
    as (kept & Hrun & Hpre & Hlen & Hall).
  rewrite Hrun. cbn [app] in *. change max_size with 52428800 in *.
  repeat split; auto.
Qed.

End ScraperFacts.
